(** * Bulk CSV loader ([back_go/csv/processor.go]): model and properties

    The Go package [csv] of the repository streams a comma-separated file into
    a freshly created PostgreSQL table through the COPY protocol.  This file
    embeds its four functions ([ProcessCSVOptimized], [copyInsert],
    [optimizeForBulkInsert], [ProcessCSV]) as Rocq functions over an explicit
    world (destination, record source, clock, standard output) and proves the
    properties of the specification about them.

    Layout: Go strings and the string functions the code calls, the
    destination and the record source, the four functions, then the
    theorems. *)

From Stdlib Require Import ZArith Lia String Ascii List Bool DecimalString.
From stdpp Require Import gmap strings list.

Open Scope string_scope.
Open Scope Z_scope.

(** ** Go strings

    A Go string is a sequence of bytes; [string] (a list of 8-bit [ascii])
    is exactly that.  Bytes are read as numbers in [0, 256). *)

Definition byte_of (a : ascii) : Z := Z.of_N (N_of_ascii a).

(** The conversion [byte(x)] keeps the low eight bits. *)
Definition chr (z : Z) : ascii := ascii_of_N (Z.to_N (z mod 256)).

Fixpoint map_bytes (f : Z -> Z) (s : string) : string :=
  match s with
  | EmptyString => EmptyString
  | String a r => String (chr (f (byte_of a))) (map_bytes f r)
  end.

Fixpoint all_bytes (p : Z -> bool) (s : string) : bool :=
  match s with
  | EmptyString => true
  | String a r => p (byte_of a) && all_bytes p r
  end.

(** [strings.Join]. *)
Fixpoint Join (elems : list string) (sep : string) : string :=
  match elems with
  | [] => ""
  | [e] => e
  | e :: rest => e ++ sep ++ Join rest sep
  end.

(** [%d] of an [int]. *)
Definition itoa (z : Z) : string := NilZero.string_of_int (Z.to_int z).

(** Go's [int] is 64 bits wide on the platforms the loader runs on; sums
    wrap around in two's complement. *)
Definition wrap64 (z : Z) : Z := (z + 2 ^ 63) mod 2 ^ 64 - 2 ^ 63.

Module utf8.

(** The part of Go's [unicode/utf8] that [strings.ToLower] and
    [strings.ReplaceAll] go through. *)

Definition RuneError : Z := 0xFFFD.
Definition RuneSelf : Z := 0x80.
Definition MaxRune : Z := 0x10FFFF.
Definition surrogateMin : Z := 0xD800.
Definition surrogateMax : Z := 0xDFFF.

Definition ValidRune (r : Z) : bool :=
  ((0 <=? r) && (r <? surrogateMin)) || ((surrogateMax <? r) && (r <=? MaxRune)).

(** The table [first]: information about the first byte of an encoding.
    [0xF0] is ASCII, [0xF1] is invalid, otherwise the low three bits give the
    size and the high four bits the index into [acceptRanges]. *)
Definition first (b : Z) : Z :=
  if b <? 0x80 then 0xF0
  else if b <? 0xC2 then 0xF1
  else if b <? 0xE0 then 0x02
  else if b =? 0xE0 then 0x13
  else if b <? 0xED then 0x03
  else if b =? 0xED then 0x23
  else if b <? 0xF0 then 0x03
  else if b =? 0xF0 then 0x34
  else if b <? 0xF4 then 0x04
  else if b =? 0xF4 then 0x44
  else 0xF1.

Definition acceptRanges (i : Z) : Z * Z :=
  if i =? 0 then (0x80, 0xBF)
  else if i =? 1 then (0xA0, 0xBF)
  else if i =? 2 then (0x80, 0x9F)
  else if i =? 3 then (0x90, 0xBF)
  else if i =? 4 then (0x80, 0x8F)
  else (0, 0).

Definition continuation (b : Z) : bool := (0x80 <=? b) && (b <=? 0xBF).

(** The rune of a two-, three- and four-byte encoding. *)
Definition rune2 (s0 s1 : Z) : Z :=
  Z.lor (Z.shiftl (Z.land s0 0x1F) 6) (Z.land s1 0x3F).

Definition rune3 (s0 s1 s2 : Z) : Z :=
  Z.lor (Z.lor (Z.shiftl (Z.land s0 0x0F) 12) (Z.shiftl (Z.land s1 0x3F) 6))
        (Z.land s2 0x3F).

Definition rune4 (s0 s1 s2 s3 : Z) : Z :=
  Z.lor (Z.lor (Z.lor (Z.shiftl (Z.land s0 0x07) 18) (Z.shiftl (Z.land s1 0x3F) 12))
               (Z.shiftl (Z.land s2 0x3F) 6))
        (Z.land s3 0x3F).

(** [utf8.DecodeRuneInString]: the first rune of [s] and its width in bytes;
    an invalid or truncated encoding gives [(RuneError, 1)], the empty string
    [(RuneError, 0)]. *)
Definition DecodeRuneInString (s : string) : Z * nat :=
  match s with
  | EmptyString => (RuneError, 0%nat)
  | String a0 r0 =>
    let s0 := byte_of a0 in
    let x := first s0 in
    if 0xF0 <=? x then
      (if Z.odd x then RuneError else s0, 1%nat)
    else
      let sz := Z.land x 7 in
      let '(lo, hi) := acceptRanges (Z.shiftr x 4) in
      match r0 with
      | EmptyString => (RuneError, 1%nat)
      | String a1 r1 =>
        let s1 := byte_of a1 in
        if (s1 <? lo) || (hi <? s1) then (RuneError, 1%nat)
        else if sz <=? 2 then (rune2 s0 s1, 2%nat)
        else
          match r1 with
          | EmptyString => (RuneError, 1%nat)
          | String a2 r2 =>
            let s2 := byte_of a2 in
            if negb (continuation s2) then (RuneError, 1%nat)
            else if sz <=? 3 then (rune3 s0 s1 s2, 3%nat)
            else
              match r2 with
              | EmptyString => (RuneError, 1%nat)
              | String a3 _ =>
                let s3 := byte_of a3 in
                if negb (continuation s3) then (RuneError, 1%nat)
                else (rune4 s0 s1 s2 s3, 4%nat)
              end
          end
      end
  end.

(** [utf8.AppendRune] onto the empty buffer: the encoding of [r]; a
    surrogate or out-of-range rune is written as [RuneError]. *)
Definition lead (tag r : Z) (shift : Z) : Z := Z.lor tag (Z.shiftr r shift).
Definition cont (r : Z) (shift : Z) : Z := Z.lor 0x80 (Z.land (Z.shiftr r shift) 0x3F).

Definition encode3 (r : Z) : string :=
  String (chr (lead 0xE0 r 12))
    (String (chr (cont r 6)) (String (chr (cont r 0)) EmptyString)).

Definition EncodeRune (r : Z) : string :=
  if (0 <=? r) && (r <=? 0x7F) then String (chr r) EmptyString
  else if (0 <=? r) && (r <=? 0x7FF) then
    String (chr (lead 0xC0 r 6)) (String (chr (cont r 0)) EmptyString)
  else if negb (ValidRune r) then encode3 RuneError
  else if r <=? 0xFFFF then encode3 r
  else
    String (chr (lead 0xF0 r 18))
      (String (chr (cont r 12))
        (String (chr (cont r 6)) (String (chr (cont r 0)) EmptyString))).

(** The runes of [s] as [for _, c := range s] yields them, each with the
    bytes it was decoded from.  [skip] counts the bytes of the current
    encoding that are still to be passed over. *)
Fixpoint chunks_from (skip : nat) (s : string) : list (Z * string) :=
  match s with
  | EmptyString => []
  | String a r =>
    match skip with
    | S k => chunks_from k r
    | O =>
      let '(c, w) := DecodeRuneInString s in
      (c, substring 0 w s) :: chunks_from (w - 1) r
    end
  end.

Definition chunks (s : string) : list (Z * string) := chunks_from 0 s.
Definition runes (s : string) : list Z := map fst (chunks s).

End utf8.

Module unicode.

Section CaseTable.

(** [unicode.To(unicode.LowerCase, r)] above ASCII is a lookup in the
    table [unicode.CaseRanges] of the Go distribution; the table is taken as
    a parameter. *)
Variable LowerCase : Z -> Z.

(** [unicode.ToLower]. *)
Definition ToLower (r : Z) : Z :=
  if r <=? 0x7F then
    if (0x41 <=? r) && (r <=? 0x5A) then r + 0x20 else r
  else LowerCase r.

End CaseTable.

End unicode.

Module strings.

Definition concat (l : list string) : string := fold_right String.append "" l.

(** [strings.Map]: every rune of [s] (an invalid byte counts as
    [RuneError]) is replaced by the encoding of its image; a negative image
    drops the rune. *)
Definition Map (mapping : Z -> Z) (s : string) : string :=
  concat (map (fun c => let r := mapping c in
                        if 0 <=? r then utf8.EncodeRune r else "")
              (utf8.runes s)).

Definition isASCII (s : string) : bool := all_bytes (fun c => c <? utf8.RuneSelf) s.

Definition lowerByte (c : Z) : Z :=
  if (0x41 <=? c) && (c <=? 0x5A) then c + 0x20 else c.

Section CaseTable.

Variable LowerCase : Z -> Z.

(** [strings.ToLower]: bytewise on an ASCII-only string, [Map] of
    [unicode.ToLower] otherwise. *)
Definition ToLower (s : string) : string :=
  if isASCII s then map_bytes lowerByte s
  else Map (unicode.ToLower LowerCase) s.

End CaseTable.

(** Leftmost non-overlapping replacement of a non-empty [old]. *)
Fixpoint replace_from (old new : string) (skip : nat) (s : string) : string :=
  match s with
  | EmptyString => EmptyString
  | String a r =>
    match skip with
    | S k => replace_from old new k r
    | O =>
      if String.prefix old s
      then new ++ replace_from old new (String.length old - 1) r
      else String a (replace_from old new 0 r)
    end
  end.

(** [strings.ReplaceAll].  An empty [old] matches before every rune and at
    the end of the string. *)
Definition ReplaceAll (s old new : string) : string :=
  match old with
  | EmptyString =>
    new ++ concat (map (fun cb => snd cb ++ new) (utf8.chunks s))
  | _ => replace_from old new 0 s
  end.

End strings.

Section Normalize.

Variable LowerCase : Z -> Z.

(** Lines 48-50 of [ProcessCSVOptimized]: the name a header field gets as a
    column. *)
Definition cleanHeader (header : string) : string :=
  let cleanHeader := strings.ReplaceAll header " " "_" in
  let cleanHeader := strings.ReplaceAll cleanHeader "-" "_" in
  strings.ToLower LowerCase cleanHeader.

(** The loop of lines 47-53, from index [i] on: [cleanHeaders] is written
    by index, [columns] grows by [append]. *)
Fixpoint header_loop (i : nat) (headers cleanHeaders columns : list string)
  : list string * list string :=
  match headers with
  | [] => (cleanHeaders, columns)
  | header :: rest =>
    let c := cleanHeader header in
    header_loop (S i) rest (<[i := c]> cleanHeaders) (columns ++ [c ++ " TEXT"])
  end.

(** Lines 45-53: [cleanHeaders] and [columns] for a header row. *)
Definition derive (headers : list string) : list string * list string :=
  header_loop 0 headers (replicate (length headers) "") [].

End Normalize.

(** A fragment of the real case table, for concrete runs: the Latin-1
    capitals U+00C0..U+00DE (without the multiplication sign U+00D7) map to
    the letter 32 places further; nothing else moves. *)
Definition latin1_lower (r : Z) : Z :=
  if (0xC0 <=? r) && (r <=? 0xDE) && negb (r =? 0xD7) then r + 0x20 else r.

(** ** The world around the loader

    Everything the four functions touch outside their own variables: the
    destination behind the [*sql.DB] handle, the file system and the CSV
    reader, the clock and standard output. *)

(** *** Statements

    The loader sends three kinds of statement with [db.Exec]; each is kept
    with its operands, and [sql_text] is the text the code builds for it with
    [fmt.Sprintf] (lines 39 and 55) or has as a literal (lines 144-152).  The
    destination is taken to read a text as the statement it was built
    from. *)
Inductive stmt :=
| DropTableIfExists (tableName : string)
| CreateUnloggedTable (tableName : string) (columns : list string)
| Setting (sql : string).

Definition sql_text (s : stmt) : string :=
  match s with
  | DropTableIfExists tableName => "DROP TABLE IF EXISTS " ++ tableName
  | CreateUnloggedTable tableName columns =>
    "CREATE UNLOGGED TABLE " ++ tableName ++ " (" ++ Join columns ", " ++ ")"
  | Setting sql => sql
  end.

(** Calls on the destination.  [Prepare] is
    [tx.Prepare(pq.CopyIn(tableName, headers...))], [CopyRow] is
    [stmt.Exec(values...)] with the fields of a record, [CopyEnd] is
    [stmt.Exec()] without operands, which ends the COPY, [StmtClose] is
    [stmt.Close()]. *)
Inductive call :=
| Exec (s : stmt)
| Begin
| Prepare (tableName : string) (columns : list string)
| CopyRow (values : list string)
| CopyEnd
| StmtClose
| Commit
| Rollback.

(** What [reader.Read] returns: a record, which [encoding/csv] never
    returns without a field, or an error, of which the code looks at the
    message only ([err.Error()] and [%v]). *)
Inductive read_result :=
| Rec (field : string) (fields : list string)
| Fail (msg : string).

Definition values_of (field : string) (fields : list string) : list string :=
  field :: fields.

(** [io.EOF.Error()]. *)
Definition EOF : string := "EOF".

(** [sql.ErrTxDone.Error()]. *)
Definition ErrTxDone : string :=
  "sql: transaction has already been committed or rolled back".

(** What is logged: every call on the file, the reader and the destination,
    with what it returned. *)
Inductive event :=
| EvOpen (path : string) (err : option string)
| EvRead (res : read_result)
| EvCall (c : call) (err : option string)
| EvClose.

(** *** Floating point and time

    [float64] values are kept as the expressions that compute them. *)
Inductive float64 :=
| FromInt (n : Z)
| Seconds (d : Z)
| Div (x y : float64).

Definition maxDuration : Z := 2 ^ 63 - 1.
Definition minDuration : Z := - 2 ^ 63.

(** [now.Sub(start)]: the difference in nanoseconds, saturated. *)
Definition Sub (now start : Z) : Z :=
  Z.max minDuration (Z.min maxDuration (now - start)).

(** *** Standard output, one constructor per [Printf]/[Println] of the
    source with its operands. *)
Inductive line :=
| OutCSV (base : string)
| OutColumns (headers : list string)
| OutOptimized
| OutCreating (tableName : string)
| OutStarting
| OutProgress (lineCount : Z) (linesPerSec : float64)
| OutSummary (lineCount : Z) (seconds : float64) (linesPerSec : float64).

(** *** The destination *)
Record relation := {
  rel_columns : list string;
  rel_rows : list (list string);
}.

(** An open transaction: the COPY target once prepared, and the rows
    submitted so far, which nobody else sees before the commit. *)
Record txn := {
  tx_copy : option (string * list string);
  tx_rows : list (list string);
}.

(** The state: the relations as committed, the open transaction if any,
    what the reader still holds, how many destination calls and clock
    readings were made, the log and standard output. *)
Record world := {
  relations : gmap string relation;
  session : option txn;
  reader : list read_result;
  calls : nat;
  ticks : nat;
  log : list event;
  stdout : list line;
}.

(** What the loader cannot decide: which destination calls fail and with
    which message (by position among all calls), what a path opens to, and
    what the clock shows at each reading. *)
Record env := {
  fault : nat -> option string;
  files : string -> string + list read_result;
  clock : nat -> Z;
}.

Definition with_dest (rels : gmap string relation) (s : option txn) (w : world) : world :=
  {| relations := rels; session := s; reader := reader w; calls := calls w;
     ticks := ticks w; log := log w; stdout := stdout w |}.

Definition with_reader (rd : list read_result) (w : world) : world :=
  {| relations := relations w; session := session w; reader := rd; calls := calls w;
     ticks := ticks w; log := log w; stdout := stdout w |}.

Definition logged (ev : event) (w : world) : world :=
  {| relations := relations w; session := session w; reader := reader w;
     calls := calls w; ticks := ticks w; log := log w ++ [ev]; stdout := stdout w |}.

Definition counted (w : world) : world :=
  {| relations := relations w; session := session w; reader := reader w;
     calls := S (calls w); ticks := ticks w; log := log w; stdout := stdout w |}.

Definition ticked (w : world) : world :=
  {| relations := relations w; session := session w; reader := reader w;
     calls := calls w; ticks := S (ticks w); log := log w; stdout := stdout w |}.

Definition Println (l : line) (w : world) : world :=
  {| relations := relations w; session := session w; reader := reader w;
     calls := calls w; ticks := ticks w; log := log w; stdout := stdout w ++ [l] |}.

(** The rows of a committed transaction reach the relation it copied
    into. *)
Definition add_rows (rows : list (list string)) (r : relation) : relation :=
  {| rel_columns := rel_columns r; rel_rows := rel_rows r ++ rows |}.

Definition committed (t : txn) (rels : gmap string relation) : gmap string relation :=
  match tx_copy t with
  | Some (tableName, _) => alter (add_rows (tx_rows t)) tableName rels
  | None => rels
  end.

(** The effect of an accepted call. *)
Definition accept (c : call) (w : world) : world :=
  match c with
  | Exec (DropTableIfExists tableName) =>
    with_dest (delete tableName (relations w)) (session w) w
  | Exec (CreateUnloggedTable tableName columns) =>
    with_dest (<[tableName := {| rel_columns := columns; rel_rows := [] |}]> (relations w))
              (session w) w
  | Exec (Setting _) => w
  | Begin => with_dest (relations w) (Some {| tx_copy := None; tx_rows := [] |}) w
  | Prepare tableName columns =>
    with_dest (relations w)
      ((fun t => {| tx_copy := Some (tableName, columns); tx_rows := tx_rows t |}) <$> session w) w
  | CopyRow values =>
    with_dest (relations w)
      ((fun t => {| tx_copy := tx_copy t; tx_rows := tx_rows t ++ [values] |}) <$> session w) w
  | CopyEnd => w
  | StmtClose => w
  | Commit =>
    match session w with
    | Some t => with_dest (committed t (relations w)) None w
    | None => w
    end
  | Rollback => with_dest (relations w) None w
  end.

(** The effect of a rejected call: nothing reaches the relations; a
    transaction is over after [Commit] or [Rollback] whatever they return. *)
Definition reject (c : call) (w : world) : world :=
  match c with
  | Commit | Rollback => with_dest (relations w) None w
  | _ => w
  end.

(** The error a call returns: [Rollback] on a finished transaction is
    [sql.ErrTxDone]; anything else is as the environment has it. *)
Definition outcome (e : env) (c : call) (w : world) : option string :=
  match c, session w with
  | Rollback, None => Some ErrTxDone
  | _, _ => fault e (calls w)
  end.

Definition db_call (e : env) (c : call) (w : world) : world * option string :=
  let err := outcome e c w in
  let w' := match err with None => accept c w | Some _ => reject c w end in
  (logged (EvCall c err) (counted w'), err).

(** [time.Now()]. *)
Definition Now (e : env) (w : world) : world * Z :=
  (ticked w, clock e (ticks w)).

(** [time.Since(start)]. *)
Definition Since (e : env) (start : Z) (w : world) : world * Z :=
  let '(w, now) := Now e w in (w, Sub now start).

(** [reader.Read()]: the next result, [io.EOF] once the stream is
    exhausted. *)
Definition Read (w : world) : world * read_result :=
  match reader w with
  | [] => (logged (EvRead (Fail EOF)) w, Fail EOF)
  | res :: rest => (logged (EvRead res) (with_reader rest w), res)
  end.

(** [os.Open(csvPath)] followed by [csv.NewReader(file)]. *)
Definition Open (e : env) (csvPath : string) (w : world) : world * option string :=
  match files e csvPath with
  | inl msg => (logged (EvOpen csvPath (Some msg)) w, Some msg)
  | inr rd => (logged (EvOpen csvPath None) (with_reader rd w), None)
  end.

(** [file.Close()]. *)
Definition Close (w : world) : world := logged EvClose w.

Module filepath.

Definition isSlash (a : ascii) : bool := Ascii.eqb a "/"%char.

Fixpoint drop_slashes (l : list ascii) : list ascii :=
  match l with
  | a :: r => if isSlash a then drop_slashes r else l
  | [] => []
  end.

Fixpoint until_slash (l : list ascii) : list ascii :=
  match l with
  | a :: r => if isSlash a then [] else a :: until_slash r
  | [] => []
  end.

(** [filepath.Base] with [/] as the separator: the last element of the
    path, trailing slashes removed first. *)
Definition Base (path : string) : string :=
  if String.eqb path "" then "."
  else
    let last := rev (until_slash (drop_slashes (rev (list_ascii_of_string path)))) in
    match last with
    | [] => "/"
    | _ => string_of_list_ascii last
    end.

End filepath.

(** ** The loader *)

Section Loader.

Variable LowerCase : Z -> Z.
Variable e : env.

(** [optimizeForBulkInsert], lines 142-163. *)
Definition optimizations : list string :=
  [ "SET synchronous_commit = OFF";
    "SET wal_buffers = '128MB'";
    "SET checkpoint_segments = 64";
    "SET checkpoint_completion_target = 0.9";
    "SET maintenance_work_mem = '1GB'";
    "SET work_mem = '512MB'";
    "SET shared_buffers = '512MB'";
    "SET effective_cache_size = '2GB'";
    "SET fsync = OFF" ].

Fixpoint optimize_loop (sqls : list string) (w : world) : world :=
  match sqls with
  | [] => w
  | sql :: rest =>
    let '(w, err) := db_call e (Exec (Setting sql)) w in
    match err with
    | Some _ => optimize_loop rest w
    | None => optimize_loop rest w
    end
  end.

Definition optimizeForBulkInsert (w : world) : world * option string :=
  let w := optimize_loop optimizations w in
  let w := Println OutOptimized w in
  (w, None).

(** The [for] loop of [copyInsert], lines 96-123.  It runs until a read
    fails, so the recursion is on [rd], what the reader still holds:
    [copy_body] starts it with [reader w], and every turn consumes one
    result with [Read].  [inl lineCount] is the [break], [inr err] the
    [return 0, err]. *)
Fixpoint copy_loop (startTime : Z) (rd : list read_result) (lineCount : Z) (w : world)
  : world * (Z + string) :=
  match rd with
  | [] =>
    let '(w, _) := Read w in
    (w, inl lineCount)
  | res :: rd' =>
    let '(w, _) := Read w in
    match res with
    | Fail err =>
      if String.eqb err "EOF" then (w, inl lineCount)
      else (w, inr ("error reading line " ++ itoa (wrap64 (lineCount + 1)) ++ ": " ++ err))
    | Rec field fields =>
      let values := values_of field fields in
      let '(w, err) := db_call e (CopyRow values) w in
      match err with
      | Some err =>
        (w, inr ("error copying line " ++ itoa (wrap64 (lineCount + 1)) ++ ": " ++ err))
      | None =>
        let lineCount := wrap64 (lineCount + 1) in
        let w :=
          if Z.rem lineCount 100000 =? 0 then
            let '(w, elapsed) := Since e startTime w in
            let linesPerSec := Div (FromInt lineCount) (Seconds elapsed) in
            Println (OutProgress lineCount linesPerSec) w
          else w in
        copy_loop startTime rd' lineCount w
      end
    end
  end.

(** Lines 125-139 of [copyInsert]: the COPY is ended, the statement closed
    and the transaction committed. *)
Definition copy_finish (lineCount : Z) (w : world) : world * (Z * option string) :=
  let '(w, err) := db_call e CopyEnd w in
  match err with
  | Some err => (w, (0, Some ("error finalizing COPY: " ++ err)))
  | None =>
    let '(w, err) := db_call e StmtClose w in
    match err with
    | Some err => (w, (0, Some ("error closing COPY: " ++ err)))
    | None =>
      let '(w, err) := db_call e Commit w in
      match err with
      | Some err => (w, (0, Some ("error committing transaction: " ++ err)))
      | None => (w, (lineCount, None))
      end
    end
  end.

(** Lines 84-139 of [copyInsert]: what runs between [db.Begin] and the
    deferred [tx.Rollback]. *)
Definition copy_body (tableName : string) (headers : list string) (w : world)
  : world * (Z * option string) :=
  let '(w, err) := db_call e (Prepare tableName headers) w in
  match err with
  | Some err => (w, (0, Some ("error preparing COPY: " ++ err)))
  | None =>
    let lineCount := 0 in
    let '(w, startTime) := Now e w in
    let w := Println OutStarting w in
    let '(w, r) := copy_loop startTime (reader w) lineCount w in
    match r with
    | inr err => (w, (0, Some err))
    | inl lineCount => copy_finish lineCount w
    end
  end.

(** [copyInsert], lines 76-140. *)
Definition copyInsert (tableName : string) (headers : list string) (w : world)
  : world * (Z * option string) :=
  let '(w, err) := db_call e Begin w in
  match err with
  | Some err => (w, (0, Some ("error starting transaction: " ++ err)))
  | None =>
    let '(w, r) := copy_body tableName headers w in
    let '(w, _) := db_call e Rollback w in
    (w, r)
  end.

(** Lines 27-73 of [ProcessCSVOptimized]: what runs between [os.Open] and
    the deferred [file.Close]. *)
Definition process_body (csvPath tableName : string) (start : Z) (w : world)
  : world * option string :=
  let '(w, res) := Read w in
  match res with
  | Fail err => (w, Some ("error reading header: " ++ err))
  | Rec field fields =>
    let headers := values_of field fields in
    let w := Println (OutCSV (filepath.Base csvPath)) w in
    let w := Println (OutColumns headers) w in
    let '(w, _) := optimizeForBulkInsert w in
    let dropSQL := DropTableIfExists tableName in
    let '(w, err) := db_call e (Exec dropSQL) w in
    match err with
    | Some err => (w, Some ("error dropping table: " ++ err))
    | None =>
      let '(cleanHeaders, columns) := derive LowerCase headers in
      let createSQL := CreateUnloggedTable tableName columns in
      let w := Println (OutCreating tableName) w in
      let '(w, err) := db_call e (Exec createSQL) w in
      match err with
      | Some err => (w, Some ("error creating table: " ++ err))
      | None =>
        let '(w, (lineCount, err)) := copyInsert tableName cleanHeaders w in
        match err with
        | Some err => (w, Some err)
        | None =>
          let '(w, elapsed) := Since e start w in
          let linesPerSec := Div (FromInt lineCount) (Seconds elapsed) in
          let w := Println (OutSummary lineCount (Seconds elapsed) linesPerSec) w in
          (w, None)
        end
      end
    end
  end.

(** [ProcessCSVOptimized], lines 15-74. *)
Definition ProcessCSVOptimized (csvPath tableName : string) (w : world)
  : world * option string :=
  let '(w, start) := Now e w in
  let '(w, err) := Open e csvPath w in
  match err with
  | Some err => (w, Some ("impossible to open " ++ csvPath ++ ": " ++ err))
  | None =>
    let '(w, r) := process_body csvPath tableName start w in
    (Close w, r)
  end.

(** [ProcessCSV], lines 165-168. *)
Definition ProcessCSV (csvPath tableName : string) (w : world) : world * option string :=
  ProcessCSVOptimized csvPath tableName w.

End Loader.

(** ** Concrete runs *)

Definition world0 : world :=
  {| relations := ∅; session := None; reader := []; calls := 0; ticks := 0;
     log := []; stdout := [] |}.

Definition people_csv : list read_result :=
  [ Rec "name" ["age"]; Rec "Ada" ["36"]; Rec "Alan" ["41"] ].

Definition empty_csv : list read_result := [ Rec "name" ["age"] ].

Definition disk (p : string) : string + list read_result :=
  if String.eqb p "people.csv" then inr people_csv
  else if String.eqb p "empty.csv" then inr empty_csv
  else inl ("open " ++ p ++ ": no such file or directory").

(** A destination that accepts everything, one that rejects the call
    numbered [k], and one that rejects every tuning statement of a load that
    starts with no call made. *)
Definition env_ok : env :=
  {| fault := fun _ => None; files := disk;
     clock := fun n => 1000000000 * Z.of_nat n |}.

Definition env_reject (k : nat) (msg : string) : env :=
  {| fault := fun n => if Nat.eqb n k then Some msg else None; files := disk;
     clock := fun n => 1000000000 * Z.of_nat n |}.

Definition env_untuned : env :=
  {| fault := fun n => if Nat.ltb n 9 then Some "pq: permission denied" else None;
     files := disk; clock := fun n => 1000000000 * Z.of_nat n |}.

(** A destination that accepts everything, with a clock that stands
    still. *)
Definition env_frozen : env :=
  {| fault := fun _ => None; files := disk; clock := fun _ => 42 |}.

(** A world whose reader holds [rd], with the relation [people] in
    place. *)
Definition reading (rd : list read_result) : world :=
  {| relations := {[ "people" := {| rel_columns := ["name TEXT"; "age TEXT"]; rel_rows := [] |} ]};
     session := None; reader := rd; calls := 0; ticks := 0; log := []; stdout := [] |}.

(** A world in which an earlier load left a relation [people] of another
    shape, and one of another name. *)
Definition stale : world :=
  {| relations := {[ "people" := {| rel_columns := ["id TEXT"]; rel_rows := [["7"]; ["8"]] |};
                     "towns" := {| rel_columns := ["town TEXT"]; rel_rows := [["Liège"]] |} ]};
     session := None; reader := []; calls := 0; ticks := 0; log := []; stdout := [] |}.

Definition ada : string * list string := ("Ada", ["36"]).
Definition alan : string * list string := ("Alan", ["41"]).

(** ** Definitions used to state the properties *)

(** What the proofs use of the case table: above ASCII, the lower-case
    image of a scalar value is a scalar value that [unicode.ToLower] leaves
    alone, and it is neither a space nor a hyphen. *)
Definition CaseTableOK (LowerCase : Z -> Z) : Prop :=
  forall r, 0x7F < r -> utf8.ValidRune r = true ->
    utf8.ValidRune (LowerCase r) = true /\
    unicode.ToLower LowerCase (LowerCase r) = LowerCase r /\
    LowerCase r <> 0x20 /\ LowerCase r <> 0x2D.

(** A space or a hyphen becomes an underscore, any other byte stays. *)
Definition underscore (c : Z) : Z :=
  if (c =? 0x20) || (c =? 0x2D) then 0x5F else c.

Definition underscored (s : string) : string := map_bytes underscore s.

(** The encodings of a sequence of runes, one after the other. *)
Definition encs (rs : list Z) : string := strings.concat (map utf8.EncodeRune rs).

Definition plain (c : Z) : bool := negb (c =? 0x20) && negb (c =? 0x2D).

(** Lower-casing as the specification means it, written without the
    lower-casing functions of the code: a capital A to Z becomes its small
    letter, any other ASCII character stays, a character above ASCII becomes
    what the case table gives; a string is lower-cased character by
    character. *)
Definition lower (LowerCase : Z -> Z) (r : Z) : Z :=
  if (0x41 <=? r) && (r <=? 0x5A) then r + 0x20
  else if r <=? 0x7F then r
  else LowerCase r.

Definition lowered (LowerCase : Z -> Z) (s : string) : string :=
  encs (map (lower LowerCase) (utf8.runes s)).

(** The records of a source as [Read] returns them, and as rows. *)
Definition recs (pre : list (string * list string)) : list read_result :=
  map (fun r => Rec (fst r) (snd r)) pre.

Definition rows_of (pre : list (string * list string)) : list (list string) :=
  map (fun r => values_of (fst r) (snd r)) pre.

(** What the loop logs for records that were read and accepted. *)
Definition copied (pre : list (string * list string)) : list event :=
  flat_map (fun r => [EvRead (Rec (fst r) (snd r));
                      EvCall (CopyRow (values_of (fst r) (snd r))) None]) pre.

(** Rows added to the open transaction. *)
Definition push_rows (rows : list (list string)) (s : option txn) : option txn :=
  (fun t => {| tx_copy := tx_copy t; tx_rows := tx_rows t ++ rows |}) <$> s.

(** [lineCount] after [k] increments. *)
Definition bump (k : nat) (n : Z) : Z := Nat.iter k (fun z => wrap64 (z + 1)) n.

(** The stream ends here: it is exhausted, or the next read fails with
    the message of [io.EOF]. *)
Definition at_eof (rest : list read_result) : Prop :=
  rest = [] \/ exists rest', rest = Fail "EOF" :: rest'.

(** A failure in the log: a rejected call other than the deferred
    [Rollback], whose result the code drops, or a read error that is not the
    end of the stream. *)
Definition failed (ev : event) : Prop :=
  match ev with
  | EvCall Rollback _ => False
  | EvCall _ (Some _) => True
  | EvRead (Fail msg) => msg <> "EOF"
  | EvOpen _ (Some _) => True
  | _ => False
  end.

(** The calls of the copy phase. *)
Definition copy_call (c : call) : Prop :=
  match c with
  | Exec _ | Begin => False
  | _ => True
  end.

Definition calls_of (evs : list event) : list call :=
  flat_map (fun ev => match ev with EvCall c _ => [c] | _ => [] end) evs.

Definition tuning : list call := map (fun sql => Exec (Setting sql)) optimizations.

(** How the copy loop, started with [lineCount = n] in [w], can end once
    the records [pre] have been read and accepted and [rest] is what the
    reader still held: at the end of the stream, on a read error, or on a
    rejected row. *)
Inductive loop_end (e : env) (n : Z) (w : world) (pre : list (string * list string))
  : list read_result -> world -> Z + string -> Prop :=
| end_eof rest w' :
    at_eof rest ->
    reader w' = tl rest ->
    calls w' = (calls w + length pre)%nat ->
    log w' = (log w ++ copied pre ++ [EvRead (Fail "EOF")])%list ->
    session w' = push_rows (rows_of pre) (session w) ->
    loop_end e n w pre rest w' (inl (bump (length pre) n))
| end_read msg rest' w' :
    msg <> "EOF" ->
    reader w' = rest' ->
    calls w' = (calls w + length pre)%nat ->
    log w' = (log w ++ copied pre ++ [EvRead (Fail msg)])%list ->
    session w' = push_rows (rows_of pre) (session w) ->
    loop_end e n w pre (Fail msg :: rest') w'
      (inr ("error reading line " ++ itoa (wrap64 (bump (length pre) n + 1)) ++ ": " ++ msg))
| end_copy field fields msg rest' w' :
    fault e (calls w + length pre) = Some msg ->
    reader w' = rest' ->
    calls w' = S (calls w + length pre) ->
    log w' = (log w ++ copied pre ++
              [EvRead (Rec field fields);
               EvCall (CopyRow (values_of field fields)) (Some msg)])%list ->
    session w' = push_rows (rows_of pre) (session w) ->
    loop_end e n w pre (Rec field fields :: rest') w'
      (inr ("error copying line " ++ itoa (wrap64 (bump (length pre) n + 1)) ++ ": " ++ msg)).

Definition copy_event (ev : event) : Prop :=
  match ev with
  | EvCall c _ => copy_call c
  | EvRead _ => True
  | _ => False
  end.

(** The three ways [copyInsert tableName headers] can run from [w]:
    [db.Begin] is rejected; the transaction begins and is abandoned at the
    first failure [bad]; or everything is accepted up to the commit. *)
Inductive copy_run (e : env) (tableName : string) (headers : list string) (w : world)
  : world -> Z -> option string -> Prop :=
| run_no_begin msg w' :
    fault e (calls w) = Some msg ->
    log w' = (log w ++ [EvCall Begin (Some msg)])%list ->
    relations w' = relations w ->
    session w' = session w ->
    reader w' = reader w ->
    copy_run e tableName headers w w' 0 (Some ("error starting transaction: " ++ msg))
| run_aborted evs bad rb msg w' :
    fault e (calls w) = None ->
    log w' = (log w ++ EvCall Begin None :: evs ++ [bad; EvCall Rollback rb])%list ->
    Forall (fun ev => ~ failed ev) evs ->
    failed bad ->
    Forall copy_event (evs ++ [bad]) ->
    relations w' = relations w ->
    session w' = None ->
    copy_run e tableName headers w w' 0 (Some msg)
| run_committed pre rest w' :
    reader w = (recs pre ++ rest)%list ->
    at_eof rest ->
    reader w' = tl rest ->
    (forall i, (i < length pre + 5)%nat -> fault e (calls w + i) = None) ->
    log w' = (log w ++ [EvCall Begin None; EvCall (Prepare tableName headers) None]
                    ++ copied pre
                    ++ [EvRead (Fail "EOF"); EvCall CopyEnd None; EvCall StmtClose None;
                        EvCall Commit None; EvCall Rollback (Some ErrTxDone)])%list ->
    relations w' = alter (add_rows (rows_of pre)) tableName (relations w) ->
    session w' = None ->
    copy_run e tableName headers w w' (bump (length pre) 0) None.

(** What the tuning step logs when it starts at call number [c]: the nine
    statements in order, each with whatever the destination answered. *)
Definition tuning_events (e : env) (c : nat) : list event :=
  imap (fun i sql => EvCall (Exec (Setting sql)) (fault e (c + i))) optimizations.

(** The relation [CREATE UNLOGGED TABLE] leaves behind. *)
Definition fresh (columns : list string) : relation :=
  {| rel_columns := columns; rel_rows := [] |}.

(** A world without its log. *)
Definition erase (w : world) : world :=
  {| relations := relations w; session := session w; reader := reader w;
     calls := calls w; ticks := ticks w; log := []; stdout := stdout w |}.

(** Two environments that, for a load starting with [c] calls made, differ
    at most in what the destination answers to the nine calls numbered [c]
    to [c + 8], the tuning statements. *)
Definition same_but_tuning (c : nat) (e e' : env) : Prop :=
  (forall n, (c + 9 <= n)%nat -> fault e n = fault e' n) /\
  (forall p, files e p = files e' p) /\
  (forall n, clock e n = clock e' n).

(** What a load logs up to and including the tuning step, with the header
    [field :: fields] and [c] calls made before. *)
Definition header_events (e : env) (csvPath : string) (field : string)
    (fields : list string) (c : nat) : list event :=
  ([EvOpen csvPath None; EvRead (Rec field fields)] ++ tuning_events e c)%list.

(** Every way [ProcessCSVOptimized csvPath tableName] can run from [w]. *)
Inductive load_run (LowerCase : Z -> Z) (e : env) (csvPath tableName : string) (w : world)
  : world -> option string -> Prop :=
| load_no_file msg w' :
    files e csvPath = inl msg ->
    log w' = (log w ++ [EvOpen csvPath (Some msg)])%list ->
    relations w' = relations w ->
    load_run LowerCase e csvPath tableName w w'
      (Some ("impossible to open " ++ csvPath ++ ": " ++ msg))
| load_no_header src msg w' :
    files e csvPath = inr src ->
    (src = [] /\ msg = EOF) \/ (exists rest, src = Fail msg :: rest) ->
    log w' = (log w ++ [EvOpen csvPath None; EvRead (Fail msg); EvClose])%list ->
    relations w' = relations w ->
    load_run LowerCase e csvPath tableName w w' (Some ("error reading header: " ++ msg))
| load_drop_rejected field fields rest msg w' :
    files e csvPath = inr (Rec field fields :: rest) ->
    fault e (calls w + 9) = Some msg ->
    log w' = (log w ++ header_events e csvPath field fields (calls w)
                    ++ [EvCall (Exec (DropTableIfExists tableName)) (Some msg);
                        EvClose])%list ->
    relations w' = relations w ->
    load_run LowerCase e csvPath tableName w w' (Some ("error dropping table: " ++ msg))
| load_create_rejected field fields rest msg w' :
    files e csvPath = inr (Rec field fields :: rest) ->
    fault e (calls w + 9) = None ->
    fault e (calls w + 10) = Some msg ->
    log w' = (log w ++ header_events e csvPath field fields (calls w)
                    ++ [EvCall (Exec (DropTableIfExists tableName)) None;
                        EvCall (Exec (CreateUnloggedTable tableName
                                        (snd (derive LowerCase (values_of field fields)))))
                               (Some msg);
                        EvClose])%list ->
    relations w' = delete tableName (relations w) ->
    load_run LowerCase e csvPath tableName w w' (Some ("error creating table: " ++ msg))
| load_copied field fields rest wc wr n err w' :
    files e csvPath = inr (Rec field fields :: rest) ->
    fault e (calls w + 9) = None ->
    fault e (calls w + 10) = None ->
    reader wc = rest ->
    calls wc = (calls w + 11)%nat ->
    session wc = session w ->
    relations wc = <[tableName := fresh (snd (derive LowerCase (values_of field fields)))]>
                     (delete tableName (relations w)) ->
    log wc = (log w ++ header_events e csvPath field fields (calls w)
                    ++ [EvCall (Exec (DropTableIfExists tableName)) None;
                        EvCall (Exec (CreateUnloggedTable tableName
                                        (snd (derive LowerCase (values_of field fields)))))
                               None])%list ->
    copyInsert e tableName (fst (derive LowerCase (values_of field fields))) wc
      = (wr, (n, err)) ->
    log w' = (log wr ++ [EvClose])%list ->
    relations w' = relations wr ->
    session w' = session wr ->
    match err with
    | Some _ => True
    | None =>
      exists out,
        stdout w' =
          (out ++ [OutSummary n
                     (Seconds (Sub (clock e (ticks w' - 1)) (clock e (ticks w))))
                     (Div (FromInt n)
                          (Seconds (Sub (clock e (ticks w' - 1)) (clock e (ticks w)))))])%list
    end ->
    load_run LowerCase e csvPath tableName w w' err.

(** Counting events: rows submitted with [stmt.Exec(values...)], and
    records returned by the reader. *)
Fixpoint count_if (p : event -> bool) (evs : list event) : nat :=
  match evs with
  | [] => 0
  | ev :: evs => ((if p ev then 1 else 0) + count_if p evs)%nat
  end.

Definition is_row (ev : event) : bool :=
  match ev with EvCall (CopyRow _) _ => true | _ => false end.

Definition is_record (ev : event) : bool :=
  match ev with EvRead (Rec _ _) => true | _ => false end.

Definition is_copy_end (ev : event) : bool :=
  match ev with EvCall CopyEnd _ => true | _ => false end.

Definition is_open (ev : event) : bool :=
  match ev with EvOpen _ _ => true | _ => false end.

Definition is_close (ev : event) : bool :=
  match ev with EvClose => true | _ => false end.

Definition is_summary (l : line) : bool :=
  match l with OutSummary _ _ _ => true | _ => false end.

(** The record numbers above [n], up to [n + k], that are multiples of
    100000, in increasing order. *)
Definition multiples (n : Z) (k : nat) : list Z :=
  List.filter (fun c => c mod 100000 =? 0) (map (fun i => n + 1 + Z.of_nat i) (seq 0 k)).

(** One progress line for each of the record numbers [cs], for a loop
    started at [startTime] that reads the clock for the [t]-th time at the
    first of them. *)
Definition progress_lines (e : env) (startTime : Z) (t : nat) (cs : list Z) : list line :=
  imap (fun j c => OutProgress c (Div (FromInt c) (Seconds (Sub (clock e (t + j)) startTime))))
       cs.

(** A line of standard output without its timings, and a world without
    them. *)
Definition untimed (l : line) : line :=
  match l with
  | OutProgress lineCount _ => OutProgress lineCount (FromInt 0)
  | OutSummary lineCount _ _ => OutSummary lineCount (FromInt 0) (FromInt 0)
  | _ => l
  end.

Definition timeless (w : world) : world :=
  {| relations := relations w; session := session w; reader := reader w;
     calls := calls w; ticks := ticks w; log := log w;
     stdout := map untimed (stdout w) |}.

(** Two environments that differ at most in what the clock shows. *)
Definition same_but_clock (e e' : env) : Prop :=
  (forall n, fault e n = fault e' n) /\ (forall p, files e p = files e' p).

(** The calls that end the copy, in order, each with the words its error
    is wrapped in (lines 126-137). *)
Definition finishing : list (call * string) :=
  [ (CopyEnd, "error finalizing COPY: ");
    (StmtClose, "error closing COPY: ");
    (Commit, "error committing transaction: ") ].

(** The error the loader returns for a failure in the log: the words for
    the operation, then the message of the failure. *)
Inductive reported (csvPath : string) : event -> string -> Prop :=
| rep_open m :
    reported csvPath (EvOpen csvPath (Some m)) ("impossible to open " ++ csvPath ++ ": " ++ m)
| rep_header m :
    reported csvPath (EvRead (Fail m)) ("error reading header: " ++ m)
| rep_drop tableName m :
    reported csvPath (EvCall (Exec (DropTableIfExists tableName)) (Some m))
             ("error dropping table: " ++ m)
| rep_create tableName columns m :
    reported csvPath (EvCall (Exec (CreateUnloggedTable tableName columns)) (Some m))
             ("error creating table: " ++ m)
| rep_begin m :
    reported csvPath (EvCall Begin (Some m)) ("error starting transaction: " ++ m)
| rep_prepare tableName columns m :
    reported csvPath (EvCall (Prepare tableName columns) (Some m))
             ("error preparing COPY: " ++ m)
| rep_read k m :
    m <> "EOF" ->
    reported csvPath (EvRead (Fail m)) ("error reading line " ++ itoa k ++ ": " ++ m)
| rep_copy k values m :
    reported csvPath (EvCall (CopyRow values) (Some m))
             ("error copying line " ++ itoa k ++ ": " ++ m)
| rep_end m :
    reported csvPath (EvCall CopyEnd (Some m)) ("error finalizing COPY: " ++ m)
| rep_close m :
    reported csvPath (EvCall StmtClose (Some m)) ("error closing COPY: " ++ m)
| rep_commit m :
    reported csvPath (EvCall Commit (Some m)) ("error committing transaction: " ++ m).

(** What the deferred calls log: [tx.Rollback] and [file.Close]. *)
Definition cleanup (ev : event) : Prop :=
  match ev with
  | EvClose | EvCall Rollback _ => True
  | _ => False
  end.

(** The bytes of the capitals A to Z, and the bytes a normalised name is
    made of. *)
Definition upper (c : Z) : bool := (0x41 <=? c) && (c <=? 0x5A).

Definition column_byte (c : Z) : bool := plain c && negb (upper c).

(** ** Bytes and bit arithmetic *)

Lemma byte_of_range a : 0 <= byte_of a < 256.
Proof.
  unfold byte_of. pose proof (N_ascii_bounded a). lia.
Qed.

Lemma chr_byte_of a : chr (byte_of a) = a.
Proof.
  unfold chr, byte_of. pose proof (N_ascii_bounded a).
  rewrite Z.mod_small by lia. rewrite N2Z.id. apply ascii_N_embedding.
Qed.

Lemma byte_of_chr z : 0 <= z < 256 -> byte_of (chr z) = z.
Proof.
  intros Hz. unfold chr, byte_of. rewrite Z.mod_small by lia.
  rewrite N_ascii_embedding by lia. lia.
Qed.

Lemma byte_of_inj a b : byte_of a = byte_of b -> a = b.
Proof.
  intros H. rewrite <- (chr_byte_of a), <- (chr_byte_of b). now rewrite H.
Qed.

Lemma append_cons a s t : String a s ++ t = String a (s ++ t).
Proof. reflexivity. Qed.

Lemma append_nil t : "" ++ t = t.
Proof. reflexivity. Qed.

Lemma lor_disjoint a k b :
  0 <= k -> 0 <= b < 2 ^ k -> Z.lor (a * 2 ^ k) b = a * 2 ^ k + b.
Proof.
  intros Hk Hb. rewrite <- Z.add_lor_land.
  assert (Z.land (a * 2 ^ k) b = 0) as ->; [|lia].
  apply Z.bits_inj'. intros m Hm. rewrite Z.land_spec, Z.bits_0.
  destruct (Z.lt_ge_cases m k) as [Hlt | Hge].
  - rewrite Z.mul_pow2_bits_low by lia. reflexivity.
  - assert (Z.testbit b m = false) as ->; [|apply andb_false_r].
    destruct (Z.eq_dec b 0) as [-> | Hne]; [apply Z.bits_0|].
    apply Z.bits_above_log2; [lia|].
    assert (Z.log2 b < k); [|lia]. apply Z.log2_lt_pow2; lia.
Qed.

(** The bit operations of the decoder and the encoder, as arithmetic. *)
Lemma land_low x k : 0 <= k -> Z.land x (2 ^ k - 1) = x mod 2 ^ k.
Proof.
  intros Hk. rewrite <- Z.land_ones by lia. f_equal.
  rewrite Z.ones_equiv. lia.
Qed.

Lemma lor_high c k x :
  0 <= k -> 0 <= x < 2 ^ k -> c mod 2 ^ k = 0 -> Z.lor c x = c + x.
Proof.
  intros Hk Hx Hc.
  rewrite (Z.div_mod c (2 ^ k)) at 1 2 by lia. rewrite Hc, Z.add_0_r.
  rewrite (Z.mul_comm (2 ^ k)). apply lor_disjoint; assumption.
Qed.

(** ** UTF-8: decoding what was encoded *)

Module utf8_facts.
Import utf8.

Lemma val2_arith s0 s1 :
  rune2 s0 s1 = (s0 mod 32) * 64 + s1 mod 64.
Proof.
  unfold rune2.
  change 0x1F with (2 ^ 5 - 1). change 0x3F with (2 ^ 6 - 1).
  rewrite !land_low by lia. rewrite Z.shiftl_mul_pow2 by lia.
  rewrite lor_disjoint; [reflexivity | lia | apply Z.mod_pos_bound; lia].
Qed.

Ltac pow_consts :=
  change (2 ^ 3) with 8 in *; change (2 ^ 4) with 16 in *;
  change (2 ^ 5) with 32 in *; change (2 ^ 6) with 64 in *;
  change (2 ^ 12) with 4096 in *; change (2 ^ 18) with 262144 in *.

Lemma val3_arith s0 s1 s2 :
  rune3 s0 s1 s2 = (s0 mod 16) * 4096 + (s1 mod 64) * 64 + s2 mod 64.
Proof.
  unfold rune3.
  change 0x0F with (2 ^ 4 - 1). change 0x3F with (2 ^ 6 - 1).
  rewrite !land_low by lia. rewrite !Z.shiftl_mul_pow2 by lia.
  pose proof (Z.mod_pos_bound s1 (2 ^ 6) ltac:(lia)).
  pose proof (Z.mod_pos_bound s2 (2 ^ 6) ltac:(lia)).
  rewrite (lor_disjoint _ 12) by lia.
  replace (s0 mod 2 ^ 4 * 2 ^ 12 + s1 mod 2 ^ 6 * 2 ^ 6)
    with ((s0 mod 2 ^ 4 * 2 ^ 6 + s1 mod 2 ^ 6) * 2 ^ 6) by lia.
  rewrite lor_disjoint by lia. pow_consts. lia.
Qed.

Lemma val4_arith s0 s1 s2 s3 :
  rune4 s0 s1 s2 s3
  = (s0 mod 8) * 262144 + (s1 mod 64) * 4096 + (s2 mod 64) * 64 + s3 mod 64.
Proof.
  unfold rune4.
  change 0x07 with (2 ^ 3 - 1). change 0x3F with (2 ^ 6 - 1).
  rewrite !land_low by lia. rewrite !Z.shiftl_mul_pow2 by lia.
  pose proof (Z.mod_pos_bound s1 (2 ^ 6) ltac:(lia)).
  pose proof (Z.mod_pos_bound s2 (2 ^ 6) ltac:(lia)).
  pose proof (Z.mod_pos_bound s3 (2 ^ 6) ltac:(lia)).
  rewrite (lor_disjoint _ 18) by lia.
  replace (s0 mod 2 ^ 3 * 2 ^ 18 + s1 mod 2 ^ 6 * 2 ^ 12)
    with ((s0 mod 2 ^ 3 * 2 ^ 6 + s1 mod 2 ^ 6) * 2 ^ 12) by lia.
  rewrite (lor_disjoint _ 12) by lia.
  replace ((s0 mod 2 ^ 3 * 2 ^ 6 + s1 mod 2 ^ 6) * 2 ^ 12 + s2 mod 2 ^ 6 * 2 ^ 6)
    with (((s0 mod 2 ^ 3 * 2 ^ 6 + s1 mod 2 ^ 6) * 2 ^ 6 + s2 mod 2 ^ 6) * 2 ^ 6) by lia.
  rewrite lor_disjoint by lia. pow_consts. lia.
Qed.

Ltac first_class :=
  unfold first;
  repeat match goal with
         | |- context [?a <? ?b] => destruct (Z.ltb_spec a b); try lia
         | |- context [?a =? ?b] => destruct (Z.eqb_spec a b); try lia
         end;
  try reflexivity.

Lemma first_ascii b : b < 0x80 -> first b = 0xF0.
Proof. intros; first_class. Qed.

Lemma first_two b : 0xC2 <= b < 0xE0 -> first b = 0x02.
Proof. intros; first_class. Qed.

Lemma first_three b :
  0xE0 <= b < 0xF0 ->
  first b = if b =? 0xE0 then 0x13 else if b =? 0xED then 0x23 else 0x03.
Proof. intros; first_class. Qed.

Lemma first_four b :
  0xF0 <= b <= 0xF4 ->
  first b = if b =? 0xF0 then 0x34 else if b =? 0xF4 then 0x44 else 0x04.
Proof. intros; first_class. Qed.

Lemma first_invalid b : 0x80 <= b < 0xC2 \/ 0xF4 < b -> first b = 0xF1.
Proof. intros; first_class. Qed.


Lemma lead_arith tag r shift k :
  0 <= shift -> 0 <= k -> 0 <= r < 2 ^ (shift + k) -> tag mod 2 ^ k = 0 ->
  lead tag r shift = tag + r / 2 ^ shift.
Proof.
  intros Hs Hk Hr Ht. unfold lead. rewrite Z.shiftr_div_pow2 by lia.
  apply (lor_high _ k); [lia | | assumption].
  split; [apply Z.div_pos; lia|].
  apply Z.div_lt_upper_bound; [lia|]. rewrite <- Z.pow_add_r by lia. lia.
Qed.

Lemma cont_arith r shift :
  0 <= shift -> cont r shift = 0x80 + (r / 2 ^ shift) mod 64.
Proof.
  intros Hs. unfold cont. rewrite Z.shiftr_div_pow2 by lia.
  change 0x3F with (2 ^ 6 - 1). rewrite land_low by lia.
  apply (lor_high _ 6); [lia | apply Z.mod_pos_bound; lia | reflexivity].
Qed.

Lemma ValidRune_true r :
  ValidRune r = true <-> 0 <= r < 0xD800 \/ 0xDFFF < r <= 0x10FFFF.
Proof.
  unfold ValidRune, surrogateMin, surrogateMax, MaxRune.
  rewrite orb_true_iff, !andb_true_iff, !Z.leb_le, !Z.ltb_lt. tauto.
Qed.


Ltac cmp_cases :=
  repeat match goal with
         | |- context [?a <? ?b] => destruct (Z.ltb_spec a b)
         | |- context [?a <=? ?b] => destruct (Z.leb_spec a b)
         | |- context [?a =? ?b] => destruct (Z.eqb_spec a b)
         end.

Arguments rune2 : simpl never.
Arguments rune3 : simpl never.
Arguments rune4 : simpl never.
Arguments byte_of : simpl never.
Arguments chr : simpl never.

Ltac norm_first :=
  repeat match goal with
         | |- context [Z.land ?x 7] =>
           let v := eval vm_compute in (Z.land x 7) in change (Z.land x 7) with v
         | |- context [acceptRanges (Z.shiftr ?x 4)] =>
           let v := eval vm_compute in (acceptRanges (Z.shiftr x 4)) in
           change (acceptRanges (Z.shiftr x 4)) with v
         | |- context [Z.odd ?x] =>
           let v := eval vm_compute in (Z.odd x) in change (Z.odd x) with v
         end.

Ltac decode_step :=
  norm_first; cbn; unfold continuation; cmp_cases; cbn; try lia;
  try (unfold RuneError; lia).

(** The decoder yields scalar values only. *)
Lemma decode_valid s : ValidRune (fst (DecodeRuneInString s)) = true.
Proof.
  destruct s as [|a0 r0]; [reflexivity|].
  pose proof (byte_of_range a0) as R0.
  unfold DecodeRuneInString. set (b0 := byte_of a0) in *.
  destruct (Z.lt_ge_cases b0 0x80).
  { rewrite first_ascii by lia. decode_step. apply ValidRune_true. lia. }
  destruct (Z.lt_ge_cases b0 0xC2).
  { rewrite first_invalid by lia. reflexivity. }
  destruct (Z.lt_ge_cases b0 0xE0).
  { rewrite first_two by lia.
    destruct r0 as [|a1 r1]; decode_step; try reflexivity.
    rewrite val2_arith. apply ValidRune_true. Z.div_mod_to_equations. lia. }
  destruct (Z.lt_ge_cases b0 0xF0).
  { rewrite first_three by lia.
    destruct (Z.eqb_spec b0 0xE0); [|destruct (Z.eqb_spec b0 0xED)];
      destruct r0 as [|a1 [|a2 r2]]; decode_step; try reflexivity;
      rewrite val3_arith; apply ValidRune_true; Z.div_mod_to_equations; lia. }
  destruct (Z.le_gt_cases b0 0xF4).
  2:{ rewrite first_invalid by lia. reflexivity. }
  rewrite first_four by lia.
  destruct (Z.eqb_spec b0 0xF0); [|destruct (Z.eqb_spec b0 0xF4)];
    destruct r0 as [|a1 [|a2 [|a3 r3]]]; decode_step; try reflexivity;
    rewrite val4_arith; apply ValidRune_true; Z.div_mod_to_equations; lia.
Qed.

Lemma lead2 r : 0 <= r < 2048 -> lead 0xC0 r 6 = 192 + r / 64.
Proof. intros. now rewrite (lead_arith _ _ 6 5) by (try reflexivity; lia). Qed.

Lemma lead3 r : 0 <= r < 65536 -> lead 0xE0 r 12 = 224 + r / 4096.
Proof. intros. now rewrite (lead_arith _ _ 12 4) by (try reflexivity; lia). Qed.

Lemma lead4 r : 0 <= r < 2097152 -> lead 0xF0 r 18 = 240 + r / 262144.
Proof. intros. now rewrite (lead_arith _ _ 18 3) by (try reflexivity; lia). Qed.

Lemma cont0 r : cont r 0 = 128 + r mod 64.
Proof. rewrite cont_arith by lia. now rewrite Z.div_1_r. Qed.

Lemma cont6 r : cont r 6 = 128 + (r / 64) mod 64.
Proof. now rewrite cont_arith by lia. Qed.

Lemma cont12 r : cont r 12 = 128 + (r / 4096) mod 64.
Proof. now rewrite cont_arith by lia. Qed.

Ltac bytes_arith :=
  rewrite ?lead2, ?lead3, ?lead4, ?cont0, ?cont6, ?cont12 by lia;
  rewrite !byte_of_chr by (Z.div_mod_to_equations; lia).

(** Decoding an encoded scalar value gives it back, whatever follows. *)
Lemma decode_encode r t :
  ValidRune r = true ->
  DecodeRuneInString (EncodeRune r ++ t) = (r, String.length (EncodeRune r)).
Proof.
  intros Hv. pose proof (proj1 (ValidRune_true r) Hv) as Hr.
  unfold EncodeRune. rewrite Hv. unfold encode3.
  destruct (Z.leb_spec 0 r); [|lia].
  destruct (Z.leb_spec r 0x7F); cbn [andb negb].
  { rewrite !append_cons, append_nil. cbn [String.length]. unfold DecodeRuneInString.
    rewrite byte_of_chr by lia. rewrite first_ascii by lia. reflexivity. }
  destruct (Z.leb_spec r 0x7FF); cbn [andb negb].
  { rewrite !append_cons, append_nil. cbn [String.length]. unfold DecodeRuneInString.
    bytes_arith. rewrite first_two by (Z.div_mod_to_equations; lia).
    decode_step; try (Z.div_mod_to_equations; lia).
    rewrite val2_arith. f_equal. Z.div_mod_to_equations. lia. }
  destruct (Z.leb_spec r 0xFFFF); cbn [andb negb].
  { rewrite !append_cons, append_nil. cbn [String.length]. unfold DecodeRuneInString.
    bytes_arith. rewrite first_three by (Z.div_mod_to_equations; lia).
    destruct (Z.eqb_spec (224 + r / 4096) 0xE0);
      [|destruct (Z.eqb_spec (224 + r / 4096) 0xED)];
      decode_step; try (Z.div_mod_to_equations; lia);
      rewrite val3_arith; f_equal; Z.div_mod_to_equations; lia. }
  rewrite !append_cons, append_nil. cbn [String.length]. unfold DecodeRuneInString.
  bytes_arith. rewrite first_four by (Z.div_mod_to_equations; lia).
  destruct (Z.eqb_spec (240 + r / 262144) 0xF0);
    [|destruct (Z.eqb_spec (240 + r / 262144) 0xF4)];
    decode_step; try (Z.div_mod_to_equations; lia);
    rewrite val4_arith; f_equal; Z.div_mod_to_equations; lia.
Qed.


(** A rune below [RuneSelf] is decoded from the byte with that value. *)
Lemma decode_small a s :
  fst (DecodeRuneInString (String a s)) < 0x80 ->
  fst (DecodeRuneInString (String a s)) = byte_of a /\
  snd (DecodeRuneInString (String a s)) = 1%nat.
Proof.
  pose proof (byte_of_range a) as R0.
  unfold DecodeRuneInString. set (b0 := byte_of a) in *.
  destruct (Z.lt_ge_cases b0 0x80).
  { rewrite first_ascii by lia. decode_step. }
  destruct (Z.lt_ge_cases b0 0xC2).
  { rewrite first_invalid by lia. decode_step. }
  destruct (Z.lt_ge_cases b0 0xE0).
  { rewrite first_two by lia.
    destruct s as [|a1 r1]; decode_step.
    rewrite val2_arith. Z.div_mod_to_equations. lia. }
  destruct (Z.lt_ge_cases b0 0xF0).
  { rewrite first_three by lia.
    destruct (Z.eqb_spec b0 0xE0); [|destruct (Z.eqb_spec b0 0xED)];
      destruct s as [|a1 [|a2 r2]]; decode_step;
      rewrite val3_arith; Z.div_mod_to_equations; lia. }
  destruct (Z.le_gt_cases b0 0xF4).
  2:{ rewrite first_invalid by lia. decode_step. }
  rewrite first_four by lia.
  destruct (Z.eqb_spec b0 0xF0); [|destruct (Z.eqb_spec b0 0xF4)];
    destruct s as [|a1 [|a2 [|a3 r3]]]; decode_step;
    rewrite val4_arith; Z.div_mod_to_equations; lia.
Qed.

Lemma decode_ascii a s :
  byte_of a < 0x80 -> DecodeRuneInString (String a s) = (byte_of a, 1%nat).
Proof.
  intros H. unfold DecodeRuneInString. rewrite first_ascii by lia. reflexivity.
Qed.

Lemma chunks_skip u t : chunks_from (String.length u) (u ++ t) = chunks_from 0 t.
Proof.
  induction u as [|a u IH]; [reflexivity|].
  rewrite append_cons. cbn [String.length chunks_from]. exact IH.
Qed.

Lemma runes_valid_from k s :
  Forall (fun c => ValidRune c = true) (map fst (chunks_from k s)).
Proof.
  revert k. induction s as [|a s IH]; intros k; [constructor|].
  destruct k as [|k]; cbn [chunks_from]; [|apply IH].
  pose proof (decode_valid (String a s)) as Hv.
  destruct (DecodeRuneInString (String a s)) as [c w].
  cbn [map fst]. constructor; [exact Hv | apply IH].
Qed.

Lemma runes_valid s : Forall (fun c => ValidRune c = true) (runes s).
Proof. apply runes_valid_from. Qed.

Lemma encode_nonempty r : exists a u, EncodeRune r = String a u.
Proof.
  unfold EncodeRune, encode3.
  repeat match goal with |- context [if ?b then _ else _] => destruct b end; eauto.
Qed.

Lemma runes_encode r t :
  ValidRune r = true -> runes (EncodeRune r ++ t) = r :: runes t.
Proof.
  intros Hv. unfold runes, chunks.
  pose proof (decode_encode r t Hv) as Hd.
  destruct (encode_nonempty r) as (a & u & Hu). rewrite Hu in *.
  rewrite append_cons in *. cbn [chunks_from]. rewrite Hd.
  cbn [map fst String.length]. rewrite Nat.sub_succ, Nat.sub_0_r.
  now rewrite chunks_skip.
Qed.

Lemma runes_encs rs :
  Forall (fun c => ValidRune c = true) rs -> runes (encs rs) = rs.
Proof.
  induction 1 as [|r rs Hr _ IH]; [reflexivity|].
  unfold encs in *. cbn [map strings.concat fold_right].
  rewrite runes_encode by assumption. now f_equal.
Qed.

End utf8_facts.

(** ** Lower-casing and replacement *)

Section StringFacts.

Import utf8 utf8_facts.

Variable LowerCase : Z -> Z.
Hypothesis table_ok : CaseTableOK LowerCase.

Local Abbreviation F := (unicode.ToLower LowerCase).

Lemma lower_above r : 0x7F < r -> F r = LowerCase r.
Proof.
  intros H. unfold F, unicode.ToLower. destruct (Z.leb_spec r 0x7F); [lia | reflexivity].
Qed.

Lemma lower_below r : r <= 0x7F -> F r = strings.lowerByte r.
Proof.
  intros H. unfold F, unicode.ToLower, strings.lowerByte.
  destruct (Z.leb_spec r 0x7F); [reflexivity | lia].
Qed.

Lemma lowerByte_cases c :
  (0x41 <= c <= 0x5A /\ strings.lowerByte c = c + 0x20) \/
  (~ 0x41 <= c <= 0x5A /\ strings.lowerByte c = c).
Proof.
  unfold strings.lowerByte.
  destruct (Z.leb_spec 0x41 c), (Z.leb_spec c 0x5A); cbn [andb]; lia.
Qed.

Lemma lower_rune r :
  ValidRune r = true ->
  ValidRune (F r) = true /\ F (F r) = F r /\
  (F r = 0x20 -> r = 0x20) /\ (F r = 0x2D -> r = 0x2D).
Proof.
  intros Hv. pose proof (proj1 (ValidRune_true r) Hv) as Hr.
  destruct (Z.le_gt_cases r 0x7F) as [Hle | Hgt].
  - rewrite (lower_below r Hle).
    destruct (lowerByte_cases r) as [[Hup ->] | [Hno ->]].
    + rewrite lower_below by lia.
      destruct (lowerByte_cases (r + 0x20)) as [[Hup' ->] | [Hno' ->]];
        rewrite ValidRune_true; lia.
    + rewrite (lower_below r Hle).
      destruct (lowerByte_cases r) as [[Hup' ->] | [Hno' ->]];
        rewrite ValidRune_true; lia.
  - rewrite (lower_above r Hgt).
    destruct (table_ok r Hgt Hv) as (H1 & H2 & H3 & H4).
    repeat split; [assumption | exact H2 | intros; contradiction | intros; contradiction].
Qed.

Lemma lower_runes_valid rs :
  Forall (fun c => ValidRune c = true) rs ->
  Forall (fun c => ValidRune c = true) (map F rs).
Proof.
  induction 1; constructor; [now apply lower_rune | assumption].
Qed.

Lemma all_bytes_app p s t : all_bytes p (s ++ t) = all_bytes p s && all_bytes p t.
Proof.
  induction s as [|a s IH]; [reflexivity|].
  rewrite append_cons. cbn [all_bytes]. rewrite IH. apply andb_assoc.
Qed.

Lemma encode_low r : 0 <= r <= 0x7F -> EncodeRune r = String (chr r) "".
Proof.
  intros H. unfold EncodeRune.
  destruct (Z.leb_spec 0 r), (Z.leb_spec r 0x7F); try lia. reflexivity.
Qed.

Lemma encode_high r :
  ValidRune r = true -> 0x7F < r ->
  all_bytes (fun c => 0x80 <=? c) (EncodeRune r) = true.
Proof.
  intros Hv Hgt. pose proof (proj1 (ValidRune_true r) Hv) as Hr.
  unfold EncodeRune. rewrite Hv. unfold encode3.
  destruct (Z.leb_spec 0 r); [|lia].
  destruct (Z.leb_spec r 0x7F); [lia|].
  destruct (Z.leb_spec r 0x7FF); [|destruct (Z.leb_spec r 0xFFFF)];
    cbn [andb negb all_bytes]; bytes_arith;
    rewrite ?andb_true_iff, ?Z.leb_le; repeat split;
    Z.div_mod_to_equations; lia.
Qed.

Lemma runes_cons_ascii a s :
  byte_of a < 0x80 -> runes (String a s) = byte_of a :: runes s.
Proof.
  intros H. unfold runes, chunks. cbn [chunks_from].
  rewrite decode_ascii by assumption. reflexivity.
Qed.

Lemma encs_cons r rs : encs (r :: rs) = EncodeRune r ++ encs rs.
Proof. reflexivity. Qed.

Lemma lower_ascii s :
  strings.isASCII s = true ->
  map_bytes strings.lowerByte s = encs (map F (runes s)).
Proof.
  induction s as [|a s IH]; [reflexivity|].
  unfold strings.isASCII in *. cbn [all_bytes]. unfold RuneSelf.
  rewrite andb_true_iff, Z.ltb_lt. intros [Ha Hs].
  pose proof (byte_of_range a) as Ra.
  rewrite runes_cons_ascii by assumption. cbn [map map_bytes].
  rewrite encs_cons, lower_below by lia.
  rewrite encode_low by (destruct (lowerByte_cases (byte_of a)); lia).
  rewrite append_cons, append_nil. f_equal. now apply IH.
Qed.

Lemma Map_lower s : strings.Map F s = encs (map F (runes s)).
Proof.
  unfold strings.Map, encs. pose proof (runes_valid s) as Hv.
  induction Hv as [|c rs Hc _ IH]; [reflexivity|].
  cbn [map strings.concat fold_right]. unfold strings.concat in IH. rewrite IH.
  destruct (lower_rune c Hc) as (Hv' & _).
  apply ValidRune_true in Hv'.
  destruct (Z.leb_spec 0 (F c)); [reflexivity | lia].
Qed.

(** [strings.ToLower] in one formula: every rune is lower-cased and
    encoded again. *)
Lemma ToLower_runes s : strings.ToLower LowerCase s = encs (map F (runes s)).
Proof.
  unfold strings.ToLower. destruct (strings.isASCII s) eqn:E.
  - now apply lower_ascii.
  - apply Map_lower.
Qed.

Lemma ToLower_idempotent s :
  strings.ToLower LowerCase (strings.ToLower LowerCase s) = strings.ToLower LowerCase s.
Proof.
  rewrite !ToLower_runes.
  rewrite runes_encs by (apply lower_runes_valid, runes_valid).
  f_equal. rewrite map_map. apply map_ext_in. intros c Hc.
  pose proof (runes_valid s) as Hv. rewrite Forall_forall in Hv.
  destruct (lower_rune c) as (_ & H & _); [|exact H].
  apply Hv. apply list_elem_of_In. exact Hc.
Qed.

Lemma runes_plain_from k s :
  all_bytes plain s = true ->
  Forall (fun c => c <> 0x20 /\ c <> 0x2D) (map fst (chunks_from k s)).
Proof.
  revert k. induction s as [|a s IH]; intros k Hp; [constructor|].
  cbn [all_bytes] in Hp. apply andb_true_iff in Hp as [Ha Hs].
  destruct k as [|k]; cbn [chunks_from]; [|now apply IH].
  pose proof (decode_small a s) as Hd.
  destruct (DecodeRuneInString (String a s)) as [c w]. cbn [fst snd] in Hd.
  cbn [map fst]. constructor; [|now apply IH].
  destruct (Z.lt_ge_cases c 0x80) as [Hlt | Hge]; [|lia].
  destruct (Hd Hlt) as [-> _].
  unfold plain in Ha. apply andb_true_iff in Ha as [H1 H2].
  apply negb_true_iff, Z.eqb_neq in H1, H2. lia.
Qed.

Lemma encode_plain r :
  ValidRune r = true -> r <> 0x20 -> r <> 0x2D ->
  all_bytes plain (EncodeRune r) = true.
Proof.
  intros Hv H1 H2. pose proof (proj1 (ValidRune_true r) Hv) as Hr.
  destruct (Z.le_gt_cases r 0x7F) as [Hle | Hgt].
  - rewrite encode_low by lia. cbn [all_bytes]. rewrite byte_of_chr by lia.
    unfold plain. rewrite andb_true_r, andb_true_iff, !negb_true_iff, !Z.eqb_neq. lia.
  - pose proof (encode_high r Hv Hgt) as Hh.
    induction (EncodeRune r) as [|a u IH]; [reflexivity|].
    cbn [all_bytes] in *. apply andb_true_iff in Hh as [Ha Hu].
    rewrite IH by assumption. rewrite andb_true_r.
    apply Z.leb_le in Ha. unfold plain.
    rewrite andb_true_iff, !negb_true_iff, !Z.eqb_neq. lia.
Qed.

Lemma ToLower_plain s :
  all_bytes plain s = true -> all_bytes plain (strings.ToLower LowerCase s) = true.
Proof.
  intros Hp. rewrite ToLower_runes.
  pose proof (runes_plain_from 0 s Hp) as Hr. fold (chunks s) in Hr. fold (runes s) in Hr.
  pose proof (runes_valid s) as Hv.
  induction Hv as [|c rs Hc _ IH]; [reflexivity|].
  inversion Hr as [|? ? [H1 H2] Hr']; subst.
  cbn [map]. rewrite encs_cons, all_bytes_app, IH by assumption.
  rewrite andb_true_r.
  destruct (lower_rune c Hc) as (Hv' & _ & H3 & H4).
  apply encode_plain; [assumption | intros E; apply H1, H3, E | intros E; apply H2, H4, E].
Qed.

End StringFacts.

Lemma prefix_empty s : String.prefix "" s = true.
Proof. destruct s; reflexivity. Qed.

Lemma map_bytes_ext f g s :
  (forall a, f (byte_of a) = g (byte_of a)) -> map_bytes f s = map_bytes g s.
Proof.
  intros H. induction s as [|a s IH]; [reflexivity|].
  cbn [map_bytes]. now rewrite H, IH.
Qed.

Lemma map_bytes_compose f g s :
  (forall c, 0 <= c < 256 -> 0 <= f c < 256) ->
  map_bytes g (map_bytes f s) = map_bytes (fun c => g (f c)) s.
Proof.
  intros H. induction s as [|a s IH]; [reflexivity|].
  cbn [map_bytes]. rewrite byte_of_chr by (apply H, byte_of_range). now rewrite IH.
Qed.

(** Replacing a one-byte pattern by one byte works byte by byte. *)
Lemma replace_byte o n s :
  strings.ReplaceAll s (String o "") (String n "")
  = map_bytes (fun c => if c =? byte_of o then byte_of n else c) s.
Proof.
  unfold strings.ReplaceAll.
  induction s as [|a s IH]; [reflexivity|].
  cbn [strings.replace_from String.prefix map_bytes].
  destruct (ascii_dec o a) as [-> | Hne].
  - rewrite prefix_empty, Z.eqb_refl, chr_byte_of.
    cbn [String.length Nat.sub]. rewrite append_cons, append_nil. now rewrite IH.
  - destruct (Z.eqb_spec (byte_of a) (byte_of o)) as [E | _].
    + apply byte_of_inj in E. congruence.
    + rewrite chr_byte_of. now rewrite IH.
Qed.

Lemma cleaned_bytes s :
  strings.ReplaceAll (strings.ReplaceAll s " " "_") "-" "_" = underscored s.
Proof.
  rewrite !replace_byte. rewrite map_bytes_compose.
  - unfold underscored. apply map_bytes_ext. intros a.
    change (byte_of " ") with 0x20. change (byte_of "-") with 0x2D.
    change (byte_of "_") with 0x5F. unfold underscore.
    destruct (Z.eqb_spec (byte_of a) 0x20) as [-> | H1]; [reflexivity|].
    destruct (Z.eqb_spec (byte_of a) 0x2D) as [-> | H2]; reflexivity.
  - intros c Hc. change (byte_of " ") with 0x20. change (byte_of "_") with 0x5F.
    destruct (c =? 0x20); lia.
Qed.

Lemma underscore_range c : 0 <= c < 256 -> 0 <= underscore c < 256.
Proof.
  intros H. unfold underscore. destruct ((c =? 0x20) || (c =? 0x2D))%bool; lia.
Qed.

Lemma underscored_plain s : all_bytes plain (underscored s) = true.
Proof.
  induction s as [|a s IH]; [reflexivity|].
  unfold underscored in *. cbn [map_bytes all_bytes]. rewrite IH, andb_true_r.
  rewrite byte_of_chr by (apply underscore_range, byte_of_range).
  unfold plain, underscore.
  destruct (Z.eqb_spec (byte_of a) 0x20) as [-> | H1]; [reflexivity|].
  destruct (Z.eqb_spec (byte_of a) 0x2D) as [-> | H2]; [reflexivity|].
  cbn [orb]. rewrite andb_true_iff, !negb_true_iff, !Z.eqb_neq. auto.
Qed.

Lemma underscored_of_plain s : all_bytes plain s = true -> underscored s = s.
Proof.
  induction s as [|a s IH]; [reflexivity|].
  cbn [all_bytes]. rewrite andb_true_iff. intros [Ha Hs].
  unfold underscored in *. cbn [map_bytes]. rewrite IH by assumption. f_equal.
  unfold plain in Ha. apply andb_true_iff in Ha as [H1 H2].
  apply negb_true_iff in H1, H2. unfold underscore. rewrite H1, H2.
  apply chr_byte_of.
Qed.

Lemma cleanHeader_bytes LowerCase header :
  cleanHeader LowerCase header = strings.ToLower LowerCase (underscored header).
Proof. unfold cleanHeader. now rewrite cleaned_bytes. Qed.

(** ** The header loop *)

Lemma header_loop_spec LowerCase headers done columns :
  header_loop LowerCase (length done) headers
    (done ++ replicate (length headers) "") columns
  = ((done ++ map (cleanHeader LowerCase) headers)%list,
     (columns ++ map (fun h => (cleanHeader LowerCase h ++ " TEXT")%string) headers)%list).
Proof.
  revert done columns. induction headers as [|h headers IH]; intros done columns.
  - cbn. now rewrite !app_nil_r.
  - cbn [header_loop length replicate map].
    replace (<[length done := cleanHeader LowerCase h]>
               (done ++ "" :: replicate (length headers) "")%list)
      with ((done ++ [cleanHeader LowerCase h]) ++ replicate (length headers) "")%list.
    + replace (S (length done)) with (length (done ++ [cleanHeader LowerCase h]))
        by (rewrite length_app; cbn; lia).
      rewrite IH. now rewrite <- !app_assoc.
    + rewrite <- app_assoc. cbn [app].
      rewrite insert_app_r_alt by lia. now rewrite Nat.sub_diag.
Qed.

Lemma derive_spec LowerCase headers :
  derive LowerCase headers
  = (map (cleanHeader LowerCase) headers,
     map (fun h => cleanHeader LowerCase h ++ " TEXT") headers).
Proof.
  unfold derive. exact (header_loop_spec LowerCase headers [] []).
Qed.

Lemma latin1_table_ok : CaseTableOK latin1_lower.
Proof.
  intros r Hr Hv. apply utf8_facts.ValidRune_true in Hv.
  unfold unicode.ToLower, latin1_lower.
  rewrite utf8_facts.ValidRune_true.
  destruct (Z.leb_spec 0xC0 r), (Z.leb_spec r 0xDE), (Z.eqb_spec r 0xD7);
    cbn [andb negb]; utf8_facts.cmp_cases; cbn [andb negb]; lia.
Qed.

(** C8. Normalising a header name twice gives what normalising it once
    gives, for every string; the result is a function of the string alone
    (the embedding takes no world and returns none), given the case table of
    the Go distribution; "First Name" becomes "first_name" and "Last-Name"
    becomes "last_name". *)
Theorem cleanHeader_idempotent (LowerCase : Z -> Z) (x : string) :
  CaseTableOK LowerCase ->
  cleanHeader LowerCase (cleanHeader LowerCase x) = cleanHeader LowerCase x /\
  cleanHeader LowerCase "First Name" = "first_name" /\
  cleanHeader LowerCase "Last-Name" = "last_name".
Proof.
  intros Hok. split; [|split; vm_compute; reflexivity].
  rewrite !cleanHeader_bytes.
  rewrite (underscored_of_plain (strings.ToLower LowerCase (underscored x))).
  - now apply ToLower_idempotent.
  - apply ToLower_plain; [assumption | apply underscored_plain].
Qed.

Lemma cleanHeader_idempotent_witness :
  CaseTableOK latin1_lower /\
  cleanHeader latin1_lower (cleanHeader latin1_lower "Été-Chaud 1") =
  cleanHeader latin1_lower "Été-Chaud 1".
Proof.
  split; [exact latin1_table_ok|].
  exact (proj1 (cleanHeader_idempotent latin1_lower "Été-Chaud 1" latin1_table_ok)).
Defined.

(** A few runs of the string functions and of the whole load. *)
Example ToLower_latin1 :
  strings.ToLower latin1_lower "ÉCOLE Normale" = "école normale".
Proof. vm_compute. reflexivity. Qed.

Example ToLower_invalid_byte :
  strings.ToLower latin1_lower (String (chr 0xFF) "A")
  = String (chr 0xEF) (String (chr 0xBF) (String (chr 0xBD) "a")).
Proof. vm_compute. reflexivity. Qed.

Example ReplaceAll_leftmost : strings.ReplaceAll "a--b---" "--" "_" = "a_b_-".
Proof. vm_compute. reflexivity. Qed.

Example people_loaded :
  let run := ProcessCSVOptimized latin1_lower env_ok "people.csv" "people" world0 in
  snd run = None /\
  relations (fst run) !! "people"
    = Some {| rel_columns := ["name TEXT"; "age TEXT"];
              rel_rows := [["Ada"; "36"]; ["Alan"; "41"]] |} /\
  last (stdout (fst run))
    = Some (OutSummary 2 (Seconds 2000000000) (Div (FromInt 2) (Seconds 2000000000))).
Proof. vm_compute. auto. Qed.

(** ** The destination, call by call *)

Lemma outcome_call e c w : c <> Rollback -> outcome e c w = fault e (calls w).
Proof. intros H. unfold outcome. destruct c; try reflexivity. contradiction. Qed.

Lemma db_call_frame e c w :
  reader (fst (db_call e c w)) = reader w /\
  calls (fst (db_call e c w)) = S (calls w) /\
  ticks (fst (db_call e c w)) = ticks w /\
  stdout (fst (db_call e c w)) = stdout w /\
  log (fst (db_call e c w)) = (log w ++ [EvCall c (outcome e c w)])%list /\
  snd (db_call e c w) = outcome e c w.
Proof.
  unfold db_call. destruct (outcome e c w);
    destruct c as [[]| | | | | | |]; cbn; try destruct (session w); cbn; auto 10.
Qed.

(** A rejected call leaves the relations alone, and so does every accepted
    call but the statements of [db.Exec] and [Commit]. *)
Lemma db_call_rejected e c w msg :
  outcome e c w = Some msg ->
  relations (fst (db_call e c w)) = relations w /\
  session (fst (db_call e c w)) =
    match c with Commit | Rollback => None | _ => session w end.
Proof.
  intros H. unfold db_call. rewrite H.
  destruct c as [[]| | | | | | |]; cbn; auto.
Qed.

Lemma db_call_accepted e c w :
  outcome e c w = None ->
  relations (fst (db_call e c w)) = relations (accept c w) /\
  session (fst (db_call e c w)) = session (accept c w).
Proof. intros H. unfold db_call. rewrite H. cbn. auto. Qed.

(** ** One turn of the copy loop *)

(** What [Read] returns is the head of what the reader holds, which is
    what the loop goes by. *)
Lemma Read_head w res rd :
  reader w = res :: rd -> Read w = (logged (EvRead res) (with_reader rd w), res).
Proof. intros H. unfold Read. now rewrite H. Qed.

Lemma Read_exhausted w :
  reader w = [] -> Read w = (logged (EvRead (Fail "EOF")) w, Fail "EOF").
Proof. intros H. unfold Read. now rewrite H. Qed.

Section LoopFacts.

Variable e : env.

Lemma loop_rec_ok startTime field fields rd n w :
  reader w = Rec field fields :: rd ->
  fault e (calls w) = None ->
  exists w1,
    copy_loop e startTime (Rec field fields :: rd) n w
      = copy_loop e startTime rd (wrap64 (n + 1)) w1 /\
    reader w1 = rd /\
    relations w1 = relations w /\
    session w1 = push_rows [values_of field fields] (session w) /\
    calls w1 = S (calls w) /\
    log w1 = (log w ++ [EvRead (Rec field fields);
                        EvCall (CopyRow (values_of field fields)) None])%list.
Proof.
  intros Hrd Hf. cbn [copy_loop]. unfold Read. rewrite Hrd.
  unfold db_call, outcome. cbn. rewrite Hf. cbn.
  destruct (Z.rem (wrap64 (n + 1)) 100000 =? 0);
    eexists; (split; [reflexivity|]); cbn; rewrite <- ?app_assoc; auto 10.
Qed.

Lemma loop_rec_rejected startTime field fields rd n w msg :
  reader w = Rec field fields :: rd ->
  fault e (calls w) = Some msg ->
  exists w1,
    copy_loop e startTime (Rec field fields :: rd) n w
      = (w1, inr ("error copying line " ++ itoa (wrap64 (n + 1)) ++ ": " ++ msg)) /\
    reader w1 = rd /\
    relations w1 = relations w /\
    session w1 = session w /\
    calls w1 = S (calls w) /\
    log w1 = (log w ++ [EvRead (Rec field fields);
                        EvCall (CopyRow (values_of field fields)) (Some msg)])%list.
Proof.
  intros Hrd Hf. cbn [copy_loop]. unfold Read. rewrite Hrd.
  unfold db_call, outcome. cbn. rewrite Hf. cbn.
  eexists; (split; [reflexivity|]); cbn; rewrite <- ?app_assoc; auto 10.
Qed.

Lemma loop_read_error startTime msg rd n w :
  reader w = Fail msg :: rd ->
  msg <> "EOF" ->
  exists w1,
    copy_loop e startTime (Fail msg :: rd) n w
      = (w1, inr ("error reading line " ++ itoa (wrap64 (n + 1)) ++ ": " ++ msg)) /\
    reader w1 = rd /\
    relations w1 = relations w /\
    session w1 = session w /\
    calls w1 = calls w /\
    log w1 = (log w ++ [EvRead (Fail msg)])%list.
Proof.
  intros Hrd Hne. cbn [copy_loop]. unfold Read. rewrite Hrd.
  destruct (String.eqb_spec msg "EOF") as [E | _]; [contradiction|].
  eexists; (split; [reflexivity|]); cbn; auto 10.
Qed.

Lemma loop_eof startTime rest n w :
  reader w = rest ->
  at_eof rest ->
  exists w1,
    copy_loop e startTime rest n w = (w1, inl n) /\
    reader w1 = tl rest /\
    relations w1 = relations w /\
    session w1 = session w /\
    calls w1 = calls w /\
    log w1 = (log w ++ [EvRead (Fail "EOF")])%list.
Proof.
  intros Hrd [-> | [rest' ->]]; cbn [copy_loop]; unfold Read; rewrite Hrd;
    cbn; eexists; (split; [reflexivity|]); cbn; auto 10.
Qed.


Lemma push_rows_nil s : push_rows [] s = s.
Proof.
  destruct s as [[c rows]|]; [|reflexivity]. cbn. now rewrite app_nil_r.
Qed.

Lemma push_rows_app rows1 rows2 s :
  push_rows rows2 (push_rows rows1 s) = push_rows (rows1 ++ rows2) s.
Proof.
  destruct s as [[c rows]|]; [|reflexivity]. cbn. now rewrite app_assoc.
Qed.

Lemma bump_succ k n : bump (S k) n = bump k (wrap64 (n + 1)).
Proof. unfold bump. now rewrite Nat.iter_succ_r. Qed.

(** The loop reads and submits a prefix of accepted records, and goes on
    from there. *)
Lemma loop_prefix startTime pre rest n w :
  reader w = (recs pre ++ rest)%list ->
  (forall i, (i < length pre)%nat -> fault e (calls w + i) = None) ->
  exists w1,
    copy_loop e startTime (recs pre ++ rest) n w
      = copy_loop e startTime rest (bump (length pre) n) w1 /\
    reader w1 = rest /\
    relations w1 = relations w /\
    session w1 = push_rows (rows_of pre) (session w) /\
    calls w1 = (calls w + length pre)%nat /\
    log w1 = (log w ++ copied pre)%list.
Proof.
  revert n w. induction pre as [|[field fields] pre IH]; intros n w Hrd Hf.
  - exists w. cbn. rewrite push_rows_nil, Nat.add_0_r, app_nil_r. auto 10.
  - change (recs ((field, fields) :: pre)) with (Rec field fields :: recs pre) in *.
    rewrite <- app_comm_cons in *.
    destruct (loop_rec_ok startTime field fields (recs pre ++ rest) n w Hrd)
      as (w1 & Hstep & Hr1 & Hrel1 & Hs1 & Hc1 & Hl1).
    { rewrite <- (Hf 0%nat) by (cbn; lia). f_equal. lia. }
    destruct (IH (wrap64 (n + 1)) w1 Hr1) as (w2 & Hrun & Hr2 & Hrel2 & Hs2 & Hc2 & Hl2).
    { intros i Hi. rewrite Hc1. rewrite <- (Hf (S i)) by (cbn; lia). f_equal. lia. }
    exists w2. rewrite Hstep, Hrun. cbn [length]. rewrite bump_succ.
    repeat split; try assumption.
    + congruence.
    + rewrite Hs2, Hs1, push_rows_app. reflexivity.
    + lia.
    + rewrite Hl2, Hl1. cbn [copied flat_map fst snd]. now rewrite <- app_assoc.
Qed.

Lemma loop_end_cons field fields pre rest n w w1 w' r :
  fault e (calls w) = None ->
  calls w1 = S (calls w) ->
  log w1 = (log w ++ [EvRead (Rec field fields);
                      EvCall (CopyRow (values_of field fields)) None])%list ->
  session w1 = push_rows [values_of field fields] (session w) ->
  loop_end e (wrap64 (n + 1)) w1 pre rest w' r ->
  loop_end e n w ((field, fields) :: pre) rest w' r.
Proof.
  intros Hf Hc Hl Hs Hend.
  assert (forall evs, (log w1 ++ copied pre ++ evs
                       = log w ++ copied ((field, fields) :: pre) ++ evs)%list) as Hlog.
  { intros evs. rewrite Hl. cbn [copied flat_map fst snd]. now rewrite <- !app_assoc. }
  assert (push_rows (rows_of pre) (session w1)
          = push_rows (rows_of ((field, fields) :: pre)) (session w)) as Hpush.
  { rewrite Hs, push_rows_app. reflexivity. }
  inversion Hend; subst; cbn [length]; rewrite <- bump_succ.
  - apply end_eof; try assumption; cbn [length]; try lia; congruence.
  - apply end_read; try assumption; cbn [length]; try lia; congruence.
  - apply end_copy; try assumption; cbn [length]; try lia; try congruence.
    replace (calls w + S (length pre))%nat with (calls w1 + length pre)%nat by lia.
    assumption.
Qed.

(** Every run of the loop: some prefix of records is read and accepted,
    the relations are not touched, and the loop ends in one of the three
    ways. *)
Lemma loop_spec startTime rd n w :
  reader w = rd ->
  exists pre rest w' r,
    copy_loop e startTime rd n w = (w', r) /\
    rd = (recs pre ++ rest)%list /\
    (forall i, (i < length pre)%nat -> fault e (calls w + i) = None) /\
    relations w' = relations w /\
    loop_end e n w pre rest w' r.
Proof.
  revert n w. induction rd as [|res rd IH]; intros n w Hrd.
  - destruct (loop_eof startTime [] n w Hrd) as (w1 & Hrun & Hr & Hrel & Hs & Hc & Hl);
      [now left|].
    exists [], [], w1, (inl n). repeat split; try assumption; [cbn; lia|].
    apply (end_eof e n w []); cbn; rewrite ?push_rows_nil; try assumption; [now left | lia].
  - destruct res as [field fields | msg].
    + destruct (fault e (calls w)) as [msg|] eqn:Hf.
      * destruct (loop_rec_rejected startTime field fields rd n w msg Hrd Hf)
          as (w1 & Hrun & Hr & Hrel & Hs & Hc & Hl).
        exists [], (Rec field fields :: rd), w1.
        eexists. repeat split; try eassumption; [cbn; lia|].
        apply (end_copy e n w []); cbn; rewrite ?push_rows_nil, ?Nat.add_0_r; assumption.
      * destruct (loop_rec_ok startTime field fields rd n w Hrd Hf)
          as (w1 & Hstep & Hr1 & Hrel1 & Hs1 & Hc1 & Hl1).
        destruct (IH (wrap64 (n + 1)) w1 Hr1)
          as (pre & rest & w' & r & Hrun & Hsplit & Hfs & Hrel & Hend).
        exists ((field, fields) :: pre), rest, w', r.
        repeat split.
        -- now rewrite Hstep.
        -- cbn. now rewrite Hsplit.
        -- intros [|i] Hi; [now rewrite Nat.add_0_r|].
           rewrite <- (Hfs i) by (cbn in Hi; lia). f_equal. lia.
        -- congruence.
        -- now apply (loop_end_cons field fields pre rest n w w1).
    + destruct (String.eqb_spec msg "EOF") as [-> | Hne].
      * destruct (loop_eof startTime (Fail "EOF" :: rd) n w Hrd)
          as (w1 & Hrun & Hr & Hrel & Hs & Hc & Hl); [right; eauto|].
        exists [], (Fail "EOF" :: rd), w1, (inl n).
        repeat split; try assumption; [cbn; lia|].
        apply (end_eof e n w []); cbn; rewrite ?push_rows_nil; try assumption;
          [right; eauto | lia].
      * destruct (loop_read_error startTime msg rd n w Hrd Hne)
          as (w1 & Hrun & Hr & Hrel & Hs & Hc & Hl).
        exists [], (Fail msg :: rd), w1.
        eexists. repeat split; try eassumption; [cbn; lia|].
        apply (end_read e n w []); cbn; rewrite ?push_rows_nil, ?Nat.add_0_r; assumption.
Qed.

End LoopFacts.

(** ** [copyInsert] *)

Lemma db_call_inv e c w w' err :
  db_call e c w = (w', err) ->
  c <> Rollback ->
  err = fault e (calls w) /\
  reader w' = reader w /\
  calls w' = S (calls w) /\
  ticks w' = ticks w /\
  stdout w' = stdout w /\
  log w' = (log w ++ [EvCall c err])%list /\
  match err with
  | Some _ => relations w' = relations w /\
              session w' = match c with Commit => None | _ => session w end
  | None => relations w' = relations (accept c w) /\ session w' = session (accept c w)
  end.
Proof.
  intros H Hc. pose proof (db_call_frame e c w) as F. rewrite H in F. cbn [fst snd] in F.
  destruct F as (? & ? & ? & ? & ? & Herr).
  rewrite (outcome_call e c w Hc) in *. subst err.
  repeat split; try assumption.
  destruct (fault e (calls w)) as [msg|] eqn:Hf.
  - pose proof (db_call_rejected e c w msg) as R. rewrite H in R. cbn [fst] in R.
    rewrite (outcome_call e c w Hc) in R. destruct (R Hf) as [R1 R2].
    split; [assumption|]. rewrite R2. destruct c; try reflexivity. contradiction.
  - pose proof (db_call_accepted e c w) as R. rewrite H in R. cbn [fst] in R.
    rewrite (outcome_call e c w Hc) in R. exact (R Hf).
Qed.

Lemma rollback_inv e w w' err :
  db_call e Rollback w = (w', err) ->
  relations w' = relations w /\
  session w' = None /\
  reader w' = reader w /\
  log w' = (log w ++ [EvCall Rollback err])%list /\
  (session w = None -> err = Some ErrTxDone).
Proof.
  unfold db_call, outcome. destruct (session w) eqn:Hs.
  - destruct (fault e (calls w)); intros [= <- <-]; cbn; repeat split; discriminate.
  - intros [= <- <-]; cbn; auto.
Qed.

Lemma copied_not_failed pre : Forall (fun ev => ~ failed ev) (copied pre).
Proof.
  induction pre as [|[field fields] pre IH]; [constructor|].
  cbn [copied flat_map app]. repeat constructor; auto.
Qed.

Lemma copied_copy_events pre : Forall copy_event (copied pre).
Proof.
  induction pre as [|[field fields] pre IH]; [constructor|].
  cbn [copied flat_map app]. repeat constructor; auto.
Qed.

Ltac log_eq :=
  repeat match goal with H : log _ = _ |- _ => rewrite H; clear H end;
  cbn [app]; rewrite <- ?app_assoc; cbn [app]; try reflexivity.

Lemma copyInsert_spec e tableName headers w w' n err :
  copyInsert e tableName headers w = (w', (n, err)) ->
  copy_run e tableName headers w w' n err.
Proof.
  unfold copyInsert.
  destruct (db_call e Begin w) as [w1 e1] eqn:E1.
  apply db_call_inv in E1 as (-> & Hr1 & Hc1 & _ & _ & Hl1 & Hd1); [|discriminate].
  destruct (fault e (calls w)) as [m|] eqn:Hf0.
  { intros [= <- <- <-]. destruct Hd1. now apply run_no_begin. }
  cbn in Hd1. destruct Hd1 as [Hrel1 Hs1].
  destruct (copy_body e tableName headers w1) as [w2 [n2 err2]] eqn:Eb.
  destruct (db_call e Rollback w2) as [w3 rb] eqn:E3.
  intros [= <- <- <-].
  apply rollback_inv in E3 as (Hrel3 & Hs3 & Hr3 & Hl3 & Hdone).
  unfold copy_body in Eb.
  destruct (db_call e (Prepare tableName headers) w1) as [wp ep] eqn:Ep.
  apply db_call_inv in Ep as (-> & Hrp & Hcp & _ & _ & Hlp & Hdp); [|discriminate].
  destruct (fault e (calls w1)) as [m|] eqn:Hf1.
  { injection Eb as <- <- <-. destruct Hdp as [Hrelp Hsp].
    apply (run_aborted e tableName headers w [] (EvCall (Prepare tableName headers) (Some m)) rb);
      try assumption; try (repeat constructor; fail); [log_eq | congruence]. }
  cbn in Hdp. destruct Hdp as [Hrelp Hsp]. rewrite Hs1 in Hsp. cbn in Hsp.
  unfold Now in Eb. cbn [fst snd] in Eb.
  set (w0 := Println OutStarting (ticked wp)) in Eb.
  assert (reader w0 = reader wp /\ calls w0 = calls wp /\ log w0 = log wp /\
          relations w0 = relations wp /\ session w0 = session wp)
    as (Hr0 & Hc0 & Hl0 & Hrel0 & Hs0) by (cbn; auto).
  destruct (loop_spec e (clock e (ticks wp)) (reader w0) 0 w0 eq_refl)
    as (pre & rest & wl & r & Hrun & Hsplit & Hfs & Hrell & Hend).
  rewrite Hrun in Eb.
  assert (relations wl = relations w) as Hrelw by congruence.
  inversion Hend as [rest0 wl0 Heof Hrl Hcl Hll Hsl
                    | msg rest' wl0 Hne Hrl Hcl Hll Hsl
                    | field fields msg rest' wl0 Hfm Hrl Hcl Hll Hsl]; subst.
  2:{ injection Eb as <- <- <-.
      apply (run_aborted e tableName headers w
               (EvCall (Prepare tableName headers) None :: copied pre) (EvRead (Fail msg)) rb);
        try assumption; [log_eq | | | congruence].
      - constructor; [cbn; auto | apply copied_not_failed].
      - rewrite <- app_comm_cons. constructor; [exact I|].
        apply Forall_app; split; [apply copied_copy_events | repeat constructor]. }
  2:{ injection Eb as <- <- <-.
      apply (run_aborted e tableName headers w
               (EvCall (Prepare tableName headers) None :: copied pre ++ [EvRead (Rec field fields)])
               (EvCall (CopyRow (values_of field fields)) (Some msg)) rb);
        try assumption; [log_eq | | exact I | | congruence].
      - constructor; [cbn; auto|].
        apply Forall_app; split; [apply copied_not_failed | repeat constructor; auto].
      - rewrite <- app_comm_cons. constructor; [exact I|]. rewrite <- app_assoc.
        apply Forall_app; split; [apply copied_copy_events | repeat constructor]. }
  unfold copy_finish in Eb.
  destruct (db_call e CopyEnd wl) as [w4 e4] eqn:E4.
  apply db_call_inv in E4 as (-> & Hr4 & Hc4 & _ & _ & Hl4 & Hd4); [|discriminate].
  destruct (fault e (calls wl)) as [m|] eqn:Hf4.
  { injection Eb as <- <- <-. destruct Hd4 as [Hrel4 Hs4].
    apply (run_aborted e tableName headers w
             (EvCall (Prepare tableName headers) None :: copied pre ++ [EvRead (Fail "EOF")])
             (EvCall CopyEnd (Some m)) rb);
      try assumption; [log_eq | | exact I | | congruence].
    - constructor; [cbn; auto|].
      apply Forall_app; split; [apply copied_not_failed | repeat constructor; cbn; auto].
    - rewrite <- app_comm_cons. constructor; [exact I|]. rewrite <- app_assoc.
      apply Forall_app; split; [apply copied_copy_events | repeat constructor]. }
  cbn in Hd4. destruct Hd4 as [Hrel4 Hs4].
  destruct (db_call e StmtClose w4) as [w5 e5] eqn:E5.
  apply db_call_inv in E5 as (-> & Hr5 & Hc5 & _ & _ & Hl5 & Hd5); [|discriminate].
  destruct (fault e (calls w4)) as [m|] eqn:Hf5.
  { injection Eb as <- <- <-. destruct Hd5 as [Hrel5 Hs5].
    apply (run_aborted e tableName headers w
             (EvCall (Prepare tableName headers) None :: copied pre
                ++ [EvRead (Fail "EOF"); EvCall CopyEnd None])
             (EvCall StmtClose (Some m)) rb);
      try assumption; [log_eq | | exact I | | congruence].
    - constructor; [cbn; auto|].
      apply Forall_app; split; [apply copied_not_failed | repeat constructor; cbn; auto].
    - rewrite <- app_comm_cons. constructor; [exact I|]. rewrite <- app_assoc.
      apply Forall_app; split; [apply copied_copy_events | repeat constructor]. }
  cbn in Hd5. destruct Hd5 as [Hrel5 Hs5].
  destruct (db_call e Commit w5) as [w6 e6] eqn:E6.
  apply db_call_inv in E6 as (-> & Hr6 & Hc6 & _ & _ & Hl6 & Hd6); [|discriminate].
  destruct (fault e (calls w5)) as [m|] eqn:Hf6.
  { injection Eb as <- <- <-. destruct Hd6 as [Hrel6 Hs6].
    apply (run_aborted e tableName headers w
             (EvCall (Prepare tableName headers) None :: copied pre
                ++ [EvRead (Fail "EOF"); EvCall CopyEnd None; EvCall StmtClose None])
             (EvCall Commit (Some m)) rb);
      try assumption; [log_eq | | exact I | | congruence].
    - constructor; [cbn; auto|].
      apply Forall_app; split; [apply copied_not_failed | repeat constructor; cbn; auto].
    - rewrite <- app_comm_cons. constructor; [exact I|]. rewrite <- app_assoc.
      apply Forall_app; split; [apply copied_copy_events | repeat constructor]. }
  injection Eb as <- <- <-.
  assert (session w5 = Some {| tx_copy := Some (tableName, headers);
                               tx_rows := rows_of pre |}) as Hs5'.
  { rewrite Hs5, Hs4, Hsl, Hs0, Hsp. reflexivity. }
  cbn in Hd6. rewrite Hs5' in Hd6. cbn in Hd6. destruct Hd6 as [Hrel6 Hs6].
  rewrite (Hdone Hs6) in *.
  apply (run_committed e tableName headers w pre rest).
  - congruence.
  - assumption.
  - congruence.
  - intros i Hi.
    assert (i = 0 \/ i = 1 \/ (2 <= i < 2 + length pre) \/ i = 2 + length pre
            \/ i = 3 + length pre \/ i = 4 + length pre)%nat
      as [-> | [-> | [Hmid | [-> | [-> | ->]]]]] by lia.
    + now rewrite Nat.add_0_r.
    + rewrite <- Hf1. f_equal. lia.
    + rewrite <- (Hfs (i - 2)%nat) by lia. f_equal. lia.
    + rewrite <- Hf4. f_equal. lia.
    + rewrite <- Hf5. f_equal. lia.
    + rewrite <- Hf6. f_equal. lia.
  - log_eq.
  - rewrite Hrel3, Hrel6. unfold committed. cbn. congruence.
  - assumption.
Qed.

(** ** Runs with given outcomes *)

Lemma db_call_ok e c w :
  c <> Rollback -> fault e (calls w) = None ->
  exists w1,
    db_call e c w = (w1, None) /\
    reader w1 = reader w /\ calls w1 = S (calls w) /\
    log w1 = (log w ++ [EvCall c None])%list /\
    relations w1 = relations (accept c w) /\ session w1 = session (accept c w).
Proof.
  intros Hc Hf. destruct (db_call e c w) as [w1 err] eqn:E.
  apply db_call_inv in E as (-> & ? & ? & _ & _ & ? & Hd); [|assumption].
  rewrite Hf in *. destruct Hd. exists w1. auto 10.
Qed.

Lemma rollback_run e w :
  exists w' rb,
    db_call e Rollback w = (w', rb) /\
    relations w' = relations w /\ session w' = None /\ reader w' = reader w /\
    log w' = (log w ++ [EvCall Rollback rb])%list /\
    (session w = None -> rb = Some ErrTxDone).
Proof.
  destruct (db_call e Rollback w) as [w' rb] eqn:E.
  exists w', rb. split; [reflexivity|]. now apply rollback_inv in E.
Qed.

Lemma copy_finish_ok e n w tx :
  session w = Some tx ->
  (forall i, (i < 3)%nat -> fault e (calls w + i) = None) ->
  exists w',
    copy_finish e n w = (w', (n, None)) /\
    reader w' = reader w /\
    log w' = (log w ++ [EvCall CopyEnd None; EvCall StmtClose None;
                        EvCall Commit None])%list /\
    relations w' = committed tx (relations w) /\
    session w' = None.
Proof.
  intros Hs Hf. unfold copy_finish.
  destruct (db_call_ok e CopyEnd w) as (w1 & -> & Hr1 & Hc1 & Hl1 & Hrel1 & Hs1);
    [discriminate | rewrite <- (Hf 0%nat) by lia; f_equal; lia |].
  destruct (db_call_ok e StmtClose w1) as (w2 & -> & Hr2 & Hc2 & Hl2 & Hrel2 & Hs2);
    [discriminate | rewrite <- (Hf 1%nat) by lia; f_equal; lia |].
  destruct (db_call_ok e Commit w2) as (w3 & -> & Hr3 & Hc3 & Hl3 & Hrel3 & Hs3);
    [discriminate | rewrite <- (Hf 2%nat) by lia; f_equal; lia |].
  cbn in Hrel1, Hs1, Hrel2, Hs2.
  assert (session w2 = Some tx) as Hs2' by congruence.
  cbn in Hrel3, Hs3. rewrite Hs2' in Hrel3, Hs3. cbn in Hrel3, Hs3.
  exists w3. repeat split; try assumption; try congruence. log_eq.
Qed.

(** With [db.Begin] and the preparation of the COPY accepted, [copyInsert]
    is the loop from a world [w0], the end of the COPY when the loop breaks,
    and the deferred rollback. *)
Lemma copyInsert_started e tableName headers w :
  fault e (calls w) = None ->
  fault e (S (calls w)) = None ->
  exists w0 startTime,
    reader w0 = reader w /\
    calls w0 = S (S (calls w)) /\
    log w0 = (log w ++ [EvCall Begin None; EvCall (Prepare tableName headers) None])%list /\
    relations w0 = relations w /\
    session w0 = Some {| tx_copy := Some (tableName, headers); tx_rows := [] |} /\
    copyInsert e tableName headers w =
      (let '(w2, res) :=
         (let '(wl, r) := copy_loop e startTime (reader w0) 0 w0 in
          match r with
          | inr err => (wl, (0, Some err))
          | inl lineCount => copy_finish e lineCount wl
          end) in
       let '(w3, _) := db_call e Rollback w2 in (w3, res)).
Proof.
  intros Hf0 Hf1. unfold copyInsert, copy_body.
  destruct (db_call_ok e Begin w) as (w1 & -> & Hr1 & Hc1 & Hl1 & Hrel1 & Hs1);
    [discriminate | assumption |].
  destruct (db_call_ok e (Prepare tableName headers) w1)
    as (w2 & -> & Hr2 & Hc2 & Hl2 & Hrel2 & Hs2); [discriminate | congruence |].
  cbn in Hrel1, Hs1, Hrel2, Hs2. rewrite Hs1 in Hs2. cbn in Hs2.
  unfold Now. cbn [fst snd].
  exists (Println OutStarting (ticked w2)), (clock e (ticks w2)).
  cbn [reader calls log relations session Println ticked].
  repeat split; try congruence. log_eq.
Qed.

Lemma wrap64_small z : - 2 ^ 63 <= z < 2 ^ 63 -> wrap64 z = z.
Proof. intros H. unfold wrap64. rewrite Z.mod_small; lia. Qed.

Lemma bump_small k n :
  0 <= n -> n + Z.of_nat k < 2 ^ 63 -> bump k n = n + Z.of_nat k.
Proof.
  intros Hn. induction k as [|k IH]; intros Hk; [cbn; lia|].
  unfold bump in *. rewrite Nat.iter_succ, IH by lia.
  rewrite wrap64_small; lia.
Qed.

Section Scenarios.

Variable e : env.
Variables (tableName : string) (headers : list string).

Lemma copyInsert_read_error w pre msg rest :
  reader w = (recs pre ++ Fail msg :: rest)%list ->
  msg <> "EOF" ->
  (forall i, (i < length pre + 2)%nat -> fault e (calls w + i) = None) ->
  exists w' rb,
    copyInsert e tableName headers w
      = (w', (0, Some ("error reading line "
                       ++ itoa (wrap64 (bump (length pre) 0 + 1)) ++ ": " ++ msg))) /\
    reader w' = rest /\
    relations w' = relations w /\
    session w' = None /\
    log w' = (log w ++ [EvCall Begin None; EvCall (Prepare tableName headers) None]
                    ++ copied pre ++ [EvRead (Fail msg); EvCall Rollback rb])%list.
Proof.
  intros Hrd Hne Hf.
  destruct (copyInsert_started e tableName headers w)
    as (w0 & st & Hr0 & Hc0 & Hl0 & Hrel0 & Hs0 & ->).
  { rewrite <- (Hf 0%nat) by lia. f_equal. lia. }
  { rewrite <- (Hf 1%nat) by lia. f_equal. lia. }
  rewrite Hr0, Hrd.
  destruct (loop_prefix e st pre (Fail msg :: rest) 0 w0)
    as (w1 & -> & Hr1 & Hrel1 & Hs1 & Hc1 & Hl1); [congruence | |].
  { intros i Hi. rewrite Hc0. rewrite <- (Hf (2 + i)%nat) by lia. f_equal. lia. }
  destruct (loop_read_error e st msg rest (bump (length pre) 0) w1 Hr1 Hne)
    as (w2 & -> & Hr2 & Hrel2 & Hs2 & Hc2 & Hl2).
  destruct (rollback_run e w2) as (w3 & rb & -> & Hrel3 & Hs3 & Hr3 & Hl3 & _).
  exists w3, rb. repeat split; try congruence. log_eq.
Qed.

Lemma copyInsert_copy_error w pre field fields msg rest :
  reader w = (recs pre ++ Rec field fields :: rest)%list ->
  (forall i, (i < length pre + 2)%nat -> fault e (calls w + i) = None) ->
  fault e (calls w + (length pre + 2)) = Some msg ->
  exists w' rb,
    copyInsert e tableName headers w
      = (w', (0, Some ("error copying line "
                       ++ itoa (wrap64 (bump (length pre) 0 + 1)) ++ ": " ++ msg))) /\
    reader w' = rest /\
    relations w' = relations w /\
    session w' = None /\
    log w' = (log w ++ [EvCall Begin None; EvCall (Prepare tableName headers) None]
                    ++ copied pre
                    ++ [EvRead (Rec field fields);
                        EvCall (CopyRow (values_of field fields)) (Some msg);
                        EvCall Rollback rb])%list.
Proof.
  intros Hrd Hf Hbad.
  destruct (copyInsert_started e tableName headers w)
    as (w0 & st & Hr0 & Hc0 & Hl0 & Hrel0 & Hs0 & ->).
  { rewrite <- (Hf 0%nat) by lia. f_equal. lia. }
  { rewrite <- (Hf 1%nat) by lia. f_equal. lia. }
  rewrite Hr0, Hrd.
  destruct (loop_prefix e st pre (Rec field fields :: rest) 0 w0)
    as (w1 & -> & Hr1 & Hrel1 & Hs1 & Hc1 & Hl1); [congruence | |].
  { intros i Hi. rewrite Hc0. rewrite <- (Hf (2 + i)%nat) by lia. f_equal. lia. }
  destruct (loop_rec_rejected e st field fields rest (bump (length pre) 0) w1 msg Hr1)
    as (w2 & -> & Hr2 & Hrel2 & Hs2 & Hc2 & Hl2).
  { rewrite <- Hbad. f_equal. lia. }
  destruct (rollback_run e w2) as (w3 & rb & -> & Hrel3 & Hs3 & Hr3 & Hl3 & _).
  exists w3, rb. repeat split; try congruence. log_eq.
Qed.

Lemma copyInsert_ok w pre rest :
  reader w = (recs pre ++ rest)%list ->
  at_eof rest ->
  (forall i, (i < length pre + 5)%nat -> fault e (calls w + i) = None) ->
  exists w',
    copyInsert e tableName headers w = (w', (bump (length pre) 0, None)) /\
    reader w' = tl rest /\
    relations w' = alter (add_rows (rows_of pre)) tableName (relations w) /\
    session w' = None /\
    log w' = (log w ++ [EvCall Begin None; EvCall (Prepare tableName headers) None]
                    ++ copied pre
                    ++ [EvRead (Fail "EOF"); EvCall CopyEnd None; EvCall StmtClose None;
                        EvCall Commit None; EvCall Rollback (Some ErrTxDone)])%list.
Proof.
  intros Hrd Heof Hf.
  destruct (copyInsert_started e tableName headers w)
    as (w0 & st & Hr0 & Hc0 & Hl0 & Hrel0 & Hs0 & ->).
  { rewrite <- (Hf 0%nat) by lia. f_equal. lia. }
  { rewrite <- (Hf 1%nat) by lia. f_equal. lia. }
  rewrite Hr0, Hrd.
  destruct (loop_prefix e st pre rest 0 w0)
    as (w1 & -> & Hr1 & Hrel1 & Hs1 & Hc1 & Hl1); [congruence | |].
  { intros i Hi. rewrite Hc0. rewrite <- (Hf (2 + i)%nat) by lia. f_equal. lia. }
  destruct (loop_eof e st rest (bump (length pre) 0) w1 Hr1 Heof)
    as (w2 & -> & Hr2 & Hrel2 & Hs2 & Hc2 & Hl2).
  destruct (copy_finish_ok e (bump (length pre) 0) w2
              {| tx_copy := Some (tableName, headers); tx_rows := rows_of pre |})
    as (w3 & -> & Hr3 & Hl3 & Hrel3 & Hs3).
  { rewrite Hs2, Hs1, Hs0. reflexivity. }
  { intros i Hi. rewrite Hc2, Hc1, Hc0.
    rewrite <- (Hf (2 + length pre + i)%nat) by lia. f_equal. lia. }
  destruct (rollback_run e w3) as (w4 & rb & -> & Hrel4 & Hs4 & Hr4 & Hl4 & Hdone).
  rewrite (Hdone Hs3) in *.
  exists w4. repeat split; try congruence.
  - rewrite Hrel4, Hrel3. unfold committed. cbn. congruence.
  - log_eq.
Qed.

End Scenarios.

(** ** The tuning step *)

Lemma optimize_loop_spec e sqls w :
  let w' := optimize_loop e sqls w in
  relations w' = relations w /\ session w' = session w /\ reader w' = reader w /\
  calls w' = (calls w + length sqls)%nat /\ ticks w' = ticks w /\
  stdout w' = stdout w /\
  log w' = (log w ++ imap (fun i sql => EvCall (Exec (Setting sql)) (fault e (calls w + i)))
                          sqls)%list.
Proof.
  revert w. induction sqls as [|sql sqls IH]; intros w.
  - cbn. rewrite Nat.add_0_r, app_nil_r. auto 10.
  - cbn [optimize_loop].
    destruct (db_call e (Exec (Setting sql)) w) as [w1 err] eqn:E.
    apply db_call_inv in E as (-> & Hr & Hc & Ht & Ho & Hl & Hd); [|discriminate].
    assert (relations w1 = relations w /\ session w1 = session w) as [Hrel Hs].
    { destruct (fault e (calls w)); exact Hd. }
    assert (optimize_loop e sqls w1 =
            match fault e (calls w) with
            | Some _ => optimize_loop e sqls w1
            | None => optimize_loop e sqls w1
            end) as <- by (destruct (fault e (calls w)); reflexivity).
    destruct (IH w1) as (H1 & H2 & H3 & H4 & H5 & H6 & H7).
    cbn zeta. rewrite H1, H2, H3, H4, H5, H6, H7, Hl, Hc.
    repeat split; try congruence; [cbn; lia|].
    rewrite <- app_assoc. cbn [app imap]. rewrite Nat.add_0_r. do 2 f_equal.
    apply imap_ext. intros i x _. cbn. do 2 f_equal. lia.
Qed.

Lemma optimizeForBulkInsert_spec e w :
  snd (optimizeForBulkInsert e w) = None /\
  relations (fst (optimizeForBulkInsert e w)) = relations w /\
  session (fst (optimizeForBulkInsert e w)) = session w /\
  reader (fst (optimizeForBulkInsert e w)) = reader w /\
  calls (fst (optimizeForBulkInsert e w)) = (calls w + 9)%nat /\
  ticks (fst (optimizeForBulkInsert e w)) = ticks w /\
  stdout (fst (optimizeForBulkInsert e w)) = (stdout w ++ [OutOptimized])%list /\
  log (fst (optimizeForBulkInsert e w)) = (log w ++ tuning_events e (calls w))%list.
Proof.
  unfold optimizeForBulkInsert. cbn [fst snd].
  destruct (optimize_loop_spec e optimizations w) as (H1 & H2 & H3 & H4 & H5 & H6 & H7).
  cbn [relations session reader calls ticks stdout log Println].
  rewrite H1, H2, H3, H4, H5, H6, H7. auto 10.
Qed.

(** ** [ProcessCSVOptimized] *)

Lemma ProcessCSVOptimized_spec LowerCase e csvPath tableName w w' err :
  ProcessCSVOptimized LowerCase e csvPath tableName w = (w', err) ->
  load_run LowerCase e csvPath tableName w w' err.
Proof.
  unfold ProcessCSVOptimized, Now, Open. cbn [fst snd].
  destruct (files e csvPath) as [msg | src] eqn:Hfile.
  { intros [= <- <-]. now apply load_no_file. }
  unfold process_body, Read. cbn [reader with_reader logged ticked].
  destruct src as [|[field fields | msg] rest].
  { intros [= <- <-]. apply (load_no_header _ _ _ _ _ []); cbn; auto.
    now rewrite <- !app_assoc. }
  2:{ intros [= <- <-]. apply (load_no_header _ _ _ _ _ (Fail msg :: rest)); cbn; eauto.
      now rewrite <- !app_assoc. }
  match goal with
  | |- context [optimizeForBulkInsert e ?w0] => set (w2 := w0)
  end.
  assert (relations w2 = relations w /\ session w2 = session w /\ reader w2 = rest /\
          calls w2 = calls w /\ ticks w2 = S (ticks w) /\
          log w2 = (log w ++ [EvOpen csvPath None; EvRead (Rec field fields)])%list)
    as (Hrel2 & Hs2 & Hr2 & Hc2 & Ht2 & Hl2).
  { subst w2. cbn. rewrite <- app_assoc. auto 10. }
  clearbody w2.
  pose proof (optimizeForBulkInsert_spec e w2)
    as (_ & Hrel3 & Hs3 & Hr3 & Hc3 & Ht3 & Ho3 & Hl3).
  destruct (optimizeForBulkInsert e w2) as [w3 e3]. cbn [fst snd] in *.
  rewrite Hc2 in Hl3.
  destruct (db_call e (Exec (DropTableIfExists tableName)) w3) as [w4 e4] eqn:E4.
  apply db_call_inv in E4 as (-> & Hr4 & Hc4 & Ht4 & Ho4 & Hl4 & Hd4); [|discriminate].
  rewrite Hc3, Hc2 in Hd4, Hl4 |- *.
  destruct (fault e (calls w + 9)) as [m|] eqn:Hf9.
  { intros [= <- <-]. destruct Hd4 as [Hrel4 Hs4].
    apply (load_drop_rejected _ _ _ _ _ field fields rest m); try assumption;
      cbn [log relations Close logged]; [|congruence].
    unfold header_events. log_eq. }
  cbn in Hd4. destruct Hd4 as [Hrel4 Hs4].
  destruct (derive LowerCase (values_of field fields)) as [cleanHeaders columns] eqn:Hder.
  match goal with
  | |- context [db_call e (Exec (CreateUnloggedTable tableName columns)) ?w0] =>
    set (w5 := w0)
  end.
  assert (relations w5 = relations w4 /\ session w5 = session w4 /\ reader w5 = reader w4 /\
          calls w5 = calls w4 /\ ticks w5 = ticks w4 /\ log w5 = log w4)
    as (Hrel5 & Hs5 & Hr5 & Hc5 & Ht5 & Hl5) by (subst w5; cbn; auto 10).
  clearbody w5.
  destruct (db_call e (Exec (CreateUnloggedTable tableName columns)) w5) as [w6 e6] eqn:E6.
  apply db_call_inv in E6 as (-> & Hr6 & Hc6 & Ht6 & Ho6 & Hl6 & Hd6); [|discriminate].
  assert (calls w5 = calls w + 10)%nat as Hc5' by lia.
  rewrite Hc5' in Hd6, Hl6 |- *.
  destruct (fault e (calls w + 10)) as [m|] eqn:Hf10.
  { intros [= <- <-]. destruct Hd6 as [Hrel6 Hs6].
    apply (load_create_rejected _ _ _ _ _ field fields rest m); try assumption;
      rewrite ?Hder; cbn [log relations Close logged snd]; [|congruence].
    unfold header_events. log_eq. }
  cbn in Hd6. destruct Hd6 as [Hrel6 Hs6].
  destruct (copyInsert e tableName cleanHeaders w6) as [w7 [n errc]] eqn:E7.
  assert (log w6 = (log w ++ header_events e csvPath field fields (calls w)
                      ++ [EvCall (Exec (DropTableIfExists tableName)) None;
                          EvCall (Exec (CreateUnloggedTable tableName columns)) None])%list)
    as Hl6'.
  { unfold header_events. log_eq. }
  assert (relations w6 = <[tableName := fresh columns]> (delete tableName (relations w)))
    as Hrel6' by (rewrite Hrel6, Hrel5, Hrel4, Hrel3, Hrel2; reflexivity).
  assert (session w6 = session w) as Hs6' by congruence.
  assert (reader w6 = rest) as Hr6' by congruence.
  assert (calls w6 = calls w + 11)%nat as Hc6' by lia.
  destruct errc as [m|].
  { intros [= <- <-].
    apply (load_copied _ _ _ _ _ field fields rest w6 w7 n); try assumption;
      rewrite ?Hder; cbn [fst snd log relations session Close logged];
      try congruence; try lia; auto. }
  unfold Since, Now. cbn [fst snd]. intros [= <- <-].
  apply (load_copied _ _ _ _ _ field fields rest w6 w7 n); try assumption;
    rewrite ?Hder; cbn [fst snd log relations session stdout ticks Close logged Println ticked];
    try congruence; try lia; auto.
  rewrite Nat.sub_succ, Nat.sub_0_r. eexists. reflexivity.
Qed.

(** ** The properties of the specification *)

Lemma committed_not_failed tableName headers pre :
  Forall (fun ev => ~ failed ev)
    ([EvCall Begin None; EvCall (Prepare tableName headers) None]
       ++ copied pre
       ++ [EvRead (Fail "EOF"); EvCall CopyEnd None; EvCall StmtClose None;
           EvCall Commit None; EvCall Rollback (Some ErrTxDone)])%list.
Proof.
  apply Forall_app; split; [repeat constructor; auto|].
  apply Forall_app; split; [apply copied_not_failed|].
  repeat constructor; cbn; auto.
Qed.

(** C1. [copyInsert] is all or nothing.  Whatever the source and the
    destination do: a failure logged during the run (a rejected [Begin],
    [Prepare], row, end of COPY, [Close] or [Commit], or a read error) makes
    it return an error; when it returns an error the count is 0 and the
    relations are exactly what they were, and if the transaction had begun
    it is over and the rollback was the last call; it returns no
    error only when every record up to the end of the stream was submitted
    and the end of the COPY, the close and the commit were accepted, and only
    then do the rows reach the relation. *)
Theorem copyInsert_all_or_nothing
    (e : env) (tableName : string) (headers : list string)
    (w w' : world) (n : Z) (err : option string) :
  copyInsert e tableName headers w = (w', (n, err)) ->
  exists evs,
    log w' = (log w ++ evs)%list /\
    (Exists failed evs -> err <> None) /\
    (err <> None ->
       n = 0 /\ relations w' = relations w /\
       (In (EvCall Begin None) evs ->
          session w' = None /\ exists rb, last evs = Some (EvCall Rollback rb))) /\
    (err = None ->
       exists pre rest,
         reader w = (recs pre ++ rest)%list /\ at_eof rest /\
         evs = ([EvCall Begin None; EvCall (Prepare tableName headers) None]
                  ++ copied pre
                  ++ [EvRead (Fail "EOF"); EvCall CopyEnd None; EvCall StmtClose None;
                      EvCall Commit None; EvCall Rollback (Some ErrTxDone)])%list /\
         relations w' = alter (add_rows (rows_of pre)) tableName (relations w) /\
         session w' = None).
Proof.
  intros Hrun. apply copyInsert_spec in Hrun.
  destruct Hrun as [msg w' Hf Hl Hrel Hs Hr
                   | evs bad rb msg w' Hf Hl Hok Hbad Hcopy Hrel Hs
                   | pre rest w' Hrd Heof Hr Hf Hl Hrel Hs].
  - exists [EvCall Begin (Some msg)].
    split; [assumption|]. split; [discriminate|]. split; [|discriminate].
    intros _. split; [reflexivity|]. split; [assumption|].
    intros [E | []]. discriminate E.
  - exists (EvCall Begin None :: evs ++ [bad; EvCall Rollback rb])%list.
    split; [assumption|]. split; [discriminate|]. split; [|discriminate].
    intros _. split; [reflexivity|]. split; [assumption|].
    intros _. split; [assumption|]. exists rb.
    change (EvCall Begin None :: evs ++ [bad; EvCall Rollback rb])%list
      with ((EvCall Begin None :: evs) ++ [bad; EvCall Rollback rb])%list.
    rewrite (app_assoc _ [bad] [EvCall Rollback rb]). apply last_snoc.
  - eexists. split; [exact Hl|]. split; [|split].
    + intros Hex _. apply Exists_exists in Hex as (ev & Hin & Hfail).
      pose proof (committed_not_failed tableName headers pre) as Hall.
      rewrite Forall_forall in Hall. exact (Hall ev Hin Hfail).
    + intros Hne. contradiction.
    + intros _. exists pre, rest. auto.
Qed.

Lemma copyInsert_all_or_nothing_witness :
  copyInsert (env_reject 3 "pq: invalid input") "people" ["name"; "age"]
             (reading (recs [ada; alan]))
  = (fst (copyInsert (env_reject 3 "pq: invalid input") "people" ["name"; "age"]
                     (reading (recs [ada; alan]))),
     (0, Some "error copying line 2: pq: invalid input")) /\
  relations (fst (copyInsert (env_reject 3 "pq: invalid input") "people" ["name"; "age"]
                             (reading (recs [ada; alan]))))
  = relations (reading (recs [ada; alan])).
Proof.
  assert (copyInsert (env_reject 3 "pq: invalid input") "people" ["name"; "age"]
                     (reading (recs [ada; alan]))
          = (fst (copyInsert (env_reject 3 "pq: invalid input") "people" ["name"; "age"]
                             (reading (recs [ada; alan]))),
             (0, Some "error copying line 2: pq: invalid input"))) as H
    by (vm_compute; reflexivity).
  split; [exact H|].
  destruct (copyInsert_all_or_nothing _ _ _ _ _ _ _ H) as (evs & _ & _ & Hbad & _).
  apply Hbad. discriminate.
Defined.

(** C9. [ProcessCSV] is [ProcessCSVOptimized]: on every destination, path
    and table name it leaves the same world and returns the same result. *)
Theorem ProcessCSV_is_ProcessCSVOptimized
    (LowerCase : Z -> Z) (e : env) (csvPath tableName : string) (w : world) :
  ProcessCSV LowerCase e csvPath tableName w
  = ProcessCSVOptimized LowerCase e csvPath tableName w.
Proof. reflexivity. Qed.

Lemma line_number (pre : list (string * list string)) :
  Z.of_nat (S (length pre)) < 2 ^ 63 ->
  bump (length pre) 0 = Z.of_nat (length pre) /\
  wrap64 (bump (length pre) 0 + 1) = Z.of_nat (S (length pre)).
Proof.
  intros H. rewrite bump_small by lia. split; [lia|].
  rewrite wrap64_small; lia.
Qed.

(** C7. A failure at data record K (counted from 1, the header apart,
    K below 2^63) stops the load at that record with an error that names the
    operation and K: when the K-th read fails, the error is
    "error reading line K: ..." and the reader has been asked exactly K
    times; when the destination rejects the K-th row, the error is
    "error copying line K: ..." after one attempt.  In both cases the only
    call that follows is the deferred rollback, and nothing is tried again.
    A read error is one whose message is not that of [io.EOF], which the
    loop takes for the end of the stream. *)
Theorem row_error_context
    (e : env) (tableName : string) (headers : list string) (w : world)
    (pre : list (string * list string)) (rest : list read_result) :
  Z.of_nat (S (length pre)) < 2 ^ 63 ->
  (forall i, (i < S (length pre) + 1)%nat -> fault e (calls w + i) = None) ->
  (forall msg,
     msg <> "EOF" ->
     reader w = (recs pre ++ Fail msg :: rest)%list ->
     exists w' rb,
       copyInsert e tableName headers w
         = (w', (0, Some ("error reading line " ++ itoa (Z.of_nat (S (length pre)))
                          ++ ": " ++ msg))) /\
       reader w' = rest /\
       relations w' = relations w /\
       log w' = (log w ++ [EvCall Begin None; EvCall (Prepare tableName headers) None]
                       ++ copied pre
                       ++ [EvRead (Fail msg); EvCall Rollback rb])%list) /\
  (forall field fields msg,
     reader w = (recs pre ++ Rec field fields :: rest)%list ->
     fault e (calls w + (S (length pre) + 1)) = Some msg ->
     exists w' rb,
       copyInsert e tableName headers w
         = (w', (0, Some ("error copying line " ++ itoa (Z.of_nat (S (length pre)))
                          ++ ": " ++ msg))) /\
       reader w' = rest /\
       relations w' = relations w /\
       log w' = (log w ++ [EvCall Begin None; EvCall (Prepare tableName headers) None]
                       ++ copied pre
                       ++ [EvRead (Rec field fields);
                           EvCall (CopyRow (values_of field fields)) (Some msg);
                           EvCall Rollback rb])%list).
Proof.
  intros Hk Hf. destruct (line_number pre Hk) as [_ Hline]. split.
  - intros msg Hne Hrd.
    destruct (copyInsert_read_error e tableName headers w pre msg rest Hrd Hne)
      as (w' & rb & Hrun & Hr & Hrel & _ & Hl).
    { intros i Hi. apply Hf. lia. }
    exists w', rb. rewrite Hline in Hrun. auto.
  - intros field fields msg Hrd Hbad.
    destruct (copyInsert_copy_error e tableName headers w pre field fields msg rest Hrd)
      as (w' & rb & Hrun & Hr & Hrel & _ & Hl).
    { intros i Hi. apply Hf. lia. }
    { rewrite <- Hbad. f_equal. lia. }
    exists w', rb. rewrite Hline in Hrun. auto.
Qed.

Lemma row_error_context_witness :
  Z.of_nat (S (length [ada])) < 2 ^ 63 /\
  (forall i, (i < S (length [ada]) + 1)%nat ->
     fault (env_reject 3 "pq: invalid input") (calls (reading (recs [ada; alan])) + i) = None) /\
  exists w' rb,
    copyInsert (env_reject 3 "pq: invalid input") "people" ["name"; "age"]
               (reading (recs [ada; alan]))
      = (w', (0, Some "error copying line 2: pq: invalid input")) /\
    reader w' = [] /\
    log w' = [EvCall Begin None; EvCall (Prepare "people" ["name"; "age"]) None;
              EvRead (Rec "Ada" ["36"]); EvCall (CopyRow ["Ada"; "36"]) None;
              EvRead (Rec "Alan" ["41"]);
              EvCall (CopyRow ["Alan"; "41"]) (Some "pq: invalid input");
              EvCall Rollback rb].
Proof.
  assert (Z.of_nat (S (length [ada])) < 2 ^ 63) as Hk by (cbn; lia).
  assert (forall i, (i < S (length [ada]) + 1)%nat ->
            fault (env_reject 3 "pq: invalid input")
                  (calls (reading (recs [ada; alan])) + i) = None) as Hf.
  { intros i Hi. cbn in Hi. destruct i as [|[|[|i]]]; [reflexivity..|lia]. }
  split; [exact Hk|]. split; [exact Hf|].
  destruct (proj2 (row_error_context (env_reject 3 "pq: invalid input") "people"
                     ["name"; "age"] (reading (recs [ada; alan])) [ada] [] Hk Hf)
              "Alan" ["41"] "pq: invalid input" eq_refl eq_refl)
    as (w' & rb & Hrun & Hr & _ & Hl).
  exists w', rb. auto.
Defined.

(** C10. The loop recognises the end of the stream by the message "EOF"
    alone.  With the destination accepting every call: when the reader is
    exhausted after the records [pre], and just as well when the next read
    fails with an error whose message is "EOF" and more would follow, the loop
    breaks, the COPY is ended and the records read so far are committed, the
    load succeeding with their count; when the read fails with any other
    message the load returns an error and commits nothing. *)
Theorem eof_by_message
    (e : env) (tableName : string) (headers : list string) (w : world)
    (pre : list (string * list string)) (rest : list read_result) (msg : string) :
  Z.of_nat (S (length pre)) < 2 ^ 63 ->
  (forall i, (i < length pre + 5)%nat -> fault e (calls w + i) = None) ->
  (reader w = recs pre \/ (msg = "EOF" /\ reader w = (recs pre ++ Fail msg :: rest)%list) ->
     exists w',
       copyInsert e tableName headers w = (w', (Z.of_nat (length pre), None)) /\
       relations w' = alter (add_rows (rows_of pre)) tableName (relations w) /\
       (reader w = (recs pre ++ Fail msg :: rest)%list -> reader w' = rest) /\
       log w' = (log w ++ [EvCall Begin None; EvCall (Prepare tableName headers) None]
                       ++ copied pre
                       ++ [EvRead (Fail "EOF"); EvCall CopyEnd None; EvCall StmtClose None;
                           EvCall Commit None; EvCall Rollback (Some ErrTxDone)])%list) /\
  (msg <> "EOF" -> reader w = (recs pre ++ Fail msg :: rest)%list ->
     exists w',
       copyInsert e tableName headers w
         = (w', (0, Some ("error reading line " ++ itoa (Z.of_nat (S (length pre)))
                          ++ ": " ++ msg))) /\
       relations w' = relations w /\
       reader w' = rest).
Proof.
  intros Hk Hf. destruct (line_number pre Hk) as [Hcount Hline]. split.
  - intros Hrd.
    assert (exists tail, reader w = (recs pre ++ tail)%list /\ at_eof tail /\
              (reader w = (recs pre ++ Fail msg :: rest)%list -> tl tail = rest))
      as (tail & Hsplit & Heof & Htail).
    { destruct Hrd as [Hrd | [-> Hrd]].
      - exists []. rewrite app_nil_r. repeat split; [assumption | now left |].
        intros H. rewrite Hrd in H. rewrite <- (app_nil_r (recs pre)) in H at 1.
        apply app_inv_head in H. discriminate.
      - exists (Fail "EOF" :: rest). repeat split; [assumption | right; eauto]. }
    destruct (copyInsert_ok e tableName headers w pre tail Hsplit Heof Hf)
      as (w' & Hrun & Hr & Hrel & _ & Hl).
    exists w'. rewrite Hcount in Hrun. repeat split; try assumption.
    intros H. rewrite Hr. auto.
  - intros Hne Hrd.
    destruct (copyInsert_read_error e tableName headers w pre msg rest Hrd Hne)
      as (w' & rb & Hrun & Hr & Hrel & _ & Hl).
    { intros i Hi. apply Hf. lia. }
    exists w'. rewrite Hline in Hrun. auto.
Qed.

Lemma eof_by_message_witness :
  Z.of_nat (S (length [ada])) < 2 ^ 63 /\
  (forall i, (i < length [ada] + 5)%nat ->
     fault env_ok (calls (reading [Rec "Ada" ["36"]; Fail "EOF"; Rec "Alan" ["41"]]) + i) = None) /\
  exists w',
    copyInsert env_ok "people" ["name"; "age"]
               (reading [Rec "Ada" ["36"]; Fail "EOF"; Rec "Alan" ["41"]])
      = (w', (1, None)) /\
    relations w' !! "people"
      = Some {| rel_columns := ["name TEXT"; "age TEXT"]; rel_rows := [["Ada"; "36"]] |} /\
    reader w' = [Rec "Alan" ["41"]].
Proof.
  assert (Z.of_nat (S (length [ada])) < 2 ^ 63) as Hk by (cbn; lia).
  assert (forall i, (i < length [ada] + 5)%nat ->
            fault env_ok
              (calls (reading [Rec "Ada" ["36"]; Fail "EOF"; Rec "Alan" ["41"]]) + i) = None)
    as Hf by reflexivity.
  split; [exact Hk|]. split; [exact Hf|].
  destruct (proj1 (eof_by_message env_ok "people" ["name"; "age"]
                     (reading [Rec "Ada" ["36"]; Fail "EOF"; Rec "Alan" ["41"]])
                     [ada] [Rec "Alan" ["41"]] "EOF" Hk Hf)
              (or_intror (conj eq_refl eq_refl)))
    as (w' & Hrun & Hrel & Hr & _).
  exists w'. split; [exact Hrun|]. split; [|exact (Hr eq_refl)].
  rewrite Hrel. vm_compute. reflexivity.
Defined.

(** A load whose calls are all accepted, the tuning statements apart, and
    whose source holds the records [pre] up to the end of the stream. *)
Lemma load_ok LowerCase e csvPath tableName w field fields pre rest :
  files e csvPath = inr (Rec field fields :: recs pre ++ rest)%list ->
  at_eof rest ->
  (forall i, (i < length pre + 7)%nat -> fault e (calls w + 9 + i) = None) ->
  exists w' out,
    ProcessCSVOptimized LowerCase e csvPath tableName w = (w', None) /\
    relations w' =
      <[tableName := {| rel_columns := snd (derive LowerCase (values_of field fields));
                        rel_rows := rows_of pre |}]> (delete tableName (relations w)) /\
    log w' = (log w ++ header_events e csvPath field fields (calls w)
                    ++ [EvCall (Exec (DropTableIfExists tableName)) None;
                        EvCall (Exec (CreateUnloggedTable tableName
                                        (snd (derive LowerCase (values_of field fields)))))
                               None;
                        EvCall Begin None;
                        EvCall (Prepare tableName
                                  (fst (derive LowerCase (values_of field fields)))) None]
                    ++ copied pre
                    ++ [EvRead (Fail "EOF"); EvCall CopyEnd None; EvCall StmtClose None;
                        EvCall Commit None; EvCall Rollback (Some ErrTxDone);
                        EvClose])%list /\
    stdout w' =
      (out ++ [OutSummary (bump (length pre) 0)
                 (Seconds (Sub (clock e (ticks w' - 1)) (clock e (ticks w))))
                 (Div (FromInt (bump (length pre) 0))
                      (Seconds (Sub (clock e (ticks w' - 1)) (clock e (ticks w)))))])%list /\
    exists wc wr,
      log wc = (log w ++ header_events e csvPath field fields (calls w)
                      ++ [EvCall (Exec (DropTableIfExists tableName)) None;
                          EvCall (Exec (CreateUnloggedTable tableName
                                          (snd (derive LowerCase (values_of field fields)))))
                                 None])%list /\
      copyInsert e tableName (fst (derive LowerCase (values_of field fields))) wc
        = (wr, (bump (length pre) 0, None)).
Proof.
  intros Hfile Heof Hf.
  destruct (ProcessCSVOptimized LowerCase e csvPath tableName w) as [w' err] eqn:E.
  apply ProcessCSVOptimized_spec in E.
  destruct E as [msg w' Hfile' Hl Hrel
                | src msg w' Hfile' Hsrc Hl Hrel
                | field' fields' rest' msg w' Hfile' Hf9 Hl Hrel
                | field' fields' rest' msg w' Hfile' Hf9 Hf10 Hl Hrel
                | field' fields' rest' wc wr n err w' Hfile' Hf9 Hf10 Hrc Hcc Hsc Hrelc Hlc
                    Hrun Hl Hrel Hs Hout].
  - congruence.
  - rewrite Hfile in Hfile'. injection Hfile' as <-.
    destruct Hsrc as [[? _] | [? ?]]; discriminate.
  - pose proof (Hf 0%nat ltac:(lia)) as H0. rewrite Nat.add_0_r in H0. congruence.
  - pose proof (Hf 1%nat ltac:(lia)) as H1.
    replace (calls w + 9 + 1)%nat with (calls w + 10)%nat in H1 by lia. congruence.
  - rewrite Hfile in Hfile'. injection Hfile' as <- <- <-.
    destruct (copyInsert_ok e tableName (fst (derive LowerCase (values_of field fields)))
                wc pre rest Hrc Heof)
      as (wr' & Hrun' & Hr' & Hrel' & Hs' & Hl').
    { intros i Hi. rewrite Hcc. rewrite <- (Hf (2 + i)%nat) by lia. f_equal. lia. }
    rewrite Hrun' in Hrun. injection Hrun as <- <- <-.
    destruct Hout as [out Hout]. exists w', out.
    split; [reflexivity|]. split; [|split; [|split; [exact Hout|]]].
    + rewrite Hrel, Hrel', Hrelc. rewrite alter_insert_eq. unfold fresh, add_rows. reflexivity.
    + rewrite Hl, Hl', Hlc. rewrite <- !app_assoc. reflexivity.
    + exists wc, wr'. split; assumption.
Qed.

(** C6. A source with the header row and nothing else, the destination
    accepting the statements and the calls of the copy phase: the load
    succeeds; the relation exists with the columns derived from the header and
    no row; no row is submitted, yet the COPY is ended, the statement closed
    and the transaction committed; [copyInsert] returns the count 0, and 0 is
    the count in the summary. *)
Theorem empty_input
    (LowerCase : Z -> Z) (e : env) (csvPath tableName : string) (w : world)
    (field : string) (fields : list string) :
  files e csvPath = inr [Rec field fields] ->
  (forall i, (i < 7)%nat -> fault e (calls w + 9 + i) = None) ->
  exists w' out elapsed wc wr,
    ProcessCSVOptimized LowerCase e csvPath tableName w = (w', None) /\
    relations w' =
      <[tableName := {| rel_columns := snd (derive LowerCase (values_of field fields));
                        rel_rows := [] |}]> (delete tableName (relations w)) /\
    log w' = (log w ++ header_events e csvPath field fields (calls w)
                    ++ [EvCall (Exec (DropTableIfExists tableName)) None;
                        EvCall (Exec (CreateUnloggedTable tableName
                                        (snd (derive LowerCase (values_of field fields)))))
                               None;
                        EvCall Begin None;
                        EvCall (Prepare tableName
                                  (fst (derive LowerCase (values_of field fields)))) None;
                        EvRead (Fail "EOF"); EvCall CopyEnd None; EvCall StmtClose None;
                        EvCall Commit None; EvCall Rollback (Some ErrTxDone);
                        EvClose])%list /\
    stdout w' = (out ++ [OutSummary 0 (Seconds elapsed)
                           (Div (FromInt 0) (Seconds elapsed))])%list /\
    log wc = (log w ++ header_events e csvPath field fields (calls w)
                    ++ [EvCall (Exec (DropTableIfExists tableName)) None;
                        EvCall (Exec (CreateUnloggedTable tableName
                                        (snd (derive LowerCase (values_of field fields)))))
                               None])%list /\
    copyInsert e tableName (fst (derive LowerCase (values_of field fields))) wc
      = (wr, (0, None)).
Proof.
  intros Hfile Hf.
  destruct (load_ok LowerCase e csvPath tableName w field fields [] [])
    as (w' & out & Hrun & Hrel & Hl & Hout & wc & wr & Hlc & Hcopy);
    [exact Hfile | now left | exact Hf |].
  exists w', out. eexists. exists wc, wr. repeat split; eassumption.
Qed.

Lemma empty_input_witness :
  files env_untuned "empty.csv" = inr [Rec "name" ["age"]] /\
  (forall i, (i < 7)%nat -> fault env_untuned (calls world0 + 9 + i) = None) /\
  exists w',
    ProcessCSVOptimized latin1_lower env_untuned "empty.csv" "people" world0 = (w', None) /\
    relations w' !! "people"
      = Some {| rel_columns := ["name TEXT"; "age TEXT"]; rel_rows := [] |}.
Proof.
  assert (forall i, (i < 7)%nat -> fault env_untuned (calls world0 + 9 + i) = None) as Hf
    by reflexivity.
  split; [reflexivity|]. split; [exact Hf|].
  destruct (empty_input latin1_lower env_untuned "empty.csv" "people" world0
              "name" ["age"] eq_refl Hf)
    as (w' & out & elapsed & wc & wr & Hrun & Hrel & _).
  exists w'. split; [exact Hrun|]. rewrite Hrel. vm_compute. reflexivity.
Defined.

Lemma calls_of_app evs1 evs2 : calls_of (evs1 ++ evs2) = (calls_of evs1 ++ calls_of evs2)%list.
Proof. apply flat_map_app. Qed.

Lemma calls_of_cons ev evs :
  calls_of (ev :: evs)
  = (match ev with EvCall c _ => [c] | _ => [] end ++ calls_of evs)%list.
Proof. reflexivity. Qed.

Lemma calls_of_nil : calls_of [] = [].
Proof. reflexivity. Qed.

Ltac calls_norm :=
  repeat (progress (rewrite ?calls_of_app, ?calls_of_cons, ?calls_of_nil));
  cbn [app]; rewrite ?app_nil_r, <- ?app_assoc; cbn [app].

Lemma calls_of_header e csvPath field fields c :
  calls_of (header_events e csvPath field fields c) = tuning.
Proof. reflexivity. Qed.

Lemma copy_events_calls evs : Forall copy_event evs -> Forall copy_call (calls_of evs).
Proof.
  induction 1 as [|ev evs Hev _ IH]; [constructor|].
  destruct ev; cbn in *; try assumption; try contradiction.
  now constructor.
Qed.

(** C4. In every run the statements reach the destination in this order:
    the tuning statements, the unconditional [DROP TABLE IF EXISTS], the
    [CREATE UNLOGGED TABLE] with the columns derived from the header, and only
    then [db.Begin]; every call after [db.Begin] belongs to the copy phase
    (prepare, rows, end of COPY, close, commit, rollback), so both DDL
    statements are outside the transaction.  When the load fails after
    [db.Begin] was called, the relation just created is in place, with its
    columns and no row. *)
Theorem ddl_before_transaction
    (LowerCase : Z -> Z) (e : env) (csvPath tableName : string)
    (w w' : world) (err : option string) :
  ProcessCSVOptimized LowerCase e csvPath tableName w = (w', err) ->
  exists evs,
    log w' = (log w ++ evs)%list /\
    (calls_of evs = [] \/
     exists field fields rest,
       files e csvPath = inr (Rec field fields :: rest) /\
       let columns := snd (derive LowerCase (values_of field fields)) in
       let dropSQL := Exec (DropTableIfExists tableName) in
       let createSQL := Exec (CreateUnloggedTable tableName columns) in
       (calls_of evs = (tuning ++ [dropSQL])%list /\ err <> None) \/
       (calls_of evs = (tuning ++ [dropSQL; createSQL])%list /\ err <> None) \/
       (exists copy,
          calls_of evs = (tuning ++ [dropSQL; createSQL; Begin] ++ copy)%list /\
          Forall copy_call copy /\
          (err <> None ->
             relations w' = <[tableName := fresh columns]> (delete tableName (relations w))))).
Proof.
  intros Hrun. apply ProcessCSVOptimized_spec in Hrun.
  destruct Hrun as [msg w' Hfile Hl Hrel
                   | src msg w' Hfile Hsrc Hl Hrel
                   | field fields rest msg w' Hfile Hf9 Hl Hrel
                   | field fields rest msg w' Hfile Hf9 Hf10 Hl Hrel
                   | field fields rest wc wr n err w' Hfile Hf9 Hf10 Hrc Hcc Hsc Hrelc Hlc
                       Hrun Hl Hrel Hs Hout].
  - eexists. split; [exact Hl|]. now left.
  - eexists. split; [exact Hl|]. now left.
  - eexists. split; [exact Hl|]. right. exists field, fields, rest.
    split; [assumption|]. left. split; [|discriminate].
    rewrite calls_of_app, calls_of_header. reflexivity.
  - eexists. split; [exact Hl|]. right. exists field, fields, rest.
    split; [assumption|]. right. left. split; [|discriminate].
    rewrite calls_of_app, calls_of_header. reflexivity.
  - apply copyInsert_spec in Hrun.
    destruct Hrun as [msg wr Hf Hlr Hrelr Hsr Hrr
                     | evs bad rb msg wr Hf Hlr Hok Hbad Hcopy Hrelr Hsr
                     | pre rest' wr Hrd Heof Hrr Hf Hlr Hrelr Hsr].
    + eexists. split; [rewrite Hl, Hlr, Hlc, <- !app_assoc; reflexivity|].
      right. exists field, fields, rest. split; [assumption|]. right. right.
      exists []. split; [|split; [constructor | intros _; congruence]].
      rewrite calls_of_app, calls_of_header. reflexivity.
    + eexists. split; [rewrite Hl, Hlr, Hlc, <- !app_assoc; reflexivity|].
      right. exists field, fields, rest. split; [assumption|]. right. right.
      exists (calls_of (evs ++ [bad]) ++ [Rollback])%list.
      split; [|split; [|intros _; congruence]].
      * rewrite calls_of_app, calls_of_header. f_equal. calls_norm. reflexivity.
      * apply Forall_app. split; [now apply copy_events_calls | repeat constructor].
    + eexists. split; [rewrite Hl, Hlr, Hlc, <- !app_assoc; reflexivity|].
      right. exists field, fields, rest. split; [assumption|]. right. right.
      exists (Prepare tableName (fst (derive LowerCase (values_of field fields)))
                :: calls_of (copied pre) ++ [CopyEnd; StmtClose; Commit; Rollback])%list.
      split; [|split; [|intros H; contradiction]].
      * rewrite calls_of_app, calls_of_header. f_equal. calls_norm. reflexivity.
      * constructor; [exact I|]. apply Forall_app.
        split; [apply copy_events_calls, copied_copy_events | repeat constructor].
Qed.

Lemma ddl_before_transaction_witness :
  ProcessCSVOptimized latin1_lower (env_reject 13 "pq: invalid input")
                      "people.csv" "people" world0
  = (fst (ProcessCSVOptimized latin1_lower (env_reject 13 "pq: invalid input")
                              "people.csv" "people" world0),
     Some "error copying line 1: pq: invalid input") /\
  (exists evs,
     log (fst (ProcessCSVOptimized latin1_lower (env_reject 13 "pq: invalid input")
                                   "people.csv" "people" world0))
     = (log world0 ++ evs)%list) /\
  relations (fst (ProcessCSVOptimized latin1_lower (env_reject 13 "pq: invalid input")
                                      "people.csv" "people" world0)) !! "people"
  = Some (fresh ["name TEXT"; "age TEXT"]).
Proof.
  assert (ProcessCSVOptimized latin1_lower (env_reject 13 "pq: invalid input")
                              "people.csv" "people" world0
          = (fst (ProcessCSVOptimized latin1_lower (env_reject 13 "pq: invalid input")
                                      "people.csv" "people" world0),
             Some "error copying line 1: pq: invalid input")) as H
    by (vm_compute; reflexivity).
  split; [exact H|]. split; [|vm_compute; reflexivity].
  destruct (ddl_before_transaction _ _ _ _ _ _ _ H) as (evs & Hl & _).
  exists evs. exact Hl.
Defined.

Lemma count_if_app p evs1 evs2 :
  count_if p (evs1 ++ evs2) = (count_if p evs1 + count_if p evs2)%nat.
Proof.
  induction evs1 as [|ev evs1 IH]; [reflexivity|].
  cbn [app count_if]. rewrite IH. lia.
Qed.

Lemma count_copied pre :
  count_if is_row (copied pre) = length pre /\
  count_if is_record (copied pre) = length pre /\
  count_if is_copy_end (copied pre) = 0%nat.
Proof.
  induction pre as [|[field fields] pre (IH1 & IH2 & IH3)]; [auto|].
  cbn [copied flat_map app count_if length is_row is_record is_copy_end fst snd].
  fold (copied pre). rewrite IH1, IH2, IH3. auto.
Qed.

(** C3 as the code has it.  On every successful load the last line
    written to standard output carries the record count and the rate; the
    count is the number of rows submitted with [stmt.Exec(values...)] (below
    2^63, the range of [int]), which is the number of records read less the
    header, the closing [stmt.Exec()] not among them; the rate is
    [float64(count) / elapsed.Seconds()] for the time elapsed since the
    start.  The function itself returns [nil] and nothing else. *)
Theorem final_report
    (LowerCase : Z -> Z) (e : env) (csvPath tableName : string) (w w' : world) :
  ProcessCSVOptimized LowerCase e csvPath tableName w = (w', None) ->
  exists evs out elapsed,
    log w' = (log w ++ evs)%list /\
    count_if is_record evs = S (count_if is_row evs) /\
    count_if is_copy_end evs = 1%nat /\
    elapsed = Sub (clock e (ticks w' - 1)) (clock e (ticks w)) /\
    (Z.of_nat (count_if is_row evs) < 2 ^ 63 ->
     stdout w' =
       (out ++ [OutSummary (Z.of_nat (count_if is_row evs)) (Seconds elapsed)
                  (Div (FromInt (Z.of_nat (count_if is_row evs))) (Seconds elapsed))])%list).
Proof.
  intros Hrun. apply ProcessCSVOptimized_spec in Hrun.
  inversion Hrun as [ | | | | field fields rest wc wr n err0 w0 Hfile Hf9 Hf10 Hrc Hcc Hsc
                              Hrelc Hlc Hcopy Hl Hrel Hs Hout]; subst.
  apply copyInsert_spec in Hcopy.
  inversion Hcopy as [ | | pre rest' wr0 Hrd Heof Hrr Hf Hlr Hrelr Hsr]; subst.
  destruct Hout as [out Hout].
  exists (header_events e csvPath field fields (calls w)
            ++ [EvCall (Exec (DropTableIfExists tableName)) None;
                EvCall (Exec (CreateUnloggedTable tableName
                                (snd (derive LowerCase (values_of field fields))))) None]
            ++ ([EvCall Begin None;
                 EvCall (Prepare tableName (fst (derive LowerCase (values_of field fields))))
                        None]
                  ++ copied pre
                  ++ [EvRead (Fail "EOF"); EvCall CopyEnd None; EvCall StmtClose None;
                      EvCall Commit None; EvCall Rollback (Some ErrTxDone)])
            ++ [EvClose])%list, out.
  eexists. split; [|split; [|split; [|split; [reflexivity|]]]].
  - rewrite Hl, Hlr, Hlc. rewrite <- !app_assoc. reflexivity.
  - rewrite !count_if_app. destruct (count_copied pre) as (-> & -> & _).
    change (count_if is_record (header_events e csvPath field fields (calls w))) with 1%nat.
    change (count_if is_row (header_events e csvPath field fields (calls w))) with 0%nat.
    cbn. lia.
  - rewrite !count_if_app. destruct (count_copied pre) as (_ & _ & ->).
    change (count_if is_copy_end (header_events e csvPath field fields (calls w))) with 0%nat.
    reflexivity.
  - rewrite !count_if_app. destruct (count_copied pre) as (-> & _ & _).
    change (count_if is_row (header_events e csvPath field fields (calls w))) with 0%nat.
    cbn [count_if is_row Nat.add]. rewrite !Nat.add_0_r. intros Hk.
    rewrite bump_small in Hout by lia. rewrite ?Z.add_0_l in Hout. exact Hout.
Qed.

Lemma final_report_witness :
  ProcessCSVOptimized latin1_lower env_ok "people.csv" "people" world0
  = (fst (ProcessCSVOptimized latin1_lower env_ok "people.csv" "people" world0), None) /\
  exists evs,
    log (fst (ProcessCSVOptimized latin1_lower env_ok "people.csv" "people" world0))
      = (log world0 ++ evs)%list /\
    count_if is_record evs = S (count_if is_row evs).
Proof.
  assert (ProcessCSVOptimized latin1_lower env_ok "people.csv" "people" world0
          = (fst (ProcessCSVOptimized latin1_lower env_ok "people.csv" "people" world0), None))
    as H by (vm_compute; reflexivity).
  split; [exact H|].
  destruct (final_report _ _ _ _ _ _ H) as (evs & out & elapsed & Hl & Hn & _).
  exists evs. auto.
Defined.

(** The claim C3 as stated has the report returned to the caller.  Two
    loads that succeed, one submitting two rows and one submitting none,
    return the same value, so no record count can be read from what
    [ProcessCSVOptimized] returns. *)
Lemma report_not_returned :
  let run := fun csvPath =>
    ProcessCSVOptimized latin1_lower env_ok csvPath "people" world0 in
  snd (run "people.csv") = None /\
  snd (run "empty.csv") = None /\
  count_if is_row (log (fst (run "people.csv"))) = 2%nat /\
  count_if is_row (log (fst (run "empty.csv"))) = 0%nat /\
  ~ exists record_count : option string -> Z,
      record_count (snd (run "people.csv")) = 2 /\
      record_count (snd (run "empty.csv")) = 0.
Proof.
  cbv zeta. repeat split; try (vm_compute; reflexivity).
  intros (record_count & H2 & H0).
  change (snd (ProcessCSVOptimized latin1_lower env_ok "people.csv" "people" world0))
    with (@None string) in H2.
  change (snd (ProcessCSVOptimized latin1_lower env_ok "empty.csv" "people" world0))
    with (@None string) in H0.
  rewrite H2 in H0. discriminate.
Qed.

(** ** What the log and the tuning answers cannot change *)

Lemma erase_eq w1 w2 :
  erase w1 = erase w2 <->
  relations w1 = relations w2 /\ session w1 = session w2 /\ reader w1 = reader w2 /\
  calls w1 = calls w2 /\ ticks w1 = ticks w2 /\ stdout w1 = stdout w2.
Proof.
  unfold erase. split.
  - intros [= ? ? ? ? ? ?]. auto 10.
  - intros (-> & -> & -> & -> & -> & ->). reflexivity.
Qed.

Section Simulation.

Variables e e' : env.
Hypothesis same_clock : forall n, clock e n = clock e' n.

Lemma sim_db_call c w1 w2 w1' r :
  erase w1 = erase w2 ->
  fault e (calls w1) = fault e' (calls w1) ->
  db_call e c w1 = (w1', r) ->
  exists w2', db_call e' c w2 = (w2', r) /\ erase w1' = erase w2' /\
              calls w1' = S (calls w1).
Proof.
  intros Hsim Hf Hrun. apply erase_eq in Hsim as (Hrel & Hs & Hr & Hc & Ht & Ho).
  assert (outcome e' c w2 = outcome e c w1) as Hout.
  { unfold outcome. now rewrite <- Hs, <- Hc, Hf. }
  pose proof (db_call_frame e c w1) as (_ & Hcalls & _). rewrite Hrun in Hcalls.
  unfold db_call in *. rewrite Hout. injection Hrun as <- <-.
  eexists. split; [reflexivity|]. split; [|exact Hcalls].
  apply erase_eq.
  destruct (outcome e c w1); destruct c as [[]| | | | | | |]; cbn;
    rewrite <- ?Hs, <- ?Hrel, <- ?Hr, <- ?Hc, <- ?Ht, <- ?Ho;
    destruct (session w1) eqn:Es; cbn; rewrite ?Es; auto 10.
Qed.

Lemma sim_tuning sqls w1 w2 :
  erase w1 = erase w2 ->
  erase (optimize_loop e sqls w1) = erase (optimize_loop e' sqls w2).
Proof.
  intros Hsim.
  destruct (optimize_loop_spec e sqls w1) as (H1 & H2 & H3 & H4 & H5 & H6 & _).
  destruct (optimize_loop_spec e' sqls w2) as (K1 & K2 & K3 & K4 & K5 & K6 & _).
  apply erase_eq in Hsim as (Hrel & Hs & Hr & Hc & Ht & Ho).
  apply erase_eq. cbn zeta in *. repeat split; congruence.
Qed.

Lemma sim_Read w1 w2 :
  erase w1 = erase w2 ->
  erase (fst (Read w1)) = erase (fst (Read w2)) /\ snd (Read w1) = snd (Read w2) /\
  calls (fst (Read w1)) = calls w1.
Proof.
  intros Hsim. apply erase_eq in Hsim as (Hrel & Hs & Hr & Hc & Ht & Ho).
  unfold Read. rewrite <- Hr.
  destruct (reader w1) eqn:Er; cbn; rewrite erase_eq; cbn; rewrite ?Er;
    repeat split; congruence.
Qed.

Lemma sim_loop startTime rd n w1 w2 w1' r :
  erase w1 = erase w2 ->
  (forall k, (calls w1 <= k)%nat -> fault e k = fault e' k) ->
  copy_loop e startTime rd n w1 = (w1', r) ->
  exists w2', copy_loop e' startTime rd n w2 = (w2', r) /\ erase w1' = erase w2' /\
              (calls w1 <= calls w1')%nat.
Proof.
  revert n w1 w2. induction rd as [|res rd IH]; intros n w1 w2 Hsim Hf.
  - cbn [copy_loop]. destruct (sim_Read w1 w2 Hsim) as (Hsr & _ & Hcr).
    destruct (Read w1) as [wa ra], (Read w2) as [wb rb]. cbn [fst snd] in *.
    intros [= <- <-]. exists wb. split; [reflexivity|]. split; [assumption | lia].
  - cbn [copy_loop]. destruct (sim_Read w1 w2 Hsim) as (Hsr & _ & Hcr).
    destruct (Read w1) as [wa ra], (Read w2) as [wb rb]. cbn [fst snd] in *.
    destruct res as [field fields | msg].
    + destruct (db_call e (CopyRow (values_of field fields)) wa) as [wa1 ea] eqn:Ea.
      destruct (sim_db_call (CopyRow (values_of field fields)) wa wb wa1 ea Hsr)
        as (wb1 & -> & Hs1 & Hc1);
        [apply Hf; lia | exact Ea |].
      destruct ea as [m|].
      * intros [= <- <-]. exists wb1. split; [reflexivity|]. split; [assumption | lia].
      * intros Hrun.
        match type of Hrun with
        | copy_loop e startTime rd ?n1 ?wx = _ =>
          destruct (IH n1 wx
                      (if Z.rem n1 100000 =? 0
                       then let '(w, elapsed) := Since e' startTime wb1 in
                            Println (OutProgress n1 (Div (FromInt n1) (Seconds elapsed))) w
                       else wb1)) as (w2' & Hrun2 & Hs2 & Hc2); [ | | exact Hrun | ]
        end.
        -- destruct (Z.rem (wrap64 (n + 1)) 100000 =? 0); [|assumption].
           unfold Since, Now. cbn [fst snd]. rewrite same_clock.
           apply erase_eq in Hs1 as (? & ? & ? & ? & ? & ?).
           apply erase_eq. cbn. repeat split; congruence.
        -- intros k Hk. apply Hf.
           destruct (Z.rem (wrap64 (n + 1)) 100000 =? 0); cbn in Hk; lia.
        -- exists w2'. split; [exact Hrun2|]. split; [assumption|].
           destruct (Z.rem (wrap64 (n + 1)) 100000 =? 0); cbn in Hc2; lia.
    + destruct (String.eqb msg "EOF");
        intros [= <- <-]; exists wb; (split; [reflexivity|]); split; (assumption || lia).
Qed.


Lemma sim_copy_finish n w1 w2 w1' r :
  erase w1 = erase w2 ->
  (forall k, (calls w1 <= k)%nat -> fault e k = fault e' k) ->
  copy_finish e n w1 = (w1', r) ->
  exists w2', copy_finish e' n w2 = (w2', r) /\ erase w1' = erase w2'.
Proof.
  intros Hsim Hf. unfold copy_finish.
  destruct (db_call e CopyEnd w1) as [wa ea] eqn:Ea.
  destruct (sim_db_call CopyEnd w1 w2 wa ea Hsim) as (wb & -> & Hs1 & Hc1);
    [apply Hf; lia | exact Ea |].
  destruct ea; [intros [= <- <-]; eauto|].
  destruct (db_call e StmtClose wa) as [wa2 ea2] eqn:Ea2.
  destruct (sim_db_call StmtClose wa wb wa2 ea2 Hs1) as (wb2 & -> & Hs2 & Hc2);
    [apply Hf; lia | exact Ea2 |].
  destruct ea2; [intros [= <- <-]; eauto|].
  destruct (db_call e Commit wa2) as [wa3 ea3] eqn:Ea3.
  destruct (sim_db_call Commit wa2 wb2 wa3 ea3 Hs2) as (wb3 & -> & Hs3 & Hc3);
    [apply Hf; lia | exact Ea3 |].
  destruct ea3; intros [= <- <-]; eauto.
Qed.

Lemma sim_copyInsert tableName headers w1 w2 w1' r :
  erase w1 = erase w2 ->
  (forall k, (calls w1 <= k)%nat -> fault e k = fault e' k) ->
  copyInsert e tableName headers w1 = (w1', r) ->
  exists w2', copyInsert e' tableName headers w2 = (w2', r) /\ erase w1' = erase w2'.
Proof.
  intros Hsim Hf. unfold copyInsert.
  destruct (db_call e Begin w1) as [wa ea] eqn:Ea.
  destruct (sim_db_call Begin w1 w2 wa ea Hsim) as (wb & -> & Hs1 & Hc1);
    [apply Hf; lia | exact Ea |].
  destruct ea; [intros [= <- <-]; eauto|].
  assert (exists wb2, copy_body e' tableName headers wb
                      = (wb2, snd (copy_body e tableName headers wa)) /\
                      erase (fst (copy_body e tableName headers wa)) = erase wb2 /\
                      (calls wa <= calls (fst (copy_body e tableName headers wa)))%nat)
    as (wb2 & Hbody & Hs2 & Hc2).
  { unfold copy_body.
    destruct (db_call e (Prepare tableName headers) wa) as [wp ep] eqn:Ep.
    destruct (sim_db_call (Prepare tableName headers) wa wb wp ep Hs1)
      as (wq & -> & Hsp & Hcp); [apply Hf; lia | exact Ep |].
    destruct ep; [cbn; eexists; repeat split; [assumption | lia]|].
    unfold Now. cbn [fst snd].
    assert (erase (Println OutStarting (ticked wp)) = erase (Println OutStarting (ticked wq)))
      as Hs0.
    { apply erase_eq in Hsp as (? & ? & ? & ? & ? & ?). apply erase_eq. cbn.
      repeat split; congruence. }
    assert (ticks wp = ticks wq) as Ht by (apply erase_eq in Hsp; tauto).
    rewrite <- same_clock, <- Ht.
    assert (reader (Println OutStarting (ticked wp)) = reader (Println OutStarting (ticked wq)))
      as Hr0 by (apply erase_eq in Hs0; tauto).
    rewrite <- Hr0.
    destruct (copy_loop e (clock e (ticks wp)) (reader (Println OutStarting (ticked wp))) 0
                (Println OutStarting (ticked wp))) as [wl rl] eqn:El.
    destruct (sim_loop _ _ _ _ (Println OutStarting (ticked wq)) _ _ Hs0 ltac:(cbn; intros; apply Hf; lia) El)
      as (wm & -> & Hsl & Hcl).
    cbn in Hcl.
    destruct rl as [cnt | msg]; [|cbn; eexists; repeat split; [assumption | lia]].
    destruct (copy_finish e cnt wl) as [wf rf] eqn:Ef.
    destruct (sim_copy_finish cnt wl wm wf rf Hsl) as (wg & -> & Hsf);
      [intros; apply Hf; lia | exact Ef |].
    cbn. eexists. repeat split; [assumption|].
    pose proof Ef as Ef'. unfold copy_finish in Ef'.
    repeat match type of Ef' with
           | context [db_call e ?c ?x] =>
             let F := fresh "F" in
             pose proof (db_call_frame e c x) as (_ & F & _);
             destruct (db_call e c x) as [? []]; cbn [fst snd] in *
           end;
      injection Ef' as <- _; lia. }
  destruct (copy_body e tableName headers wa) as [wa2 ra2]. cbn [fst snd] in *.
  rewrite Hbody.
  destruct (db_call e Rollback wa2) as [wa3 ea3] eqn:Ea3.
  destruct (sim_db_call Rollback wa2 wb2 wa3 ea3 Hs2) as (wb3 & -> & Hs3 & Hc3);
    [apply Hf; lia | exact Ea3 |].
  intros [= <- <-]. eauto.
Qed.

(** What [ProcessCSVOptimized] returns and what it leaves behind do not
    depend on the answers to the tuning statements. *)
Lemma sim_process LowerCase csvPath tableName w :
  (forall p, files e p = files e' p) ->
  (forall n, (calls w + 9 <= n)%nat -> fault e n = fault e' n) ->
  snd (ProcessCSVOptimized LowerCase e csvPath tableName w)
    = snd (ProcessCSVOptimized LowerCase e' csvPath tableName w) /\
  erase (fst (ProcessCSVOptimized LowerCase e csvPath tableName w))
    = erase (fst (ProcessCSVOptimized LowerCase e' csvPath tableName w)).
Proof.
  intros Hfiles Hf. unfold ProcessCSVOptimized, Now, Open. cbn [fst snd].
  rewrite <- Hfiles, <- same_clock.
  destruct (files e csvPath) as [msg | src]; [auto|].
  unfold process_body, Read. cbn [reader with_reader logged ticked].
  destruct src as [|[field fields | msg] rest]; [cbn; auto | | cbn; auto].
  unfold optimizeForBulkInsert. cbn [fst snd].
  match goal with
  | |- context [optimize_loop e optimizations ?w0] => set (w2 := w0)
  end.
  assert (calls w2 = calls w) as Hc2 by reflexivity.
  pose proof (sim_tuning optimizations w2 w2 eq_refl) as Hsim.
  pose proof (optimize_loop_spec e optimizations w2) as (_ & _ & _ & Hc3 & _).
  cbn zeta in Hc3. change (length optimizations) with 9%nat in Hc3.
  clearbody w2.
  set (wa := optimize_loop e optimizations w2) in *.
  set (wb := optimize_loop e' optimizations w2) in *.
  clearbody wa wb.
  assert (erase (Println OutOptimized wa) = erase (Println OutOptimized wb)) as Hs0.
  { apply erase_eq in Hsim as (? & ? & ? & ? & ? & ?). apply erase_eq. cbn.
    repeat split; congruence. }
  destruct (db_call e (Exec (DropTableIfExists tableName)) (Println OutOptimized wa))
    as [wa1 ea1] eqn:Ea1.
  destruct (sim_db_call (Exec (DropTableIfExists tableName)) _ (Println OutOptimized wb)
              wa1 ea1 Hs0) as (wb1 & -> & Hs1 & Hc1);
    [apply Hf; cbn; lia | exact Ea1 |].
  cbn in Hc1.
  destruct ea1; [cbn; split; [reflexivity|]|].
  { apply erase_eq in Hs1 as (? & ? & ? & ? & ? & ?). apply erase_eq. cbn.
    repeat split; congruence. }
  destruct (derive LowerCase (values_of field fields)) as [cleanHeaders columns].
  assert (erase (Println (OutCreating tableName) wa1)
          = erase (Println (OutCreating tableName) wb1)) as Hs1'.
  { apply erase_eq in Hs1 as (? & ? & ? & ? & ? & ?). apply erase_eq. cbn.
    repeat split; congruence. }
  destruct (db_call e (Exec (CreateUnloggedTable tableName columns))
              (Println (OutCreating tableName) wa1)) as [wa2 ea2] eqn:Ea2.
  destruct (sim_db_call (Exec (CreateUnloggedTable tableName columns)) _
              (Println (OutCreating tableName) wb1) wa2 ea2 Hs1')
    as (wb2 & -> & Hs2 & Hc2'); [apply Hf; cbn; lia | exact Ea2 |].
  cbn in Hc2'.
  destruct ea2; [cbn; split; [reflexivity|]|].
  { apply erase_eq in Hs2 as (? & ? & ? & ? & ? & ?). apply erase_eq. cbn.
    repeat split; congruence. }
  destruct (copyInsert e tableName cleanHeaders wa2) as [wa3 [n3 ea3]] eqn:Ea3.
  destruct (sim_copyInsert tableName cleanHeaders wa2 wb2 wa3 (n3, ea3) Hs2)
    as (wb3 & -> & Hs3); [intros; apply Hf; lia | exact Ea3 |].
  destruct ea3; [cbn; split; [reflexivity|]|].
  { apply erase_eq in Hs3 as (? & ? & ? & ? & ? & ?). apply erase_eq. cbn.
    repeat split; congruence. }
  unfold Since, Now. cbn [fst snd].
  apply erase_eq in Hs3 as (? & ? & ? & ? & Ht3 & ?).
  rewrite <- same_clock, <- Ht3. split; [reflexivity|].
  apply erase_eq. cbn. repeat split; congruence.
Qed.

End Simulation.

(** C5. Tuning is best effort.  Whatever the destination answers, the
    tuning step sends its nine statements in order, each one whether or not
    the ones before were rejected, writes nothing about a rejection, changes
    no relation and returns no error; and the answers to the tuning
    statements have no bearing on what the load returns, on the relations it
    leaves or on what it writes: two destinations that differ only in these
    answers give the same result. *)
Theorem tuning_best_effort
    (LowerCase : Z -> Z) (e e' : env) (csvPath tableName : string) (w : world) :
  same_but_tuning (calls w) e e' ->
  (snd (optimizeForBulkInsert e w) = None /\
   log (fst (optimizeForBulkInsert e w)) = (log w ++ tuning_events e (calls w))%list /\
   calls_of (tuning_events e (calls w)) = tuning /\
   relations (fst (optimizeForBulkInsert e w)) = relations w /\
   stdout (fst (optimizeForBulkInsert e w)) = (stdout w ++ [OutOptimized])%list) /\
  snd (ProcessCSVOptimized LowerCase e csvPath tableName w)
    = snd (ProcessCSVOptimized LowerCase e' csvPath tableName w) /\
  relations (fst (ProcessCSVOptimized LowerCase e csvPath tableName w))
    = relations (fst (ProcessCSVOptimized LowerCase e' csvPath tableName w)) /\
  stdout (fst (ProcessCSVOptimized LowerCase e csvPath tableName w))
    = stdout (fst (ProcessCSVOptimized LowerCase e' csvPath tableName w)).
Proof.
  intros (Hf & Hfiles & Hclock). split.
  - destruct (optimizeForBulkInsert_spec e w) as (H1 & H2 & _ & _ & _ & _ & H7 & H8).
    repeat split; assumption.
  - destruct (sim_process e e' Hclock LowerCase csvPath tableName w Hfiles Hf) as [Hr Hs].
    split; [exact Hr|]. apply erase_eq in Hs. tauto.
Qed.

Lemma tuning_best_effort_witness :
  same_but_tuning (calls world0) env_untuned env_ok /\
  snd (ProcessCSVOptimized latin1_lower env_untuned "people.csv" "people" world0)
    = snd (ProcessCSVOptimized latin1_lower env_ok "people.csv" "people" world0) /\
  snd (ProcessCSVOptimized latin1_lower env_untuned "people.csv" "people" world0) = None.
Proof.
  assert (same_but_tuning (calls world0) env_untuned env_ok) as H.
  { split; [|split; reflexivity].
    intros n Hn. cbn in Hn.
    change (fault env_untuned n)
      with (if Nat.ltb n 9 then Some "pq: permission denied" else None).
    destruct (Nat.ltb_spec n 9); [lia | reflexivity]. }
  split; [exact H|]. split; [|vm_compute; reflexivity].
  exact (proj1 (proj2 (tuning_best_effort latin1_lower env_untuned env_ok
                         "people.csv" "people" world0 H))).
Defined.

(** ** Further properties of the loader *)

Lemma db_call_good e c w :
  c <> Rollback -> fault e (calls w) = None ->
  exists w1,
    db_call e c w = (w1, None) /\
    reader w1 = reader w /\ calls w1 = S (calls w) /\
    ticks w1 = ticks w /\ stdout w1 = stdout w /\
    log w1 = (log w ++ [EvCall c None])%list /\
    relations w1 = relations (accept c w) /\ session w1 = session (accept c w).
Proof.
  intros Hc Hf. destruct (db_call e c w) as [w1 err] eqn:E.
  apply db_call_inv in E as (-> & ? & ? & ? & ? & ? & Hd); [|assumption].
  rewrite Hf in *. destruct Hd. exists w1. auto 10.
Qed.

Lemma db_call_bad e c w msg :
  c <> Rollback -> fault e (calls w) = Some msg ->
  exists w1,
    db_call e c w = (w1, Some msg) /\
    reader w1 = reader w /\ calls w1 = S (calls w) /\
    ticks w1 = ticks w /\ stdout w1 = stdout w /\
    log w1 = (log w ++ [EvCall c (Some msg)])%list /\
    relations w1 = relations w /\
    session w1 = match c with Commit => None | _ => session w end.
Proof.
  intros Hc Hf. destruct (db_call e c w) as [w1 err] eqn:E.
  apply db_call_inv in E as (-> & ? & ? & ? & ? & ? & Hd); [|assumption].
  rewrite Hf in *. destruct Hd. exists w1. auto 10.
Qed.

Lemma rollback_full e w :
  exists w' rb,
    db_call e Rollback w = (w', rb) /\
    relations w' = relations w /\ session w' = None /\ reader w' = reader w /\
    calls w' = S (calls w) /\ ticks w' = ticks w /\ stdout w' = stdout w /\
    log w' = (log w ++ [EvCall Rollback rb])%list /\
    (session w = None -> rb = Some ErrTxDone).
Proof.
  destruct (db_call e Rollback w) as [w' rb] eqn:E.
  pose proof (db_call_frame e Rollback w) as (_ & Hc & Ht & Ho & _).
  rewrite E in Hc, Ht, Ho. cbn [fst] in Hc, Ht, Ho.
  apply rollback_inv in E as (Hrel & Hs & Hr & Hl & Hdone).
  exists w', rb. auto 10.
Qed.

(** X2. A load touches one relation only.  On every run of
    [ProcessCSVOptimized], whatever it returns, a relation whose name is not
    the table name is exactly what it was. *)
Theorem other_relations_untouched
    (LowerCase : Z -> Z) (e : env) (csvPath tableName : string)
    (w w' : world) (err : option string) (name : string) :
  ProcessCSVOptimized LowerCase e csvPath tableName w = (w', err) ->
  name <> tableName ->
  relations w' !! name = relations w !! name.
Proof.
  intros Hrun Hne. apply ProcessCSVOptimized_spec in Hrun.
  destruct Hrun as [msg w' Hfile Hl Hrel
                   | src msg w' Hfile Hsrc Hl Hrel
                   | field fields rest msg w' Hfile Hf9 Hl Hrel
                   | field fields rest msg w' Hfile Hf9 Hf10 Hl Hrel
                   | field fields rest wc wr n err w' Hfile Hf9 Hf10 Hrc Hcc Hsc Hrelc Hlc
                       Hrun Hl Hrel Hs Hout].
  - now rewrite Hrel.
  - now rewrite Hrel.
  - now rewrite Hrel.
  - rewrite Hrel. apply lookup_delete_ne. congruence.
  - assert (relations wc !! name = relations w !! name) as Hc.
    { rewrite Hrelc, lookup_insert_ne, lookup_delete_ne by congruence. reflexivity. }
    rewrite Hrel, <- Hc. apply copyInsert_spec in Hrun.
    destruct Hrun as [msg wr Hf Hlr Hrelr Hsr Hrr
                     | evs bad rb msg wr Hf Hlr Hok Hbad Hcopy Hrelr Hsr
                     | pre rest' wr Hrd Heof Hrr Hf Hlr Hrelr Hsr];
      rewrite Hrelr; [reflexivity | reflexivity |].
    apply lookup_alter_ne. congruence.
Qed.

Lemma other_relations_untouched_witness :
  relations (fst (ProcessCSVOptimized latin1_lower env_ok "people.csv" "staff"
                                      (reading []))) !! "people"
  = Some {| rel_columns := ["name TEXT"; "age TEXT"]; rel_rows := [] |}.
Proof.
  rewrite (other_relations_untouched latin1_lower env_ok "people.csv" "staff" (reading [])
             (fst (ProcessCSVOptimized latin1_lower env_ok "people.csv" "staff" (reading [])))
             (snd (ProcessCSVOptimized latin1_lower env_ok "people.csv" "staff" (reading [])))
             "people").
  - vm_compute. reflexivity.
  - apply surjective_pairing.
  - discriminate.
Defined.

(** X4. Without a header nothing reaches the destination.  When the path
    cannot be opened the load returns "impossible to open <path>: <cause>"
    and the file is not closed, since it was never open; when the first read
    fails, and an empty file fails it with "EOF", the load returns
    "error reading header: <cause>" and closes the file.  In both cases no
    statement is sent, not even the tuning ones, nothing is printed, and the
    relations and the session are what they were. *)
Theorem no_header_no_call
    (LowerCase : Z -> Z) (e : env) (csvPath tableName : string)
    (w w' : world) (err : option string) :
  ProcessCSVOptimized LowerCase e csvPath tableName w = (w', err) ->
  (forall field fields rest, files e csvPath <> inr (Rec field fields :: rest)) ->
  relations w' = relations w /\ session w' = session w /\ calls w' = calls w /\
  stdout w' = stdout w /\
  ((exists msg,
      files e csvPath = inl msg /\
      err = Some ("impossible to open " ++ csvPath ++ ": " ++ msg) /\
      log w' = (log w ++ [EvOpen csvPath (Some msg)])%list) \/
   (exists msg,
      ((files e csvPath = inr [] /\ msg = "EOF") \/
       (exists rest, files e csvPath = inr (Fail msg :: rest))) /\
      err = Some ("error reading header: " ++ msg) /\
      log w' = (log w ++ [EvOpen csvPath None; EvRead (Fail msg); EvClose])%list)).
Proof.
  intros Hrun Hno. revert Hrun.
  unfold ProcessCSVOptimized, Now, Open. cbn [fst snd].
  destruct (files e csvPath) as [msg | src] eqn:Hfile.
  { intros [= <- <-]. cbn. repeat split. left. exists msg. auto. }
  unfold process_body, Read. cbn [reader with_reader logged ticked].
  destruct src as [|[field fields | msg] rest].
  - intros [= <- <-]. cbn. repeat split. right. exists "EOF".
    rewrite <- !app_assoc. auto.
  - destruct (Hno field fields rest eq_refl).
  - intros [= <- <-]. cbn. repeat split. right. exists msg.
    rewrite <- !app_assoc. eauto 10.
Qed.

Lemma no_header_no_call_witness :
  snd (ProcessCSVOptimized latin1_lower env_ok "missing.csv" "people" (reading []))
  = Some "impossible to open missing.csv: open missing.csv: no such file or directory" /\
  calls (fst (ProcessCSVOptimized latin1_lower env_ok "missing.csv" "people" (reading [])))
  = calls (reading []).
Proof.
  split; [vm_compute; reflexivity|].
  refine (proj1 (proj2 (proj2
            (no_header_no_call latin1_lower env_ok "missing.csv" "people" (reading [])
               _ _ (surjective_pairing _) _)))).
  intros field fields rest. vm_compute. discriminate.
Defined.

(** X5. A rejected [DROP TABLE] or [CREATE TABLE] ends the load before any
    transaction.  When the destination rejects the drop, the load returns
    "error dropping table: <cause>", the create is never sent and the
    relations are what they were.  When it accepts the drop and rejects the
    create, the load returns "error creating table: <cause>" and the relation
    of that name is gone: what the drop removed is not put back.  In both
    cases the rejected statement is the last call. *)
Theorem ddl_rejected
    (LowerCase : Z -> Z) (e : env) (csvPath tableName : string) (w : world)
    (field : string) (fields : list string) (rest : list read_result) (msg : string) :
  files e csvPath = inr (Rec field fields :: rest) ->
  (fault e (calls w + 9) = Some msg ->
   exists w',
     ProcessCSVOptimized LowerCase e csvPath tableName w
       = (w', Some ("error dropping table: " ++ msg)) /\
     relations w' = relations w /\
     log w' = (log w ++ header_events e csvPath field fields (calls w)
                     ++ [EvCall (Exec (DropTableIfExists tableName)) (Some msg);
                         EvClose])%list) /\
  (fault e (calls w + 9) = None -> fault e (calls w + 10) = Some msg ->
   exists w',
     ProcessCSVOptimized LowerCase e csvPath tableName w
       = (w', Some ("error creating table: " ++ msg)) /\
     relations w' = delete tableName (relations w) /\
     relations w' !! tableName = None /\
     log w' = (log w ++ header_events e csvPath field fields (calls w)
                     ++ [EvCall (Exec (DropTableIfExists tableName)) None;
                         EvCall (Exec (CreateUnloggedTable tableName
                                         (snd (derive LowerCase (values_of field fields)))))
                                (Some msg);
                         EvClose])%list).
Proof.
  intros Hfile.
  destruct (ProcessCSVOptimized LowerCase e csvPath tableName w) as [w' err] eqn:E.
  apply ProcessCSVOptimized_spec in E.
  destruct E as [msg' w' Hfile' Hl Hrel
                | src msg' w' Hfile' Hsrc Hl Hrel
                | field' fields' rest' msg' w' Hfile' Hf9 Hl Hrel
                | field' fields' rest' msg' w' Hfile' Hf9 Hf10 Hl Hrel
                | field' fields' rest' wc wr n err w' Hfile' Hf9 Hf10 Hrc Hcc Hsc Hrelc Hlc
                    Hrun Hl Hrel Hs Hout].
  - congruence.
  - rewrite Hfile in Hfile'. injection Hfile' as <-.
    destruct Hsrc as [[? _] | [? ?]]; discriminate.
  - rewrite Hfile in Hfile'. injection Hfile' as <- <- <-. split.
    + intros Hbad. rewrite Hf9 in Hbad. injection Hbad as ->. exists w'. auto.
    + intros Hok. congruence.
  - rewrite Hfile in Hfile'. injection Hfile' as <- <- <-. split.
    + intros Hbad. congruence.
    + intros _ Hbad. rewrite Hf10 in Hbad. injection Hbad as ->. exists w'.
      repeat split; try assumption. rewrite Hrel. apply lookup_delete_eq.
  - split; intros; congruence.
Qed.

Lemma ddl_rejected_witness :
  exists w',
    ProcessCSVOptimized latin1_lower (env_reject 10 "pq: permission denied")
                        "people.csv" "people" (reading [])
      = (w', Some "error creating table: pq: permission denied") /\
    relations w' !! "people" = None.
Proof.
  destruct (proj2 (ddl_rejected latin1_lower (env_reject 10 "pq: permission denied")
                     "people.csv" "people" (reading []) "name" ["age"]
                     [Rec "Ada" ["36"]; Rec "Alan" ["41"]] "pq: permission denied" eq_refl)
              eq_refl eq_refl)
    as (w' & Hrun & _ & Hgone & _).
  exists w'. split; assumption.
Defined.

(** X6. A transaction that cannot be set up reads nothing.  When
    [db.Begin] is rejected, [copyInsert] returns 0 and
    "error starting transaction: <cause>" after this one call: no rollback is
    issued, the session is what it was.  When [db.Begin] is accepted and the
    COPY cannot be prepared, it returns 0 and "error preparing COPY: <cause>",
    and the deferred rollback ends the transaction.  In both cases no record
    is read from the source, nothing is printed, and the relations are what
    they were. *)
Theorem copy_setup_rejected
    (e : env) (tableName : string) (headers : list string) (w : world) (msg : string) :
  (fault e (calls w) = Some msg ->
   exists w',
     copyInsert e tableName headers w
       = (w', (0, Some ("error starting transaction: " ++ msg))) /\
     log w' = (log w ++ [EvCall Begin (Some msg)])%list /\
     relations w' = relations w /\ session w' = session w /\
     reader w' = reader w /\ stdout w' = stdout w) /\
  (fault e (calls w) = None -> fault e (S (calls w)) = Some msg ->
   exists w' rb,
     copyInsert e tableName headers w
       = (w', (0, Some ("error preparing COPY: " ++ msg))) /\
     log w' = (log w ++ [EvCall Begin None;
                         EvCall (Prepare tableName headers) (Some msg);
                         EvCall Rollback rb])%list /\
     relations w' = relations w /\ session w' = None /\
     reader w' = reader w /\ stdout w' = stdout w).
Proof.
  split.
  - intros Hf. unfold copyInsert.
    destruct (db_call_bad e Begin w msg) as (w1 & -> & Hr & _ & _ & Ho & Hl & Hrel & Hs);
      [discriminate | assumption |].
    exists w1. auto 10.
  - intros Hf0 Hf1. unfold copyInsert, copy_body.
    destruct (db_call_good e Begin w) as (w1 & -> & Hr1 & Hc1 & _ & Ho1 & Hl1 & Hrel1 & Hs1);
      [discriminate | assumption |].
    destruct (db_call_bad e (Prepare tableName headers) w1 msg)
      as (w2 & -> & Hr2 & _ & _ & Ho2 & Hl2 & Hrel2 & Hs2); [discriminate | congruence |].
    destruct (rollback_full e w2)
      as (w3 & rb & -> & Hrel3 & Hs3 & Hr3 & _ & _ & Ho3 & Hl3 & _).
    cbn in Hrel1. exists w3, rb. repeat split; try congruence. log_eq.
Qed.

Lemma copy_setup_rejected_witness :
  exists w',
    copyInsert (env_reject 0 "pq: too many clients") "people" ["name"; "age"]
               (reading (recs [ada; alan]))
      = (w', (0, Some "error starting transaction: pq: too many clients")) /\
    reader w' = recs [ada; alan] /\
    log w' = [EvCall Begin (Some "pq: too many clients")].
Proof.
  destruct (proj1 (copy_setup_rejected (env_reject 0 "pq: too many clients") "people"
                     ["name"; "age"] (reading (recs [ada; alan])) "pq: too many clients")
              eq_refl)
    as (w' & Hrun & Hl & _ & _ & Hr & _).
  exists w'. split; [exact Hrun|]. split; [exact Hr | exact Hl].
Defined.

Lemma count_copy_events evs :
  Forall copy_event evs -> count_if is_open evs = 0%nat /\ count_if is_close evs = 0%nat.
Proof.
  induction 1 as [|ev evs Hev _ [IH1 IH2]]; [auto|].
  cbn [count_if]. rewrite IH1, IH2. destruct ev; cbn in *; auto; contradiction.
Qed.

Lemma count_at_end p evs ev :
  count_if p (evs ++ [ev]) = (count_if p evs + if p ev then 1 else 0)%nat.
Proof. rewrite count_if_app. cbn. lia. Qed.

(** X9. The file is closed exactly once when it was opened, and never
    otherwise.  On every run of [ProcessCSVOptimized], whatever it returns,
    the first thing logged is the one [os.Open]; when the open fails nothing
    else is logged; when it succeeds the last thing logged is [file.Close],
    and it is logged once. *)
Theorem file_closed_once
    (LowerCase : Z -> Z) (e : env) (csvPath tableName : string)
    (w w' : world) (err : option string) :
  ProcessCSVOptimized LowerCase e csvPath tableName w = (w', err) ->
  exists evs,
    log w' = (log w ++ evs)%list /\
    count_if is_open evs = 1%nat /\
    match files e csvPath with
    | inl msg => evs = [EvOpen csvPath (Some msg)]
    | inr _ =>
      head evs = Some (EvOpen csvPath None) /\
      last evs = Some EvClose /\
      count_if is_close evs = 1%nat
    end.
Proof.
  intros Hrun. apply ProcessCSVOptimized_spec in Hrun.
  destruct Hrun as [msg w' Hfile Hl Hrel
                   | src msg w' Hfile Hsrc Hl Hrel
                   | field fields rest msg w' Hfile Hf9 Hl Hrel
                   | field fields rest msg w' Hfile Hf9 Hf10 Hl Hrel
                   | field fields rest wc wr n err w' Hfile Hf9 Hf10 Hrc Hcc Hsc Hrelc Hlc
                       Hrun Hl Hrel Hs Hout].
  - eexists. split; [exact Hl|]. rewrite Hfile. auto.
  - eexists. split; [exact Hl|]. rewrite Hfile. auto.
  - eexists. split; [exact Hl|]. rewrite Hfile. auto.
  - eexists. split; [exact Hl|]. rewrite Hfile. auto.
  - assert (exists evs, log wr = (log wc ++ evs)%list /\
                        count_if is_open evs = 0%nat /\ count_if is_close evs = 0%nat)
      as (evs & Hlr & Ho & Hc).
    { apply copyInsert_spec in Hrun.
      destruct Hrun as [msg wr Hf Hlr Hrelr Hsr Hrr
                       | evs bad rb msg wr Hf Hlr Hok Hbad Hcopy Hrelr Hsr
                       | pre rest' wr Hrd Heof Hrr Hf Hlr Hrelr Hsr].
      - eexists. split; [exact Hlr|]. auto.
      - eexists. split; [exact Hlr|].
        destruct (count_copy_events _ Hcopy) as [Ho Hc].
        rewrite count_if_app in Ho, Hc. cbn [count_if] in *.
        rewrite !count_if_app. cbn [count_if is_open is_close]. lia.
      - eexists. split; [exact Hlr|].
        destruct (count_copy_events _ (copied_copy_events pre)) as [Ho Hc].
        rewrite !count_if_app, Ho, Hc. auto. }
    exists ((header_events e csvPath field fields (calls w)
               ++ [EvCall (Exec (DropTableIfExists tableName)) None;
                   EvCall (Exec (CreateUnloggedTable tableName
                                   (snd (derive LowerCase (values_of field fields))))) None]
               ++ evs) ++ [EvClose])%list.
    split; [rewrite Hl, Hlr, Hlc, <- !app_assoc; reflexivity|].
    rewrite Hfile, last_snoc, !count_at_end, !count_if_app, Ho, Hc.
    split; [reflexivity|]. split; [reflexivity|]. split; reflexivity.
Qed.

Lemma file_closed_once_witness :
  exists evs,
    log (fst (ProcessCSVOptimized latin1_lower (env_reject 13 "pq: invalid input")
                                  "people.csv" "people" world0))
      = (log world0 ++ evs)%list /\
    last evs = Some EvClose /\
    count_if is_close evs = 1%nat.
Proof.
  destruct (file_closed_once latin1_lower (env_reject 13 "pq: invalid input")
              "people.csv" "people" world0 _ _ (surjective_pairing _))
    as (evs & Hl & _ & H).
  change (files (env_reject 13 "pq: invalid input") "people.csv")
    with (@inr string _ people_csv) in H.
  cbv iota in H. exists evs. tauto.
Defined.

Lemma not_failed_tuning (P : event -> Prop) evs :
  Forall (fun ev => ~ failed ev) evs -> Forall (fun ev => failed ev -> P ev) evs.
Proof. intros H. eapply Forall_impl; [exact H|]. intros ev Hn Hf. contradiction. Qed.

(** What [copyInsert] returns as an error is the first failure of its run,
    and only the deferred rollback follows. *)
Lemma copyInsert_reported e csvPath tableName headers w w' n msg :
  copyInsert e tableName headers w = (w', (n, Some msg)) ->
  exists evs bad tail,
    log w' = (log w ++ evs ++ bad :: tail)%list /\
    Forall (fun ev => ~ failed ev) evs /\
    reported csvPath bad msg /\
    Forall cleanup tail.
Proof.
  unfold copyInsert.
  destruct (db_call e Begin w) as [w1 e1] eqn:E1.
  apply db_call_inv in E1 as (-> & _ & _ & _ & _ & Hl1 & _); [|discriminate].
  destruct (fault e (calls w)) as [m|].
  { intros [= <- <- <-]. exists [], (EvCall Begin (Some m)), [].
    repeat split; [exact Hl1 | constructor | constructor | constructor]. }
  destruct (copy_body e tableName headers w1) as [w2 [n2 err2]] eqn:Eb.
  destruct (db_call e Rollback w2) as [w3 rb] eqn:E3.
  intros [= <- <- ->].
  apply rollback_inv in E3 as (_ & _ & _ & Hl3 & _).
  assert (exists evs bad,
            log w2 = (log w1 ++ evs ++ [bad])%list /\
            Forall (fun ev => ~ failed ev) evs /\ reported csvPath bad msg)
    as (evs & bad & Hl2 & Hok & Hrep).
  { unfold copy_body in Eb.
    destruct (db_call e (Prepare tableName headers) w1) as [wp ep] eqn:Ep.
    apply db_call_inv in Ep as (-> & _ & _ & _ & _ & Hlp & _); [|discriminate].
    destruct (fault e (calls w1)) as [m|].
    { injection Eb as <- _ <-. exists [], (EvCall (Prepare tableName headers) (Some m)).
      repeat split; [exact Hlp | constructor | constructor]. }
    unfold Now in Eb. cbn [fst snd] in Eb.
    set (w0 := Println OutStarting (ticked wp)) in Eb.
    assert (log w0 = log wp) as Hl0 by reflexivity.
    destruct (loop_spec e (clock e (ticks wp)) (reader w0) 0 w0 eq_refl)
      as (pre & rest & wl & r & Hrun & _ & _ & _ & Hend).
    rewrite Hrun in Eb. clearbody w0.
    inversion Hend as [rest0 wl0 Heof Hrl Hcl Hll Hsl
                      | m rest' wl0 Hne Hrl Hcl Hll Hsl
                      | field fields m rest' wl0 Hfm Hrl Hcl Hll Hsl]; subst.
    2:{ injection Eb as <- _ <-.
        exists (EvCall (Prepare tableName headers) None :: copied pre), (EvRead (Fail m)).
        repeat split; [log_eq | | now constructor].
        constructor; [cbn; auto | apply copied_not_failed]. }
    2:{ injection Eb as <- _ <-.
        exists (EvCall (Prepare tableName headers) None
                  :: copied pre ++ [EvRead (Rec field fields)])%list,
               (EvCall (CopyRow (values_of field fields)) (Some m)).
        repeat split; [log_eq | | constructor].
        constructor; [cbn; auto|].
        apply Forall_app; split; [apply copied_not_failed | repeat constructor; auto]. }
    unfold copy_finish in Eb.
    destruct (db_call e CopyEnd wl) as [w4 e4] eqn:E4.
    apply db_call_inv in E4 as (-> & _ & _ & _ & _ & Hl4 & _); [|discriminate].
    destruct (fault e (calls wl)) as [m|].
    { injection Eb as <- _ <-.
      exists (EvCall (Prepare tableName headers) None
                :: copied pre ++ [EvRead (Fail "EOF")])%list, (EvCall CopyEnd (Some m)).
      repeat split; [log_eq | | constructor].
      constructor; [cbn; auto|].
      apply Forall_app; split; [apply copied_not_failed | repeat constructor; cbn; auto]. }
    destruct (db_call e StmtClose w4) as [w5 e5] eqn:E5.
    apply db_call_inv in E5 as (-> & _ & _ & _ & _ & Hl5 & _); [|discriminate].
    destruct (fault e (calls w4)) as [m|].
    { injection Eb as <- _ <-.
      exists (EvCall (Prepare tableName headers) None
                :: copied pre ++ [EvRead (Fail "EOF"); EvCall CopyEnd None])%list,
             (EvCall StmtClose (Some m)).
      repeat split; [log_eq | | constructor].
      constructor; [cbn; auto|].
      apply Forall_app; split; [apply copied_not_failed | repeat constructor; cbn; auto]. }
    destruct (db_call e Commit w5) as [w6 e6] eqn:E6.
    apply db_call_inv in E6 as (-> & _ & _ & _ & _ & Hl6 & _); [|discriminate].
    destruct (fault e (calls w5)) as [m|]; [|discriminate Eb].
    injection Eb as <- _ <-.
    exists (EvCall (Prepare tableName headers) None
              :: copied pre ++ [EvRead (Fail "EOF"); EvCall CopyEnd None;
                                EvCall StmtClose None])%list,
           (EvCall Commit (Some m)).
    repeat split; [log_eq | | constructor].
    constructor; [cbn; auto|].
    apply Forall_app; split; [apply copied_not_failed | repeat constructor; cbn; auto]. }
  exists (EvCall Begin None :: evs), bad, [EvCall Rollback rb].
  repeat split; [log_eq | | assumption | repeat constructor].
  constructor; [cbn; auto | assumption].
Qed.

Lemma tuning_events_only e c (P : event -> Prop) :
  (forall sql r, P (EvCall (Exec (Setting sql)) r)) ->
  Forall P (tuning_events e c).
Proof. intros H. unfold tuning_events. cbn. repeat constructor; apply H. Qed.

(** X8. Every error names the first failure, and nothing but the deferred
    calls follows it.  When [ProcessCSVOptimized] returns an error, the log
    of the run is: events among which only tuning statements were rejected;
    then the failure, a failed open, read or destination call; then at most
    the deferred [tx.Rollback] and [file.Close].  The error returned is the
    message of that failure after the words for the operation: "impossible
    to open <path>: ", "error reading header: ", "error dropping table: ",
    "error creating table: ", "error starting transaction: ",
    "error preparing COPY: ", "error reading line <k>: ",
    "error copying line <k>: ", "error finalizing COPY: ",
    "error closing COPY: " or "error committing transaction: ". *)
Theorem errors_report_failure
    (LowerCase : Z -> Z) (e : env) (csvPath tableName : string)
    (w w' : world) (msg : string) :
  ProcessCSVOptimized LowerCase e csvPath tableName w = (w', Some msg) ->
  exists evs bad tail,
    log w' = (log w ++ evs ++ bad :: tail)%list /\
    Forall (fun ev => failed ev -> exists sql m, ev = EvCall (Exec (Setting sql)) (Some m)) evs /\
    reported csvPath bad msg /\
    Forall cleanup tail.
Proof.
  intros Hrun. apply ProcessCSVOptimized_spec in Hrun.
  assert (forall field fields,
            Forall (fun ev => failed ev ->
                      exists sql m, ev = EvCall (Exec (Setting sql)) (Some m))
                   (header_events e csvPath field fields (calls w))) as Hhead.
  { intros field fields. unfold header_events.
    apply Forall_app. split; [repeat constructor; cbn; contradiction|].
    apply tuning_events_only. intros sql [m|]; cbn; [eauto | contradiction]. }
  inversion Hrun as [m w0 Hfile Hl Hrel
                    | src m w0 Hfile Hsrc Hl Hrel
                    | field fields rest m w0 Hfile Hf9 Hl Hrel
                    | field fields rest m w0 Hfile Hf9 Hf10 Hl Hrel
                    | field fields rest wc wr n err w0 Hfile Hf9 Hf10 Hrc Hcc Hsc Hrelc Hlc
                        Hcopy Hl Hrel Hs Hout]; subst.
  - exists [], (EvOpen csvPath (Some m)), [].
    repeat split; [exact Hl | constructor | constructor | constructor].
  - exists [EvOpen csvPath None], (EvRead (Fail m)), [EvClose].
    repeat split; [exact Hl | | constructor | repeat constructor].
    repeat constructor. cbn. contradiction.
  - exists (header_events e csvPath field fields (calls w)),
           (EvCall (Exec (DropTableIfExists tableName)) (Some m)), [EvClose].
    repeat split; [exact Hl | apply Hhead | constructor | repeat constructor].
  - exists (header_events e csvPath field fields (calls w)
              ++ [EvCall (Exec (DropTableIfExists tableName)) None])%list,
           (EvCall (Exec (CreateUnloggedTable tableName
                           (snd (derive LowerCase (values_of field fields))))) (Some m)),
           [EvClose].
    repeat split; [rewrite Hl, <- !app_assoc; reflexivity | | constructor | repeat constructor].
    apply Forall_app. split; [apply Hhead | repeat constructor; cbn; contradiction].
  - destruct (copyInsert_reported e csvPath _ _ _ _ _ _ Hcopy)
      as (evs & bad & tail & Hlr & Hok & Hrep & Htail).
    exists (header_events e csvPath field fields (calls w)
              ++ [EvCall (Exec (DropTableIfExists tableName)) None;
                  EvCall (Exec (CreateUnloggedTable tableName
                                  (snd (derive LowerCase (values_of field fields))))) None]
              ++ evs)%list, bad, (tail ++ [EvClose])%list.
    repeat split; [| | assumption |].
    + rewrite Hl, Hlr, Hlc, <- !app_assoc. cbn [app]. rewrite <- ?app_assoc. reflexivity.
    + apply Forall_app. split; [apply Hhead|].
      apply Forall_app. split; [repeat constructor; cbn; contradiction|].
      now apply not_failed_tuning.
    + apply Forall_app. split; [assumption | repeat constructor].
Qed.

Lemma errors_report_failure_witness :
  exists evs bad tail,
    log (fst (ProcessCSVOptimized latin1_lower (env_reject 13 "pq: invalid input")
                                  "people.csv" "people" world0))
      = (log world0 ++ evs ++ bad :: tail)%list /\
    reported "people.csv" bad "error copying line 1: pq: invalid input".
Proof.
  assert (ProcessCSVOptimized latin1_lower (env_reject 13 "pq: invalid input")
                              "people.csv" "people" world0
          = (fst (ProcessCSVOptimized latin1_lower (env_reject 13 "pq: invalid input")
                                      "people.csv" "people" world0),
             Some "error copying line 1: pq: invalid input")) as H
    by (vm_compute; reflexivity).
  destruct (errors_report_failure _ _ _ _ _ _ _ H) as (evs & bad & tail & Hl & _ & Hrep & _).
  exists evs, bad, tail. split; assumption.
Defined.

(** ** Loads that succeed, with what they print *)

Lemma multiples_succ n k :
  multiples n (S k)
  = ((if (n + 1) mod 100000 =? 0 then [n + 1] else []) ++ multiples (n + 1) k)%list.
Proof.
  unfold multiples. cbn [seq map]. rewrite <- seq_shift, map_map.
  change (Z.of_nat 0) with 0. rewrite Z.add_0_r. cbn [List.filter].
  replace (map (fun i => n + 1 + Z.of_nat (S i)) (seq 0 k))
    with (map (fun i => n + 1 + 1 + Z.of_nat i) (seq 0 k))
    by (apply map_ext; intros; lia).
  destruct ((n + 1) mod 100000 =? 0); reflexivity.
Qed.

Lemma multiples_length n k :
  0 <= n ->
  Z.of_nat (length (multiples n k)) = (n + Z.of_nat k) / 100000 - n / 100000.
Proof.
  revert n. induction k as [|k IH]; intros n Hn.
  - cbn. rewrite Z.add_0_r. lia.
  - rewrite multiples_succ, length_app, Nat2Z.inj_add, IH by lia.
    replace (n + 1 + Z.of_nat k) with (n + Z.of_nat (S k)) by lia.
    destruct (Z.eqb_spec ((n + 1) mod 100000) 0) as [E | E]; cbn [length];
      Z.div_mod_to_equations; lia.
Qed.

Lemma progress_lines_cons e startTime t c cs :
  progress_lines e startTime t (c :: cs)
  = OutProgress c (Div (FromInt c) (Seconds (Sub (clock e t) startTime)))
      :: progress_lines e startTime (S t) cs.
Proof.
  unfold progress_lines. cbn [imap]. rewrite Nat.add_0_r. f_equal.
  apply imap_ext. intros j x _. cbn.
  replace (t + S j)%nat with (S (t + j)) by lia. reflexivity.
Qed.

Section LoopOutput.

Variable e : env.

Lemma loop_rec_out startTime field fields rd n w :
  reader w = Rec field fields :: rd ->
  fault e (calls w) = None ->
  exists w1,
    copy_loop e startTime (Rec field fields :: rd) n w
      = copy_loop e startTime rd (wrap64 (n + 1)) w1 /\
    reader w1 = rd /\
    relations w1 = relations w /\
    session w1 = push_rows [values_of field fields] (session w) /\
    calls w1 = S (calls w) /\
    log w1 = (log w ++ [EvRead (Rec field fields);
                        EvCall (CopyRow (values_of field fields)) None])%list /\
    stdout w1 = (stdout w ++
                 progress_lines e startTime (ticks w)
                   (if Z.rem (wrap64 (n + 1)) 100000 =? 0 then [wrap64 (n + 1)] else []))%list /\
    ticks w1 = (ticks w + if (Z.rem (wrap64 (n + 1)) 100000 =? 0)%Z then 1 else 0)%nat.
Proof.
  intros Hrd Hf. cbn [copy_loop]. unfold Read. rewrite Hrd.
  unfold db_call, outcome. cbn. rewrite Hf. cbn.
  destruct (Z.rem (wrap64 (n + 1)) 100000 =? 0);
    eexists; (split; [reflexivity|]); cbn;
    rewrite <- ?app_assoc, ?app_nil_r, ?Nat.add_0_r; repeat split; auto; lia.
Qed.

Lemma loop_eof_out startTime rest n w :
  reader w = rest ->
  at_eof rest ->
  exists w1,
    copy_loop e startTime rest n w = (w1, inl n) /\
    reader w1 = tl rest /\
    relations w1 = relations w /\
    session w1 = session w /\
    calls w1 = calls w /\
    log w1 = (log w ++ [EvRead (Fail "EOF")])%list /\
    stdout w1 = stdout w /\
    ticks w1 = ticks w.
Proof.
  intros Hrd [-> | [rest' ->]]; cbn [copy_loop]; unfold Read; rewrite Hrd;
    cbn; eexists; (split; [reflexivity|]); cbn; auto 10.
Qed.

(** The loop over records that are all accepted, counted from [n]: a
    progress line at every multiple of 100000, each with a reading of the
    clock. *)
Lemma loop_prefix_out startTime pre rest n w :
  reader w = (recs pre ++ rest)%list ->
  (forall i, (i < length pre)%nat -> fault e (calls w + i) = None) ->
  0 <= n -> n + Z.of_nat (length pre) < 2 ^ 63 ->
  exists w1,
    copy_loop e startTime (recs pre ++ rest) n w
      = copy_loop e startTime rest (n + Z.of_nat (length pre)) w1 /\
    reader w1 = rest /\
    relations w1 = relations w /\
    session w1 = push_rows (rows_of pre) (session w) /\
    calls w1 = (calls w + length pre)%nat /\
    log w1 = (log w ++ copied pre)%list /\
    stdout w1 = (stdout w ++ progress_lines e startTime (ticks w)
                                (multiples n (length pre)))%list /\
    ticks w1 = (ticks w + length (multiples n (length pre)))%nat.
Proof.
  revert n w. induction pre as [|[field fields] pre IH]; intros n w Hrd Hf Hn Hk.
  - exists w. cbn. rewrite push_rows_nil, Nat.add_0_r, Z.add_0_r, !app_nil_r. auto 10.
  - change (recs ((field, fields) :: pre)) with (Rec field fields :: recs pre) in *.
    rewrite <- app_comm_cons in *. cbn [length] in Hk.
    destruct (loop_rec_out startTime field fields (recs pre ++ rest) n w Hrd)
      as (w1 & Hstep & Hr1 & Hrel1 & Hs1 & Hc1 & Hl1 & Ho1 & Ht1).
    { rewrite <- (Hf 0%nat) by (cbn; lia). f_equal. lia. }
    rewrite wrap64_small in * by lia.
    rewrite Z.rem_mod_nonneg in Ho1, Ht1 by lia.
    destruct (IH (n + 1) w1 Hr1) as (w2 & Hrun & Hr2 & Hrel2 & Hs2 & Hc2 & Hl2 & Ho2 & Ht2);
      [|lia|lia|].
    { intros i Hi. rewrite Hc1. rewrite <- (Hf (S i)) by (cbn; lia). f_equal. lia. }
    exists w2. rewrite Hstep, Hrun. cbn [length]. rewrite multiples_succ.
    replace (n + 1 + Z.of_nat (length pre)) with (n + Z.of_nat (S (length pre))) by lia.
    repeat split; try assumption.
    + congruence.
    + rewrite Hs2, Hs1, push_rows_app. reflexivity.
    + lia.
    + rewrite Hl2, Hl1. cbn [copied flat_map fst snd]. now rewrite <- app_assoc.
    + rewrite Ho2, Ho1, Ht1.
      destruct ((n + 1) mod 100000 =? 0); cbn [app].
      * rewrite !progress_lines_cons. cbn [progress_lines imap].
        rewrite <- app_assoc. cbn [app]. do 3 f_equal. lia.
      * cbn [progress_lines imap]. rewrite app_nil_r, Nat.add_0_r. reflexivity.
    + rewrite Ht2, Ht1, length_app.
      destruct ((n + 1) mod 100000 =? 0); cbn [length]; lia.
Qed.

End LoopOutput.

Lemma copyInsert_ok_full e tableName headers w pre rest :
  reader w = (recs pre ++ rest)%list ->
  at_eof rest ->
  (forall i, (i < length pre + 5)%nat -> fault e (calls w + i) = None) ->
  Z.of_nat (length pre) < 2 ^ 63 ->
  exists w',
    copyInsert e tableName headers w = (w', (Z.of_nat (length pre), None)) /\
    reader w' = tl rest /\
    relations w' = alter (add_rows (rows_of pre)) tableName (relations w) /\
    session w' = None /\
    calls w' = (calls w + length pre + 6)%nat /\
    stdout w' = (stdout w ++ OutStarting ::
                 progress_lines e (clock e (ticks w)) (S (ticks w))
                   (multiples 0 (length pre)))%list /\
    ticks w' = (S (ticks w) + length (multiples 0 (length pre)))%nat.
Proof.
  intros Hrd Heof Hf Hk. unfold copyInsert, copy_body.
  destruct (db_call_good e Begin w)
    as (w1 & -> & Hr1 & Hc1 & Ht1 & Ho1 & _ & Hrel1 & Hs1);
    [discriminate | rewrite <- (Hf 0%nat) by lia; f_equal; lia |].
  destruct (db_call_good e (Prepare tableName headers) w1)
    as (w2 & -> & Hr2 & Hc2 & Ht2 & Ho2 & _ & Hrel2 & Hs2);
    [discriminate | rewrite <- (Hf 1%nat) by lia; f_equal; lia |].
  cbn in Hrel1, Hs1, Hrel2, Hs2. rewrite Hs1 in Hs2. cbn in Hs2.
  unfold Now. cbn [fst snd].
  set (w0 := Println OutStarting (ticked w2)).
  assert (reader w0 = (recs pre ++ rest)%list /\ calls w0 = S (S (calls w)) /\
          relations w0 = relations w /\
          session w0 = Some {| tx_copy := Some (tableName, headers); tx_rows := [] |} /\
          stdout w0 = (stdout w ++ [OutStarting])%list /\ ticks w0 = S (ticks w))
    as (Hr0 & Hc0 & Hrel0 & Hs0 & Ho0 & Ht0).
  { subst w0. cbn. repeat split; congruence. }
  replace (clock e (ticks w2)) with (clock e (ticks w)) by congruence.
  clearbody w0. rewrite Hr0.
  destruct (loop_prefix_out e (clock e (ticks w)) pre rest 0 w0 Hr0)
    as (w3 & -> & Hr3 & Hrel3 & Hs3 & Hc3 & _ & Ho3 & Ht3); [|lia|lia|].
  { intros i Hi. rewrite Hc0. rewrite <- (Hf (2 + i)%nat) by lia. f_equal. lia. }
  rewrite Z.add_0_l.
  destruct (loop_eof_out e (clock e (ticks w)) rest (Z.of_nat (length pre)) w3 Hr3 Heof)
    as (w4 & -> & Hr4 & Hrel4 & Hs4 & Hc4 & _ & Ho4 & Ht4).
  unfold copy_finish.
  destruct (db_call_good e CopyEnd w4)
    as (w5 & -> & Hr5 & Hc5 & Ht5 & Ho5 & _ & Hrel5 & Hs5);
    [discriminate | rewrite <- (Hf (2 + length pre)%nat) by lia; f_equal; lia |].
  destruct (db_call_good e StmtClose w5)
    as (w6 & -> & Hr6 & Hc6 & Ht6 & Ho6 & _ & Hrel6 & Hs6);
    [discriminate | rewrite <- (Hf (3 + length pre)%nat) by lia; f_equal; lia |].
  destruct (db_call_good e Commit w6)
    as (w7 & -> & Hr7 & Hc7 & Ht7 & Ho7 & _ & Hrel7 & Hs7);
    [discriminate | rewrite <- (Hf (4 + length pre)%nat) by lia; f_equal; lia |].
  cbn in Hrel5, Hs5, Hrel6, Hs6.
  assert (session w6 = Some {| tx_copy := Some (tableName, headers);
                               tx_rows := rows_of pre |}) as Hs6'.
  { rewrite Hs6, Hs5, Hs4, Hs3, Hs0. reflexivity. }
  cbn in Hrel7, Hs7. rewrite Hs6' in Hrel7, Hs7. cbn in Hrel7, Hs7.
  destruct (rollback_full e w7)
    as (w8 & rb & -> & Hrel8 & Hs8 & Hr8 & Hc8 & Ht8 & Ho8 & _ & _).
  exists w8. split; [reflexivity|]. split; [congruence|]. split; [|split; [assumption|]].
  { rewrite Hrel8, Hrel7. unfold committed. cbn. congruence. }
  split; [lia|]. split; [|lia].
  rewrite Ho8, Ho7, Ho6, Ho5, Ho4, Ho3, Ho0, Ht0, <- app_assoc. reflexivity.
Qed.

(** A load whose calls are all accepted, the tuning statements apart, with
    everything it leaves behind. *)
Lemma load_ok_full LowerCase e csvPath tableName w field fields pre rest :
  files e csvPath = inr (Rec field fields :: recs pre ++ rest)%list ->
  at_eof rest ->
  (forall i, (i < length pre + 7)%nat -> fault e (calls w + 9 + i) = None) ->
  Z.of_nat (length pre) < 2 ^ 63 ->
  exists w',
    ProcessCSVOptimized LowerCase e csvPath tableName w = (w', None) /\
    relations w' =
      <[tableName := {| rel_columns := map (fun h => cleanHeader LowerCase h ++ " TEXT")
                                           (field :: fields);
                        rel_rows := rows_of pre |}]> (delete tableName (relations w)) /\
    session w' = None /\
    reader w' = tl rest /\
    calls w' = (calls w + length pre + 17)%nat /\
    ticks w' = (ticks w + 3 + length (multiples 0 (length pre)))%nat /\
    stdout w' =
      (stdout w
         ++ [OutCSV (filepath.Base csvPath); OutColumns (field :: fields); OutOptimized;
             OutCreating tableName; OutStarting]
         ++ progress_lines e (clock e (S (ticks w))) (S (S (ticks w)))
              (multiples 0 (length pre))
         ++ [OutSummary (Z.of_nat (length pre))
               (Seconds (Sub (clock e (ticks w + 2 + length (multiples 0 (length pre))))
                             (clock e (ticks w))))
               (Div (FromInt (Z.of_nat (length pre)))
                    (Seconds (Sub (clock e (ticks w + 2 + length (multiples 0 (length pre))))
                                  (clock e (ticks w)))))])%list.
Proof.
  intros Hfile Heof Hf Hk.
  unfold ProcessCSVOptimized, Now, Open. cbn [fst snd]. rewrite Hfile.
  unfold process_body, Read. cbn [reader with_reader logged ticked].
  match goal with
  | |- context [optimizeForBulkInsert e ?w0] => set (w2 := w0)
  end.
  assert (relations w2 = relations w /\ reader w2 = (recs pre ++ rest)%list /\
          calls w2 = calls w /\ ticks w2 = S (ticks w) /\
          stdout w2 = (stdout w ++ [OutCSV (filepath.Base csvPath);
                                    OutColumns (field :: fields)])%list)
    as (Hrel2 & Hr2 & Hc2 & Ht2 & Ho2).
  { subst w2. cbn. rewrite <- app_assoc. auto 10. }
  clearbody w2.
  pose proof (optimizeForBulkInsert_spec e w2)
    as (_ & Hrel3 & _ & Hr3 & Hc3 & Ht3 & Ho3 & _).
  destruct (optimizeForBulkInsert e w2) as [w3 e3]. cbn [fst snd] in *.
  destruct (db_call_good e (Exec (DropTableIfExists tableName)) w3)
    as (w4 & -> & Hr4 & Hc4 & Ht4 & Ho4 & _ & Hrel4 & _);
    [discriminate | rewrite Hc3, Hc2, <- (Hf 0%nat) by lia; f_equal; lia |].
  cbn in Hrel4.
  rewrite derive_spec. cbv iota beta.
  set (w5 := Println (OutCreating tableName) w4).
  assert (relations w5 = relations w4 /\ reader w5 = reader w4 /\ calls w5 = calls w4 /\
          ticks w5 = ticks w4 /\ stdout w5 = (stdout w4 ++ [OutCreating tableName])%list)
    as (Hrel5 & Hr5 & Hc5 & Ht5 & Ho5) by (subst w5; cbn; auto 10).
  clearbody w5.
  destruct (db_call_good e
              (Exec (CreateUnloggedTable tableName
                       (map (fun h => cleanHeader LowerCase h ++ " TEXT")
                            (values_of field fields)))) w5)
    as (w6 & -> & Hr6 & Hc6 & Ht6 & Ho6 & _ & Hrel6 & _);
    [discriminate | rewrite Hc5, Hc4, Hc3, Hc2, <- (Hf 1%nat) by lia; f_equal; lia |].
  cbn in Hrel6.
  destruct (copyInsert_ok_full e tableName
              (map (cleanHeader LowerCase) (values_of field fields)) w6 pre rest)
    as (w7 & -> & Hr7 & Hrel7 & Hs7 & Hc7 & Ho7 & Ht7); [congruence | assumption | | assumption |].
  { intros i Hi. rewrite Hc6, Hc5, Hc4, Hc3, Hc2.
    rewrite <- (Hf (2 + i)%nat) by lia. f_equal. lia. }
  unfold Since, Now. cbn [fst snd].
  eexists. split; [reflexivity|].
  cbn [relations session reader calls ticks stdout Close logged Println ticked].
  assert (ticks w6 = S (ticks w)) as Ht6' by congruence.
  split; [|split; [assumption|split; [assumption|split; [lia|split; [lia|]]]]].
  - rewrite Hrel7, Hrel6, Hrel5, Hrel4, Hrel3, Hrel2.
    rewrite alter_insert_eq. unfold add_rows, values_of. reflexivity.
  - rewrite Ho7, Ho6, Ho5, Ho4, Ho3, Ho2, Ht7, Ht6'. rewrite <- !app_assoc. cbn [app].
    replace (S (S (ticks w)) + length (multiples 0 (length pre)))%nat
      with (ticks w + 2 + length (multiples 0 (length pre)))%nat by lia.
    reflexivity.
Qed.

(** X1. A load that succeeds replaces the table by the file.  With a
    source that holds a header and then the records [pre] up to the end of
    the stream (fewer than 2^63), and a destination that accepts the drop, the
    create and the calls of the copy phase: the load returns no error; the
    relations are what they were but for the table name, which now holds one
    [TEXT] column per header field, named by the normalised field, and
    exactly the records as rows, every field as it was read and in the order
    of the file, whatever the relation of that name held before; no
    transaction is left open and the source is consumed up to its end. *)
Theorem load_replaces_table
    (LowerCase : Z -> Z) (e : env) (csvPath tableName : string) (w : world)
    (field : string) (fields : list string)
    (pre : list (string * list string)) (rest : list read_result) :
  files e csvPath = inr (Rec field fields :: recs pre ++ rest)%list ->
  at_eof rest ->
  (forall i, (i < length pre + 7)%nat -> fault e (calls w + 9 + i) = None) ->
  Z.of_nat (length pre) < 2 ^ 63 ->
  exists w',
    ProcessCSVOptimized LowerCase e csvPath tableName w = (w', None) /\
    relations w' =
      <[tableName := {| rel_columns := map (fun h => cleanHeader LowerCase h ++ " TEXT")
                                           (field :: fields);
                        rel_rows := map (fun r => fst r :: snd r) pre |}]> (relations w) /\
    session w' = None /\
    reader w' = tl rest.
Proof.
  intros Hfile Heof Hf Hk.
  destruct (load_ok_full LowerCase e csvPath tableName w field fields pre rest
              Hfile Heof Hf Hk) as (w' & Hrun & Hrel & Hs & Hr & _).
  exists w'. rewrite insert_delete_eq in Hrel. auto.
Qed.

Lemma load_replaces_table_witness :
  exists w',
    ProcessCSVOptimized latin1_lower env_ok "people.csv" "people" stale = (w', None) /\
    relations w' !! "people"
      = Some {| rel_columns := ["name TEXT"; "age TEXT"];
                rel_rows := [["Ada"; "36"]; ["Alan"; "41"]] |}.
Proof.
  destruct (load_replaces_table latin1_lower env_ok "people.csv" "people" stale
              "name" ["age"] [ada; alan] [] eq_refl (or_introl eq_refl)
              (fun _ _ => eq_refl) eq_refl)
    as (w' & Hrun & Hrel & _).
  exists w'. split; [exact Hrun|]. rewrite Hrel. vm_compute. reflexivity.
Defined.

(** X3. Of two loads into the same table only the second shows.  When a
    load of one file succeeds and a load of a second file into the same table
    succeeds after it, the relations are what a single load of the second
    file would have left: the columns are those of the second header and the
    rows are the records of the second file, none of the first. *)
Theorem second_load_wins
    (LowerCase : Z -> Z) (e : env) (path1 path2 tableName : string) (w : world)
    (field1 : string) (fields1 : list string)
    (pre1 : list (string * list string)) (rest1 : list read_result)
    (field2 : string) (fields2 : list string)
    (pre2 : list (string * list string)) (rest2 : list read_result) :
  files e path1 = inr (Rec field1 fields1 :: recs pre1 ++ rest1)%list ->
  at_eof rest1 ->
  files e path2 = inr (Rec field2 fields2 :: recs pre2 ++ rest2)%list ->
  at_eof rest2 ->
  Z.of_nat (length pre1) < 2 ^ 63 ->
  Z.of_nat (length pre2) < 2 ^ 63 ->
  (forall i, (i < length pre1 + 7)%nat -> fault e (calls w + 9 + i) = None) ->
  (forall i, (i < length pre2 + 7)%nat ->
     fault e (calls w + length pre1 + 17 + 9 + i) = None) ->
  exists w1 w2,
    ProcessCSVOptimized LowerCase e path1 tableName w = (w1, None) /\
    ProcessCSVOptimized LowerCase e path2 tableName w1 = (w2, None) /\
    relations w2 =
      <[tableName := {| rel_columns := map (fun h => cleanHeader LowerCase h ++ " TEXT")
                                           (field2 :: fields2);
                        rel_rows := map (fun r => fst r :: snd r) pre2 |}]> (relations w).
Proof.
  intros Hfile1 Heof1 Hfile2 Heof2 Hk1 Hk2 Hf1 Hf2.
  destruct (load_ok_full LowerCase e path1 tableName w field1 fields1 pre1 rest1
              Hfile1 Heof1 Hf1 Hk1) as (w1 & Hrun1 & Hrel1 & _ & _ & Hc1 & _).
  destruct (load_ok_full LowerCase e path2 tableName w1 field2 fields2 pre2 rest2
              Hfile2 Heof2) as (w2 & Hrun2 & Hrel2 & _); [|assumption|].
  { intros i Hi. rewrite Hc1. now apply Hf2. }
  exists w1, w2. split; [assumption|]. split; [assumption|].
  rewrite Hrel2, Hrel1, !insert_delete_eq, insert_insert_eq. reflexivity.
Qed.

Lemma second_load_wins_witness :
  exists w1 w2,
    ProcessCSVOptimized latin1_lower env_ok "people.csv" "people" stale = (w1, None) /\
    ProcessCSVOptimized latin1_lower env_ok "empty.csv" "people" w1 = (w2, None) /\
    relations w2 !! "people"
      = Some {| rel_columns := ["name TEXT"; "age TEXT"]; rel_rows := [] |}.
Proof.
  destruct (second_load_wins latin1_lower env_ok "people.csv" "empty.csv" "people" stale
              "name" ["age"] [ada; alan] [] "name" ["age"] [] []
              eq_refl (or_introl eq_refl) eq_refl (or_introl eq_refl) eq_refl eq_refl
              (fun _ _ => eq_refl) (fun _ _ => eq_refl))
    as (w1 & w2 & Hrun1 & Hrun2 & Hrel).
  exists w1, w2. split; [exact Hrun1|]. split; [exact Hrun2|].
  rewrite Hrel. vm_compute. reflexivity.
Defined.

(** X10. What a load that succeeds prints.  Under the conditions of a
    successful load of the records [pre], standard output receives, in this
    order: the base name of the path, the header fields as they were read,
    the note on the tuning, the table name, the start of the COPY, one
    progress line for every record number that is a multiple of 100000, with
    that number, and the summary with the number of records.  There are
    [length pre / 100000] progress lines, none for a file of fewer than
    100000 records; the clock is read once for each of them, and three times
    besides. *)
Theorem load_output
    (LowerCase : Z -> Z) (e : env) (csvPath tableName : string) (w : world)
    (field : string) (fields : list string)
    (pre : list (string * list string)) (rest : list read_result) :
  files e csvPath = inr (Rec field fields :: recs pre ++ rest)%list ->
  at_eof rest ->
  (forall i, (i < length pre + 7)%nat -> fault e (calls w + 9 + i) = None) ->
  Z.of_nat (length pre) < 2 ^ 63 ->
  exists w' elapsed,
    ProcessCSVOptimized LowerCase e csvPath tableName w = (w', None) /\
    stdout w' =
      (stdout w
         ++ [OutCSV (filepath.Base csvPath); OutColumns (field :: fields); OutOptimized;
             OutCreating tableName; OutStarting]
         ++ progress_lines e (clock e (S (ticks w))) (S (S (ticks w)))
              (multiples 0 (length pre))
         ++ [OutSummary (Z.of_nat (length pre)) (Seconds elapsed)
               (Div (FromInt (Z.of_nat (length pre))) (Seconds elapsed))])%list /\
    Z.of_nat (length (multiples 0 (length pre))) = Z.of_nat (length pre) / 100000 /\
    (Z.of_nat (length pre) < 100000 -> multiples 0 (length pre) = []) /\
    ticks w' = (ticks w + 3 + length (multiples 0 (length pre)))%nat.
Proof.
  intros Hfile Heof Hf Hk.
  destruct (load_ok_full LowerCase e csvPath tableName w field fields pre rest
              Hfile Heof Hf Hk) as (w' & Hrun & _ & _ & _ & _ & Ht & Ho).
  pose proof (multiples_length 0 (length pre) ltac:(lia)) as Hlen.
  rewrite Z.add_0_l in Hlen. change (0 / 100000) with 0 in Hlen. rewrite Z.sub_0_r in Hlen.
  exists w'. eexists. split; [exact Hrun|]. split; [exact Ho|].
  split; [exact Hlen|]. split; [|exact Ht].
  intros Hsmall. rewrite Z.div_small in Hlen by lia.
  destruct (multiples 0 (length pre)); [reflexivity | discriminate Hlen].
Qed.

Lemma load_output_witness :
  exists w',
    ProcessCSVOptimized latin1_lower env_ok "people.csv" "people" world0 = (w', None) /\
    stdout w' = [OutCSV "people.csv"; OutColumns ["name"; "age"]; OutOptimized;
                 OutCreating "people"; OutStarting;
                 OutSummary 2 (Seconds 2000000000) (Div (FromInt 2) (Seconds 2000000000))].
Proof.
  destruct (load_output latin1_lower env_ok "people.csv" "people" world0
              "name" ["age"] [ada; alan] [] eq_refl (or_introl eq_refl)
              (fun _ _ => eq_refl) eq_refl)
    as (w' & elapsed & Hrun & Ho & _).
  exists w'. split; [exact Hrun|].
  replace w' with (fst (ProcessCSVOptimized latin1_lower env_ok "people.csv" "people" world0))
    by (now rewrite Hrun).
  vm_compute. reflexivity.
Defined.

(** X7. A failure at the end of the copy commits nothing.  With every
    record up to the end of the stream read and accepted, when the
    destination rejects the end of the COPY, the close of the statement or
    the commit (the calls before it accepted), [copyInsert] returns 0 and the
    message of the rejection after "error finalizing COPY: ",
    "error closing COPY: " or "error committing transaction: "; the calls
    after the rejected one are not made, the deferred rollback apart; the
    relations are what they were, although every row had been submitted, and
    the transaction is over. *)
Theorem copy_end_rejected
    (e : env) (tableName : string) (headers : list string) (w : world)
    (pre : list (string * list string)) (rest : list read_result)
    (j : nat) (c : call) (op msg : string) :
  reader w = (recs pre ++ rest)%list ->
  at_eof rest ->
  finishing !! j = Some (c, op) ->
  (forall i, (i < length pre + 2 + j)%nat -> fault e (calls w + i) = None) ->
  fault e (calls w + (length pre + 2 + j)) = Some msg ->
  exists w' rb,
    copyInsert e tableName headers w = (w', (0, Some (op ++ msg))) /\
    reader w' = tl rest /\
    relations w' = relations w /\
    session w' = None /\
    log w' = (log w ++ [EvCall Begin None; EvCall (Prepare tableName headers) None]
                    ++ copied pre
                    ++ [EvRead (Fail "EOF")]
                    ++ map (fun p => EvCall (fst p) None) (take j finishing)
                    ++ [EvCall c (Some msg); EvCall Rollback rb])%list.
Proof.
  intros Hrd Heof Hj Hf Hbad.
  destruct (copyInsert_started e tableName headers w)
    as (w0 & st & Hr0 & Hc0 & Hl0 & Hrel0 & Hs0 & ->).
  { rewrite <- (Hf 0%nat) by lia. f_equal. lia. }
  { rewrite <- (Hf 1%nat) by lia. f_equal. lia. }
  rewrite Hr0, Hrd.
  destruct (loop_prefix e st pre rest 0 w0)
    as (w1 & -> & Hr1 & Hrel1 & Hs1 & Hc1 & Hl1); [congruence | |].
  { intros i Hi. rewrite Hc0. rewrite <- (Hf (2 + i)%nat) by lia. f_equal. lia. }
  destruct (loop_eof e st rest (bump (length pre) 0) w1 Hr1 Heof)
    as (w2 & -> & Hr2 & Hrel2 & Hs2 & Hc2 & Hl2).
  assert (calls w2 = calls w + (length pre + 2))%nat as Hc2' by lia.
  unfold copy_finish.
  destruct j as [|[|[|j]]]; cbn in Hj; [| | |discriminate Hj];
    injection Hj as <- <-; cbn [take map fst app].
  - destruct (db_call_bad e CopyEnd w2 msg)
      as (w3 & -> & Hr3 & _ & _ & _ & Hl3 & Hrel3 & Hs3);
      [discriminate | rewrite Hc2', <- Hbad; f_equal; lia |].
    destruct (rollback_run e w3) as (w4 & rb & -> & Hrel4 & Hs4 & Hr4 & Hl4 & _).
    exists w4, rb. repeat split; try congruence. log_eq.
  - destruct (db_call_good e CopyEnd w2)
      as (w3 & -> & Hr3 & Hc3 & _ & _ & Hl3 & Hrel3 & Hs3);
      [discriminate | rewrite Hc2', <- (Hf (length pre + 2)%nat) by lia; reflexivity |].
    destruct (db_call_bad e StmtClose w3 msg)
      as (w4 & -> & Hr4 & _ & _ & _ & Hl4 & Hrel4 & Hs4);
      [discriminate | rewrite Hc3, Hc2', <- Hbad; f_equal; lia |].
    destruct (rollback_run e w4) as (w5 & rb & -> & Hrel5 & Hs5 & Hr5 & Hl5 & _).
    cbn in Hrel3. exists w5, rb. repeat split; try congruence. log_eq.
  - destruct (db_call_good e CopyEnd w2)
      as (w3 & -> & Hr3 & Hc3 & _ & _ & Hl3 & Hrel3 & Hs3);
      [discriminate | rewrite Hc2', <- (Hf (length pre + 2)%nat) by lia; reflexivity |].
    destruct (db_call_good e StmtClose w3)
      as (w4 & -> & Hr4 & Hc4 & _ & _ & Hl4 & Hrel4 & Hs4);
      [discriminate
      | rewrite Hc3, Hc2', <- (Hf (length pre + 3)%nat) by lia; f_equal; lia |].
    destruct (db_call_bad e Commit w4 msg)
      as (w5 & -> & Hr5 & _ & _ & _ & Hl5 & Hrel5 & Hs5);
      [discriminate | rewrite Hc4, Hc3, Hc2', <- Hbad; f_equal; lia |].
    destruct (rollback_run e w5) as (w6 & rb & -> & Hrel6 & Hs6 & Hr6 & Hl6 & _).
    cbn in Hrel3, Hrel4. exists w6, rb. repeat split; try congruence. log_eq.
Qed.

Lemma copy_end_rejected_witness :
  exists w' rb,
    copyInsert (env_reject 6 "pq: could not serialize access") "people" ["name"; "age"]
               (reading (recs [ada; alan]))
      = (w', (0, Some "error committing transaction: pq: could not serialize access")) /\
    relations w' = relations (reading (recs [ada; alan])) /\
    log w' = [EvCall Begin None; EvCall (Prepare "people" ["name"; "age"]) None;
              EvRead (Rec "Ada" ["36"]); EvCall (CopyRow ["Ada"; "36"]) None;
              EvRead (Rec "Alan" ["41"]); EvCall (CopyRow ["Alan"; "41"]) None;
              EvRead (Fail "EOF"); EvCall CopyEnd None; EvCall StmtClose None;
              EvCall Commit (Some "pq: could not serialize access");
              EvCall Rollback rb].
Proof.
  destruct (copy_end_rejected (env_reject 6 "pq: could not serialize access") "people"
              ["name"; "age"] (reading (recs [ada; alan])) [ada; alan] [] 2 Commit
              "error committing transaction: " "pq: could not serialize access"
              eq_refl (or_introl eq_refl) eq_refl)
    as (w' & rb & Hrun & _ & Hrel & _ & Hl).
  - intros i Hi. cbn in Hi. destruct i as [|[|[|[|[|[|i]]]]]]; [reflexivity..|lia].
  - reflexivity.
  - exists w', rb. auto.
Defined.

(** ** What the clock cannot change *)

Lemma timeless_eq w1 w2 :
  timeless w1 = timeless w2 <->
  relations w1 = relations w2 /\ session w1 = session w2 /\ reader w1 = reader w2 /\
  calls w1 = calls w2 /\ ticks w1 = ticks w2 /\ log w1 = log w2 /\
  map untimed (stdout w1) = map untimed (stdout w2).
Proof.
  unfold timeless. split.
  - intros [= ? ? ? ? ? ? ?]. auto 10.
  - intros (-> & -> & -> & -> & -> & -> & ->). reflexivity.
Qed.

Lemma tl_println l1 l2 w1 w2 :
  untimed l1 = untimed l2 ->
  timeless w1 = timeless w2 ->
  timeless (Println l1 w1) = timeless (Println l2 w2).
Proof.
  intros Hl Hsim. apply timeless_eq in Hsim as (? & ? & ? & ? & ? & ? & Ho).
  apply timeless_eq. cbn. rewrite !map_app, Ho. cbn. rewrite Hl. auto 10.
Qed.

Lemma tl_ticked w1 w2 :
  timeless w1 = timeless w2 -> timeless (ticked w1) = timeless (ticked w2).
Proof.
  intros Hsim. apply timeless_eq in Hsim as (? & ? & ? & ? & ? & ? & ?).
  apply timeless_eq. cbn. auto 10.
Qed.

Lemma tl_Close w1 w2 :
  timeless w1 = timeless w2 -> timeless (Close w1) = timeless (Close w2).
Proof.
  intros Hsim. apply timeless_eq in Hsim as (? & ? & ? & ? & ? & ? & ?).
  apply timeless_eq. cbn. repeat split; congruence.
Qed.

Lemma tl_Read w1 w2 :
  timeless w1 = timeless w2 ->
  timeless (fst (Read w1)) = timeless (fst (Read w2)) /\ snd (Read w1) = snd (Read w2).
Proof.
  intros Hsim. apply timeless_eq in Hsim as (Hrel & Hs & Hr & Hc & Ht & Hl & Ho).
  unfold Read. rewrite <- Hr.
  destruct (reader w1) eqn:Er; cbn; rewrite timeless_eq; cbn; rewrite ?Er;
    repeat split; congruence.
Qed.

Section Timeless.

Variables e e' : env.
Hypothesis same_fault : forall n, fault e n = fault e' n.

Lemma tl_db_call c w1 w2 :
  timeless w1 = timeless w2 ->
  snd (db_call e c w1) = snd (db_call e' c w2) /\
  timeless (fst (db_call e c w1)) = timeless (fst (db_call e' c w2)).
Proof.
  intros Hsim. apply timeless_eq in Hsim as (Hrel & Hs & Hr & Hc & Ht & Hl & Ho).
  assert (outcome e' c w2 = outcome e c w1) as Hout.
  { unfold outcome. now rewrite <- Hs, <- Hc, same_fault. }
  unfold db_call. rewrite Hout. cbn [fst snd]. split; [reflexivity|].
  apply timeless_eq.
  destruct (outcome e c w1); destruct c as [[]| | | | | | |]; cbn;
    rewrite <- ?Hs, <- ?Hrel, <- ?Hr, <- ?Hc, <- ?Ht, <- ?Hl;
    destruct (session w1) eqn:Es; cbn; rewrite ?Es; repeat split; congruence.
Qed.

Lemma tl_tuning sqls w1 w2 :
  timeless w1 = timeless w2 ->
  timeless (optimize_loop e sqls w1) = timeless (optimize_loop e' sqls w2).
Proof.
  intros Hsim.
  destruct (optimize_loop_spec e sqls w1) as (H1 & H2 & H3 & H4 & H5 & H6 & H7).
  destruct (optimize_loop_spec e' sqls w2) as (K1 & K2 & K3 & K4 & K5 & K6 & K7).
  apply timeless_eq in Hsim as (Hrel & Hs & Hr & Hc & Ht & Hl & Ho).
  apply timeless_eq. cbn zeta in *. rewrite H7, K7, H6, K6.
  repeat split; try congruence.
  rewrite Hl, Hc. f_equal. apply imap_ext. intros i x _. cbn. now rewrite same_fault.
Qed.

(** The loop started at two different times: the same result, the same
    world but for the timings printed. *)
Lemma tl_loop st st' rd n w1 w2 :
  timeless w1 = timeless w2 ->
  snd (copy_loop e st rd n w1) = snd (copy_loop e' st' rd n w2) /\
  timeless (fst (copy_loop e st rd n w1)) = timeless (fst (copy_loop e' st' rd n w2)).
Proof.
  revert n w1 w2. induction rd as [|res rd IH]; intros n w1 w2 Hsim.
  - cbn [copy_loop]. destruct (tl_Read w1 w2 Hsim) as (Hs & _).
    destruct (Read w1), (Read w2). cbn [fst snd] in *. auto.
  - cbn [copy_loop]. destruct (tl_Read w1 w2 Hsim) as (Hs & _).
    destruct (Read w1) as [wa ra], (Read w2) as [wb rb]. cbn [fst snd] in Hs.
    destruct res as [field fields | msg].
    + destruct (tl_db_call (CopyRow (values_of field fields)) wa wb Hs) as (He & Hs1).
      destruct (db_call e (CopyRow (values_of field fields)) wa) as [wa1 ea].
      destruct (db_call e' (CopyRow (values_of field fields)) wb) as [wb1 eb].
      cbn [fst snd] in He, Hs1. subst eb.
      destruct ea as [m|]; [cbn [fst snd]; auto|].
      apply IH.
      destruct (Z.rem (wrap64 (n + 1)) 100000 =? 0); [|assumption].
      unfold Since, Now. cbn [fst snd].
      apply tl_println; [reflexivity | now apply tl_ticked].
    + destruct (String.eqb msg "EOF"); cbn [fst snd]; auto.
Qed.

Lemma tl_copy_finish n w1 w2 :
  timeless w1 = timeless w2 ->
  snd (copy_finish e n w1) = snd (copy_finish e' n w2) /\
  timeless (fst (copy_finish e n w1)) = timeless (fst (copy_finish e' n w2)).
Proof.
  intros Hsim. unfold copy_finish.
  destruct (tl_db_call CopyEnd w1 w2 Hsim) as (He1 & Hs1).
  destruct (db_call e CopyEnd w1) as [wa1 ea1], (db_call e' CopyEnd w2) as [wb1 eb1].
  cbn [fst snd] in He1, Hs1. subst eb1. destruct ea1; [cbn [fst snd]; auto|].
  destruct (tl_db_call StmtClose wa1 wb1 Hs1) as (He2 & Hs2).
  destruct (db_call e StmtClose wa1) as [wa2 ea2], (db_call e' StmtClose wb1) as [wb2 eb2].
  cbn [fst snd] in He2, Hs2. subst eb2. destruct ea2; [cbn [fst snd]; auto|].
  destruct (tl_db_call Commit wa2 wb2 Hs2) as (He3 & Hs3).
  destruct (db_call e Commit wa2) as [wa3 ea3], (db_call e' Commit wb2) as [wb3 eb3].
  cbn [fst snd] in He3, Hs3. subst eb3. destruct ea3; cbn [fst snd]; auto.
Qed.

Lemma tl_copy_body tableName headers w1 w2 :
  timeless w1 = timeless w2 ->
  snd (copy_body e tableName headers w1) = snd (copy_body e' tableName headers w2) /\
  timeless (fst (copy_body e tableName headers w1))
    = timeless (fst (copy_body e' tableName headers w2)).
Proof.
  intros Hsim. unfold copy_body.
  destruct (tl_db_call (Prepare tableName headers) w1 w2 Hsim) as (He1 & Hs1).
  destruct (db_call e (Prepare tableName headers) w1) as [wa1 ea1].
  destruct (db_call e' (Prepare tableName headers) w2) as [wb1 eb1].
  cbn [fst snd] in He1, Hs1. subst eb1. destruct ea1; [cbn [fst snd]; auto|].
  unfold Now. cbn [fst snd].
  assert (timeless (Println OutStarting (ticked wa1))
          = timeless (Println OutStarting (ticked wb1))) as Hs0
    by (apply tl_println; [reflexivity | now apply tl_ticked]).
  assert (reader (Println OutStarting (ticked wa1))
          = reader (Println OutStarting (ticked wb1))) as Hr0
    by (apply timeless_eq in Hs0; tauto).
  rewrite <- Hr0.
  destruct (tl_loop (clock e (ticks wa1)) (clock e' (ticks wb1))
              (reader (Println OutStarting (ticked wa1))) 0 _ _ Hs0) as (He2 & Hs2).
  destruct (copy_loop e _ _ 0 (Println OutStarting (ticked wa1))) as [wa2 ra2].
  destruct (copy_loop e' _ _ 0 (Println OutStarting (ticked wb1))) as [wb2 rb2].
  cbn [fst snd] in He2, Hs2. subst rb2.
  destruct ra2 as [cnt | m]; [|cbn [fst snd]; auto].
  now apply tl_copy_finish.
Qed.

Lemma tl_copyInsert tableName headers w1 w2 :
  timeless w1 = timeless w2 ->
  snd (copyInsert e tableName headers w1) = snd (copyInsert e' tableName headers w2) /\
  timeless (fst (copyInsert e tableName headers w1))
    = timeless (fst (copyInsert e' tableName headers w2)).
Proof.
  intros Hsim. unfold copyInsert.
  destruct (tl_db_call Begin w1 w2 Hsim) as (He1 & Hs1).
  destruct (db_call e Begin w1) as [wa1 ea1], (db_call e' Begin w2) as [wb1 eb1].
  cbn [fst snd] in He1, Hs1. subst eb1. destruct ea1; [cbn [fst snd]; auto|].
  destruct (tl_copy_body tableName headers wa1 wb1 Hs1) as (He2 & Hs2).
  destruct (copy_body e tableName headers wa1) as [wa2 ra2].
  destruct (copy_body e' tableName headers wb1) as [wb2 rb2].
  cbn [fst snd] in He2, Hs2. subst rb2.
  destruct (tl_db_call Rollback wa2 wb2 Hs2) as (_ & Hs3).
  destruct (db_call e Rollback wa2) as [wa3 ea3], (db_call e' Rollback wb2) as [wb3 eb3].
  cbn [fst snd] in *. auto.
Qed.

Lemma tl_process LowerCase csvPath tableName w :
  (forall p, files e p = files e' p) ->
  snd (ProcessCSVOptimized LowerCase e csvPath tableName w)
    = snd (ProcessCSVOptimized LowerCase e' csvPath tableName w) /\
  timeless (fst (ProcessCSVOptimized LowerCase e csvPath tableName w))
    = timeless (fst (ProcessCSVOptimized LowerCase e' csvPath tableName w)).
Proof.
  intros Hfiles. unfold ProcessCSVOptimized, Now, Open. cbn [fst snd].
  rewrite <- Hfiles.
  destruct (files e csvPath) as [msg | src]; [cbn [fst snd]; auto|].
  unfold process_body, Read. cbn [reader with_reader logged ticked].
  destruct src as [|[field fields | msg] rest]; [cbn [fst snd]; auto | | cbn [fst snd]; auto].
  unfold optimizeForBulkInsert. cbn [fst snd].
  match goal with
  | |- context [optimize_loop e optimizations ?w0] => set (w2 := w0)
  end.
  pose proof (tl_tuning optimizations w2 w2 eq_refl) as Hsim.
  clearbody w2.
  set (wa := optimize_loop e optimizations w2) in *.
  set (wb := optimize_loop e' optimizations w2) in *.
  clearbody wa wb.
  assert (timeless (Println OutOptimized wa) = timeless (Println OutOptimized wb)) as Hs0
    by (now apply tl_println).
  destruct (tl_db_call (Exec (DropTableIfExists tableName)) _ _ Hs0) as (He1 & Hs1).
  destruct (db_call e (Exec (DropTableIfExists tableName)) (Println OutOptimized wa))
    as [wa1 ea1].
  destruct (db_call e' (Exec (DropTableIfExists tableName)) (Println OutOptimized wb))
    as [wb1 eb1].
  cbn [fst snd] in He1, Hs1. subst eb1.
  destruct ea1; [cbn [fst snd]; split; [reflexivity | now apply tl_Close]|].
  destruct (derive LowerCase (values_of field fields)) as [cleanHeaders columns].
  assert (timeless (Println (OutCreating tableName) wa1)
          = timeless (Println (OutCreating tableName) wb1)) as Hs1'
    by (now apply tl_println).
  destruct (tl_db_call (Exec (CreateUnloggedTable tableName columns)) _ _ Hs1')
    as (He2 & Hs2).
  destruct (db_call e (Exec (CreateUnloggedTable tableName columns))
              (Println (OutCreating tableName) wa1)) as [wa2 ea2].
  destruct (db_call e' (Exec (CreateUnloggedTable tableName columns))
              (Println (OutCreating tableName) wb1)) as [wb2 eb2].
  cbn [fst snd] in He2, Hs2. subst eb2.
  destruct ea2; [cbn [fst snd]; split; [reflexivity | now apply tl_Close]|].
  destruct (tl_copyInsert tableName cleanHeaders wa2 wb2 Hs2) as (He3 & Hs3).
  destruct (copyInsert e tableName cleanHeaders wa2) as [wa3 [n3 ea3]].
  destruct (copyInsert e' tableName cleanHeaders wb2) as [wb3 [m3 eb3]].
  cbn [fst snd] in He3, Hs3. injection He3 as <- <-.
  destruct ea3; [cbn [fst snd]; split; [reflexivity | now apply tl_Close]|].
  unfold Since, Now. cbn [fst snd]. split; [reflexivity|].
  apply tl_Close, tl_println; [reflexivity | now apply tl_ticked].
Qed.

End Timeless.

(** X11. Time is reported, never acted upon.  Two runs of
    [ProcessCSVOptimized] from the same world, with the same file system and
    a destination that answers alike, return the same result whatever the
    clock shows in either; they leave the same relations, session and source,
    make the same calls in the same order and read the clock as often; what
    they print differs at most in the durations and rates of the progress
    lines and of the summary. *)
Theorem clock_independent
    (LowerCase : Z -> Z) (e e' : env) (csvPath tableName : string) (w : world) :
  same_but_clock e e' ->
  let run := ProcessCSVOptimized LowerCase e csvPath tableName w in
  let run' := ProcessCSVOptimized LowerCase e' csvPath tableName w in
  snd run = snd run' /\
  relations (fst run) = relations (fst run') /\
  session (fst run) = session (fst run') /\
  reader (fst run) = reader (fst run') /\
  calls (fst run) = calls (fst run') /\
  ticks (fst run) = ticks (fst run') /\
  log (fst run) = log (fst run') /\
  map untimed (stdout (fst run)) = map untimed (stdout (fst run')).
Proof.
  intros [Hf Hfiles]. cbv zeta.
  destruct (tl_process e e' Hf LowerCase csvPath tableName w Hfiles) as [Hr Hs].
  split; [exact Hr|]. now apply timeless_eq.
Qed.

Lemma clock_independent_witness :
  same_but_clock env_ok env_frozen /\
  snd (ProcessCSVOptimized latin1_lower env_ok "people.csv" "people" world0)
    = snd (ProcessCSVOptimized latin1_lower env_frozen "people.csv" "people" world0) /\
  log (fst (ProcessCSVOptimized latin1_lower env_ok "people.csv" "people" world0))
    = log (fst (ProcessCSVOptimized latin1_lower env_frozen "people.csv" "people" world0)).
Proof.
  assert (same_but_clock env_ok env_frozen) as H by (split; reflexivity).
  split; [exact H|].
  pose proof (clock_independent latin1_lower env_ok env_frozen "people.csv" "people"
                world0 H) as K.
  cbv zeta in K. destruct K as (K1 & _ & _ & _ & _ & _ & K7 & _).
  split; [exact K1 | exact K7].
Defined.

(** ** The bytes of a normalised name *)

Lemma all_bytes_and p q s :
  all_bytes p s = true -> all_bytes q s = true ->
  all_bytes (fun c => p c && q c) s = true.
Proof.
  induction s as [|a s IH]; [reflexivity|].
  cbn [all_bytes]. rewrite !andb_true_iff. intros [Hp Hps] [Hq Hqs]. auto.
Qed.

Lemma all_bytes_impl (p q : Z -> bool) s :
  (forall c, p c = true -> q c = true) ->
  all_bytes p s = true -> all_bytes q s = true.
Proof.
  intros H. induction s as [|a s IH]; [reflexivity|].
  cbn [all_bytes]. rewrite !andb_true_iff. intros [Hp Hps]. auto.
Qed.

Section Charset.

Import utf8 utf8_facts.

Variable LowerCase : Z -> Z.
Hypothesis table_ok : CaseTableOK LowerCase.

Lemma lower_not_upper r :
  ValidRune r = true -> upper (unicode.ToLower LowerCase r) = false.
Proof.
  intros Hv. destruct (lower_rune LowerCase table_ok r Hv) as (_ & Hfix & _).
  unfold upper. destruct (Z.leb_spec 0x41 (unicode.ToLower LowerCase r)) as [H1 | H1];
    [|reflexivity].
  destruct (Z.leb_spec (unicode.ToLower LowerCase r) 0x5A) as [H2 | H2]; [|reflexivity].
  exfalso. rewrite (lower_below LowerCase (unicode.ToLower LowerCase r)) in Hfix by lia.
  destruct (lowerByte_cases (unicode.ToLower LowerCase r)) as [[_ E] | [Hno _]]; lia.
Qed.

Lemma encode_not_upper r :
  ValidRune r = true -> upper r = false ->
  all_bytes (fun c => negb (upper c)) (EncodeRune r) = true.
Proof.
  intros Hv Hup. pose proof (proj1 (ValidRune_true r) Hv) as Hr.
  destruct (Z.le_gt_cases r 0x7F) as [Hle | Hgt].
  - rewrite encode_low by lia. cbn [all_bytes]. rewrite byte_of_chr by lia.
    now rewrite Hup.
  - apply (all_bytes_impl (fun c => 0x80 <=? c)); [|now apply encode_high].
    intros c Hc. apply Z.leb_le in Hc. unfold upper.
    destruct (Z.leb_spec c 0x5A); [lia|]. now rewrite andb_false_r.
Qed.

Lemma ToLower_not_upper s :
  all_bytes (fun c => negb (upper c)) (strings.ToLower LowerCase s) = true.
Proof.
  rewrite (ToLower_runes LowerCase table_ok).
  pose proof (runes_valid s) as Hv.
  induction Hv as [|c rs Hc _ IH]; [reflexivity|].
  cbn [map]. rewrite encs_cons, all_bytes_app, IH, andb_true_r.
  apply encode_not_upper; [|now apply lower_not_upper].
  now destruct (lower_rune LowerCase table_ok c Hc).
Qed.

End Charset.

Lemma lower_is_ToLower LowerCase r : unicode.ToLower LowerCase r = lower LowerCase r.
Proof.
  unfold unicode.ToLower, lower.
  destruct (Z.leb_spec r 0x7F), (Z.leb_spec 0x41 r), (Z.leb_spec r 0x5A);
    cbn [andb]; try reflexivity; lia.
Qed.

(** What the code computes with [strings.ToLower] is the string lower-cased
    character by character. *)
Lemma ToLower_lowered LowerCase s :
  CaseTableOK LowerCase -> strings.ToLower LowerCase s = lowered LowerCase s.
Proof.
  intros Hok. rewrite (ToLower_runes LowerCase Hok). unfold lowered. f_equal.
  apply map_ext. intros r. apply lower_is_ToLower.
Qed.

(** C2. The schema derived from a header row has one column per header
    field, in the order of the fields, each declared [TEXT] in the statement
    that creates the relation; the name of the i-th column is the i-th field
    with every space and every hyphen replaced by an underscore, lower-cased:
    every capital A to Z replaced by its small letter, every character above
    ASCII by its image in the case table of the Go distribution, nothing else
    changed; no space, no hyphen and no capital A to Z is left in it.
    Nothing checks for collisions: fields with the same normalised name give
    the same column name twice, as "a b" and "a-b" do, and as "Total Amount"
    and "total-amount" do. *)
Theorem derive_schema (LowerCase : Z -> Z) (tableName : string) (headers : list string) :
  CaseTableOK LowerCase ->
  let '(cleanHeaders, columns) := derive LowerCase headers in
  length cleanHeaders = length headers /\
  length columns = length headers /\
  (forall i header, headers !! i = Some header ->
     cleanHeaders !! i = Some (lowered LowerCase (underscored header)) /\
     columns !! i = Some (lowered LowerCase (underscored header) ++ " TEXT") /\
     all_bytes column_byte (lowered LowerCase (underscored header)) = true) /\
  sql_text (CreateUnloggedTable tableName columns)
    = "CREATE UNLOGGED TABLE " ++ tableName ++ " ("
        ++ Join (map (fun header => lowered LowerCase (underscored header) ++ " TEXT")
                     headers) ", "
        ++ ")" /\
  (forall i j hi hj, headers !! i = Some hi -> headers !! j = Some hj ->
     lowered LowerCase (underscored hi) = lowered LowerCase (underscored hj) ->
     is_Some (cleanHeaders !! i) /\ cleanHeaders !! i = cleanHeaders !! j) /\
  derive LowerCase ["a b"; "a-b"] = (["a_b"; "a_b"], ["a_b TEXT"; "a_b TEXT"]) /\
  derive LowerCase ["First Name"; "Last-Name"; "Total Amount"; "total-amount"]
    = (["first_name"; "last_name"; "total_amount"; "total_amount"],
       ["first_name TEXT"; "last_name TEXT"; "total_amount TEXT"; "total_amount TEXT"]).
Proof.
  intros Hok.
  assert (forall header,
            cleanHeader LowerCase header = lowered LowerCase (underscored header)) as Hname.
  { intros header. rewrite cleanHeader_bytes. now apply ToLower_lowered. }
  rewrite derive_spec. rewrite !length_map.
  split; [reflexivity|]. split; [reflexivity|].
  split; [|split; [|split; [|split; vm_compute; reflexivity]]].
  - intros i header Hi. rewrite !list_lookup_fmap, Hi. cbn.
    rewrite Hname. split; [reflexivity|]. split; [reflexivity|].
    rewrite <- ToLower_lowered by assumption. unfold column_byte.
    apply all_bytes_and.
    + apply ToLower_plain; [assumption | apply underscored_plain].
    + now apply ToLower_not_upper.
  - cbn [sql_text].
    replace (map (fun h => cleanHeader LowerCase h ++ " TEXT") headers)
      with (map (fun header => lowered LowerCase (underscored header) ++ " TEXT") headers);
      [reflexivity|].
    apply map_ext. intros header. now rewrite Hname.
  - intros i j hi hj Hi Hj Heq. rewrite !list_lookup_fmap, Hi, Hj. cbn.
    split; [eauto|]. rewrite !Hname. now f_equal.
Qed.

Lemma derive_schema_witness :
  CaseTableOK latin1_lower /\
  fst (derive latin1_lower ["Prénom"; "ÂGE Réel"]) !! 1%nat = Some "âge_réel" /\
  snd (derive latin1_lower ["Prénom"; "ÂGE Réel"]) !! 1%nat = Some "âge_réel TEXT".
Proof.
  split; [exact latin1_table_ok|].
  pose proof (derive_schema latin1_lower "people" ["Prénom"; "ÂGE Réel"] latin1_table_ok)
    as H.
  destruct (derive latin1_lower ["Prénom"; "ÂGE Réel"]) as [cleanHeaders columns].
  destruct H as (_ & _ & H & _).
  destruct (H 1%nat "ÂGE Réel" eq_refl) as (H1 & H2 & _).
  cbn [fst snd]. rewrite H1, H2. split; vm_compute; reflexivity.
Defined.

(** X12. A normalised name has no space, no hyphen and no capital A to Z,
    whatever the header field: no byte of [cleanHeader] of any string, valid
    UTF-8 or not, is 0x20, 0x2D or in 0x41..0x5A, given the case table of the
    Go distribution. *)
Theorem cleanHeader_charset (LowerCase : Z -> Z) (header : string) :
  CaseTableOK LowerCase ->
  all_bytes column_byte (cleanHeader LowerCase header) = true.
Proof.
  intros Hok. rewrite cleanHeader_bytes. unfold column_byte.
  apply all_bytes_and.
  - apply ToLower_plain; [assumption | apply underscored_plain].
  - now apply ToLower_not_upper.
Qed.

Lemma cleanHeader_charset_witness :
  CaseTableOK latin1_lower /\
  all_bytes column_byte (cleanHeader latin1_lower "Date-De Création") = true.
Proof.
  split; [exact latin1_table_ok|].
  exact (cleanHeader_charset latin1_lower "Date-De Création" latin1_table_ok).
Defined.

Lemma map_bytes_length f s : String.length (map_bytes f s) = String.length s.
Proof. induction s as [|a s IH]; [reflexivity|]. cbn. now rewrite IH. Qed.

Lemma underscored_ascii s :
  strings.isASCII s = true -> strings.isASCII (underscored s) = true.
Proof.
  unfold strings.isASCII, underscored, utf8.RuneSelf.
  induction s as [|a s IH]; [reflexivity|].
  cbn [all_bytes map_bytes]. rewrite !andb_true_iff, !Z.ltb_lt. intros [Ha Hs].
  split; [|now apply IH].
  rewrite byte_of_chr by (apply underscore_range, byte_of_range).
  unfold underscore. destruct ((byte_of a =? 0x20) || (byte_of a =? 0x2D))%bool; lia.
Qed.

(** X13. On an ASCII header the normalisation works byte by byte and needs
    no case table: a space or a hyphen becomes an underscore, a capital A
    to Z its small letter, and every other byte, a quote, a semicolon or a
    digit as well, is kept; the name has the length of the field. *)
Theorem cleanHeader_ascii (LowerCase : Z -> Z) (header : string) :
  strings.isASCII header = true ->
  cleanHeader LowerCase header
    = map_bytes (fun c => if (c =? 0x20) || (c =? 0x2D) then 0x5F
                          else if (0x41 <=? c) && (c <=? 0x5A) then c + 0x20 else c)
                header /\
  String.length (cleanHeader LowerCase header) = String.length header.
Proof.
  intros Hascii.
  assert (cleanHeader LowerCase header
          = map_bytes (fun c => strings.lowerByte (underscore c)) header) as E.
  { rewrite cleanHeader_bytes. unfold strings.ToLower.
    rewrite (underscored_ascii header Hascii). unfold underscored.
    apply map_bytes_compose, underscore_range. }
  split; [|rewrite E; apply map_bytes_length].
  rewrite E. apply map_bytes_ext. intros a.
  unfold underscore, strings.lowerByte.
  destruct ((byte_of a =? 0x20) || (byte_of a =? 0x2D))%bool eqn:Eu; reflexivity.
Qed.

Lemma cleanHeader_ascii_witness :
  strings.isASCII "Unit-Price (EUR); 2024" = true /\
  cleanHeader latin1_lower "Unit-Price (EUR); 2024" = "unit_price_(eur);_2024".
Proof.
  split; [reflexivity|].
  rewrite (proj1 (cleanHeader_ascii latin1_lower "Unit-Price (EUR); 2024" eq_refl)).
  vm_compute. reflexivity.
Defined.

(** X14. A load that fails leaves no record of the file behind.  When
    [ProcessCSVOptimized] returns an error, whatever failed, the relations
    are in one of three states: exactly what they were (the failure came
    before the drop was accepted); what they were without the table (the
    create was rejected); or what they were with the table created anew,
    with the columns of the header and no row (the failure came in the copy
    phase, however many rows had been submitted). *)
Theorem failed_load_keeps_no_row
    (LowerCase : Z -> Z) (e : env) (csvPath tableName : string)
    (w w' : world) (msg : string) :
  ProcessCSVOptimized LowerCase e csvPath tableName w = (w', Some msg) ->
  relations w' = relations w \/
  relations w' = delete tableName (relations w) \/
  exists field fields rest,
    files e csvPath = inr (Rec field fields :: rest) /\
    relations w' =
      <[tableName := {| rel_columns := map (fun h => cleanHeader LowerCase h ++ " TEXT")
                                           (field :: fields);
                        rel_rows := [] |}]> (relations w).
Proof.
  intros Hrun. apply ProcessCSVOptimized_spec in Hrun.
  inversion Hrun as [m w0 Hfile Hl Hrel
                    | src m w0 Hfile Hsrc Hl Hrel
                    | field fields rest m w0 Hfile Hf9 Hl Hrel
                    | field fields rest m w0 Hfile Hf9 Hf10 Hl Hrel
                    | field fields rest wc wr n err w0 Hfile Hf9 Hf10 Hrc Hcc Hsc Hrelc Hlc
                        Hcopy Hl Hrel Hs Hout]; subst; auto.
  right. right. do 3 eexists. split; [eassumption|].
  assert (relations wr = relations wc) as Hsame.
  { apply copyInsert_spec in Hcopy. inversion Hcopy; subst; assumption. }
  rewrite Hrel, Hsame, Hrelc, insert_delete_eq, derive_spec. reflexivity.
Qed.

Lemma failed_load_keeps_no_row_witness :
  ProcessCSVOptimized latin1_lower (env_reject 14 "pq: invalid input")
                      "people.csv" "people" stale
  = (fst (ProcessCSVOptimized latin1_lower (env_reject 14 "pq: invalid input")
                              "people.csv" "people" stale),
     Some "error copying line 2: pq: invalid input") /\
  (relations (fst (ProcessCSVOptimized latin1_lower (env_reject 14 "pq: invalid input")
                                       "people.csv" "people" stale))
   = relations stale \/
   relations (fst (ProcessCSVOptimized latin1_lower (env_reject 14 "pq: invalid input")
                                       "people.csv" "people" stale))
   = delete "people" (relations stale) \/
   exists field fields rest,
     files (env_reject 14 "pq: invalid input") "people.csv" = inr (Rec field fields :: rest) /\
     relations (fst (ProcessCSVOptimized latin1_lower (env_reject 14 "pq: invalid input")
                                         "people.csv" "people" stale))
     = <[ "people" := {| rel_columns := map (fun h => cleanHeader latin1_lower h ++ " TEXT")
                                            (field :: fields);
                         rel_rows := [] |}]> (relations stale)).
Proof.
  assert (ProcessCSVOptimized latin1_lower (env_reject 14 "pq: invalid input")
                              "people.csv" "people" stale
          = (fst (ProcessCSVOptimized latin1_lower (env_reject 14 "pq: invalid input")
                                      "people.csv" "people" stale),
             Some "error copying line 2: pq: invalid input")) as H
    by (vm_compute; reflexivity).
  split; [exact H|].
  exact (failed_load_keeps_no_row _ _ _ _ _ _ _ H).
Defined.

(** ** The summary line *)

Lemma db_call_stdout e c w : stdout (fst (db_call e c w)) = stdout w.
Proof. now destruct (db_call_frame e c w) as (_ & _ & _ & H & _). Qed.

Lemma Read_stdout w : stdout (fst (Read w)) = stdout w.
Proof. unfold Read. destruct (reader w); reflexivity. Qed.

Lemma loop_stdout e startTime rd n w :
  exists out,
    stdout (fst (copy_loop e startTime rd n w)) = (stdout w ++ out)%list /\
    Forall (fun l => is_summary l = false) out.
Proof.
  revert n w. induction rd as [|res rd IH]; intros n w; cbn [copy_loop].
  - pose proof (Read_stdout w) as Hr. destruct (Read w) as [w1 r1]. cbn [fst] in *.
    exists []. rewrite app_nil_r. auto.
  - pose proof (Read_stdout w) as Hr. destruct (Read w) as [w1 r1]. cbn [fst] in Hr.
    destruct res as [field fields | msg].
    + pose proof (db_call_stdout e (CopyRow (values_of field fields)) w1) as Hc.
      destruct (db_call e (CopyRow (values_of field fields)) w1) as [w2 err].
      cbn [fst] in Hc.
      destruct err as [m|].
      { exists []. cbn [fst]. rewrite app_nil_r. split; [congruence | constructor]. }
      destruct (Z.rem (wrap64 (n + 1)) 100000 =? 0).
      * unfold Since, Now. cbn [fst snd].
        match goal with
        | |- context [copy_loop e startTime rd ?k ?w0] =>
          destruct (IH k w0) as (out & Ho & Hq); rewrite Ho
        end.
        cbn [stdout Println ticked]. rewrite Hc, Hr, <- app_assoc.
        eexists. split; [reflexivity|]. constructor; [reflexivity | assumption].
      * destruct (IH (wrap64 (n + 1)) w2) as (out & Ho & Hq). rewrite Ho, Hc, Hr.
        exists out. auto.
    + destruct (String.eqb msg "EOF"); exists []; cbn [fst]; rewrite app_nil_r; auto.
Qed.

Lemma copy_finish_stdout e n w : stdout (fst (copy_finish e n w)) = stdout w.
Proof.
  unfold copy_finish.
  pose proof (db_call_stdout e CopyEnd w) as H1.
  destruct (db_call e CopyEnd w) as [w1 [m|]]; cbn [fst] in *; [assumption|].
  pose proof (db_call_stdout e StmtClose w1) as H2.
  destruct (db_call e StmtClose w1) as [w2 [m|]]; cbn [fst] in *; [congruence|].
  pose proof (db_call_stdout e Commit w2) as H3.
  destruct (db_call e Commit w2) as [w3 [m|]]; cbn [fst] in *; congruence.
Qed.

Lemma copyInsert_stdout e tableName headers w :
  exists out,
    stdout (fst (copyInsert e tableName headers w)) = (stdout w ++ out)%list /\
    Forall (fun l => is_summary l = false) out.
Proof.
  unfold copyInsert.
  pose proof (db_call_stdout e Begin w) as H1.
  destruct (db_call e Begin w) as [w1 [m|]]; cbn [fst] in H1.
  { exists []. cbn [fst]. rewrite app_nil_r. auto. }
  assert (exists out,
            stdout (fst (copy_body e tableName headers w1)) = (stdout w1 ++ out)%list /\
            Forall (fun l => is_summary l = false) out) as (out & Ho & Hq).
  { unfold copy_body.
    pose proof (db_call_stdout e (Prepare tableName headers) w1) as H2.
    destruct (db_call e (Prepare tableName headers) w1) as [w2 [m|]]; cbn [fst] in H2.
    { exists []. cbn [fst]. rewrite app_nil_r. auto. }
    unfold Now. cbn [fst snd].
    set (w0 := Println OutStarting (ticked w2)).
    assert (stdout w0 = (stdout w1 ++ [OutStarting])%list) as H0
      by (subst w0; cbn; congruence).
    destruct (loop_stdout e (clock e (ticks w2)) (reader w0) 0 w0) as (out & Ho & Hq).
    clearbody w0.
    destruct (copy_loop e (clock e (ticks w2)) (reader w0) 0 w0) as [w3 [cnt | m]];
      cbn [fst] in Ho.
    - pose proof (copy_finish_stdout e cnt w3) as H3.
      destruct (copy_finish e cnt w3) as [w4 r4]. cbn [fst] in *.
      exists (OutStarting :: out). rewrite H3, Ho, H0, <- app_assoc.
      split; [reflexivity | now constructor].
    - exists (OutStarting :: out). cbn [fst]. rewrite Ho, H0, <- app_assoc.
      split; [reflexivity | now constructor]. }
  destruct (copy_body e tableName headers w1) as [w2 r2]. cbn [fst] in Ho.
  pose proof (db_call_stdout e Rollback w2) as H3.
  destruct (db_call e Rollback w2) as [w3 rb]. cbn [fst] in *.
  exists out. split; [congruence | assumption].
Qed.

(** X15. The summary is printed on success only.  On every run of
    [ProcessCSVOptimized], what is printed is added after what standard
    output held; when the run returns an error no summary line is among what
    it printed, whatever was copied before the failure; when it returns no
    error the summary is the last line printed, and the only one. *)
Theorem summary_only_on_success
    (LowerCase : Z -> Z) (e : env) (csvPath tableName : string)
    (w w' : world) (err : option string) :
  ProcessCSVOptimized LowerCase e csvPath tableName w = (w', err) ->
  exists out,
    stdout w' = (stdout w ++ out)%list /\
    match err with
    | Some _ => Forall (fun l => is_summary l = false) out
    | None =>
      exists out0 lineCount seconds linesPerSec,
        out = (out0 ++ [OutSummary lineCount seconds linesPerSec])%list /\
        Forall (fun l => is_summary l = false) out0
    end.
Proof.
  unfold ProcessCSVOptimized, Now, Open. cbn [fst snd].
  destruct (files e csvPath) as [msg | src].
  { intros [= <- <-]. exists []. cbn. rewrite app_nil_r. auto. }
  unfold process_body, Read. cbn [reader with_reader logged ticked].
  destruct src as [|[field fields | msg] rest].
  { intros [= <- <-]. exists []. cbn. rewrite app_nil_r. auto. }
  2:{ intros [= <- <-]. exists []. cbn. rewrite app_nil_r. auto. }
  match goal with
  | |- context [optimizeForBulkInsert e ?w0] => set (w2 := w0)
  end.
  assert (stdout w2 = (stdout w ++ [OutCSV (filepath.Base csvPath);
                                    OutColumns (values_of field fields)])%list) as Ho2.
  { subst w2. cbn. now rewrite <- app_assoc. }
  clearbody w2.
  pose proof (optimizeForBulkInsert_spec e w2) as (_ & _ & _ & _ & _ & _ & Ho3 & _).
  destruct (optimizeForBulkInsert e w2) as [w3 e3]. cbn [fst snd] in *.
  pose proof (db_call_stdout e (Exec (DropTableIfExists tableName)) w3) as Ho4.
  destruct (db_call e (Exec (DropTableIfExists tableName)) w3) as [w4 [m|]];
    cbn [fst] in Ho4.
  { intros [= <- <-]. cbn [stdout Close logged].
    eexists. rewrite Ho4, Ho3, Ho2, <- app_assoc. split; [reflexivity|].
    repeat constructor. }
  destruct (derive LowerCase (values_of field fields)) as [cleanHeaders columns].
  set (w5 := Println (OutCreating tableName) w4).
  assert (stdout w5 = (stdout w4 ++ [OutCreating tableName])%list) as Ho5 by reflexivity.
  clearbody w5.
  pose proof (db_call_stdout e (Exec (CreateUnloggedTable tableName columns)) w5) as Ho6.
  destruct (db_call e (Exec (CreateUnloggedTable tableName columns)) w5) as [w6 [m|]];
    cbn [fst] in Ho6.
  { intros [= <- <-]. cbn [stdout Close logged].
    eexists. rewrite Ho6, Ho5, Ho4, Ho3, Ho2, <- !app_assoc. split; [reflexivity|].
    repeat constructor. }
  destruct (copyInsert_stdout e tableName cleanHeaders w6) as (out & Ho7 & Hq).
  destruct (copyInsert e tableName cleanHeaders w6) as [w7 [n [m|]]]; cbn [fst] in Ho7.
  { intros [= <- <-]. cbn [stdout Close logged].
    eexists. rewrite Ho7, Ho6, Ho5, Ho4, Ho3, Ho2, <- !app_assoc. split; [reflexivity|].
    cbn [app]. repeat constructor. assumption. }
  unfold Since, Now. cbn [fst snd]. intros [= <- <-].
  cbn [stdout Close logged Println ticked].
  eexists. rewrite Ho7, Ho6, Ho5, Ho4, Ho3, Ho2, <- !app_assoc. split; [reflexivity|].
  cbn [app].
  exists ([OutCSV (filepath.Base csvPath); OutColumns (values_of field fields);
           OutOptimized; OutCreating tableName] ++ out)%list.
  do 3 eexists. split; [reflexivity|]. cbn [app]. repeat constructor. assumption.
Qed.

Lemma summary_only_on_success_witness :
  exists out,
    stdout (fst (ProcessCSVOptimized latin1_lower (env_reject 14 "pq: invalid input")
                                     "people.csv" "people" world0))
      = (stdout world0 ++ out)%list /\
    Forall (fun l => is_summary l = false) out.
Proof.
  assert (ProcessCSVOptimized latin1_lower (env_reject 14 "pq: invalid input")
                              "people.csv" "people" world0
          = (fst (ProcessCSVOptimized latin1_lower (env_reject 14 "pq: invalid input")
                                      "people.csv" "people" world0),
             Some "error copying line 2: pq: invalid input")) as H
    by (vm_compute; reflexivity).
  destruct (summary_only_on_success _ _ _ _ _ _ _ H) as (out & Ho & Hq).
  exists out. split; assumption.
Defined.
